(** * The realtime core of the web SDK client

    A shallow embedding of the [realtime] object of [class Client]
    (subscribe / unsubscribe, the debounced [connect], [createSocket],
    [onMessage], the close listener, [getTimeout] and [cleanUp]) together
    with the part of the browser it talks to: timers, WebSocket objects,
    the [cookieFallback] item of local storage and the console.

    JavaScript numbers that only count ([subscriptionsCounter],
    [reconnectAttempts], timer and socket handles) are natural numbers: they
    start at 0 and only ever grow by one, and doubles are exact on that
    range far beyond any run.

    Where the platform can throw, the embedding throws: [JSON.parse] on a
    frame or on the stored item, [send] on a connecting socket, the
    [WebSocket] constructor on a URL it cannot parse, and reading a field
    off a message [data] that is [null] or absent. *)

From Stdlib Require Import List String Ascii Bool Arith ZArith Lia Permutation.
From Stdlib Require Import DecimalString.
Import ListNotations.
Open Scope string_scope.
Open Scope list_scope.
Open Scope nat_scope.

(** ** Insertion-ordered containers of the platform *)

(** [Array.prototype.includes] on an array of strings. *)
Definition includes (arr : list string) (x : string) : bool :=
  existsb (String.eqb x) arr.

(** [Set<string>]: distinct strings in insertion order. *)
Module JsSet.
Definition t := list string.
Definition empty : t := [].
Definition has (x : string) (s : t) : bool := existsb (String.eqb x) s.
(** [add] leaves a present element where it is and appends a new one. *)
Definition add (x : string) (s : t) : t := if has x s then s else s ++ [x].
Definition delete (x : string) (s : t) : t :=
  filter (fun y => negb (String.eqb y x)) s.
Definition size (s : t) : nat := List.length s.
End JsSet.

(** [Map<number, V>]: bindings in insertion order, one per key. *)
Module JsMap.
Section WithValue.
Context {V : Type}.
Definition t := list (nat * V).
Definition empty : t := [].
Definition has (k : nat) (m : t) : bool :=
  existsb (fun kv => Nat.eqb (fst kv) k) m.
(** [set] overwrites the value of a present key in place and appends a
    new key at the end. *)
Definition set (k : nat) (v : V) (m : t) : t :=
  if has k m
  then map (fun kv => if Nat.eqb (fst kv) k then (k, v) else kv) m
  else m ++ [(k, v)].
Definition delete (k : nat) (m : t) : t :=
  filter (fun kv => negb (Nat.eqb (fst kv) k)) m.
Definition keys (m : t) : list nat := map fst m.
End WithValue.
Arguments t : clear implicits.
End JsMap.

(** ** Wire data *)

(** Values produced by [JSON.parse] where the source types them [any] or
    leaves them opaque. *)
#[local] Unset Elimination Schemes.
Inductive json : Type :=
| JNull
| JBool (b : bool)
| JNum (n : Z)
| JStr (s : string)
| JArr (items : list json)
| JObj (members : list (string * json)).
#[local] Set Elimination Schemes.

(** A JSON object, the TypeScript type [object] of the [user] fields. *)
Definition object := list (string * json).

(** JavaScript truthiness of a parsed value. *)
Definition truthy (v : json) : bool :=
  match v with
  | JNull => false
  | JBool b => b
  | JNum n => negb (Z.eqb n 0)
  | JStr s => negb (String.eqb s "")
  | JArr _ | JObj _ => true
  end.

(** [v?.[key]] for a key that is neither an index nor a built-in property:
    the last member of that name of an object, [undefined] otherwise. *)
Fixpoint member (key : string) (ms : list (string * json)) : option json :=
  match ms with
  | [] => None
  | (k, v) :: rest =>
      match member key rest with
      | Some v' => Some v'
      | None => if String.eqb k key then Some v else None
      end
  end.

Definition get (v : json) (key : string) : option json :=
  match v with
  | JObj ms => member key ms
  | _ => None
  end.

(** [type: 'error' | 'event' | 'connected' | 'response'] *)
Inductive ResponseType := error | event | connected | response.

(** The union [RealtimeResponseAuthenticated | RealtimeResponseConnected |
    RealtimeResponseError | RealtimeResponseEvent<unknown>], and [NoData]:
    a [data] that is [null] or absent.  The declared types leave that
    out; [JSON.parse] checks no type, and reading a field off such a
    [data] throws a [TypeError]. *)
Inductive ResponseData :=
| Authenticated (to : string) (success : bool) (user : object)
| Connected (chs : list string) (user : option object)
| Error (code : Z) (message : string)
| Event (events chs : list string) (timestamp : Z) (payload : json)
| NoData.

Record RealtimeResponse := {
  type : ResponseType;
  data : ResponseData
}.

(** Field reads through the casts of the source, off a [data] that is
    there; a field the value does not have reads as [undefined].  On
    [NoData] this is what the null-safe [data?.channels] gives; the reads
    that are not null-safe check [has_data] first. *)
Definition data_user (d : ResponseData) : option object :=
  match d with
  | Authenticated _ _ u => Some u
  | Connected _ u => u
  | _ => None
  end.

Definition data_channels (d : ResponseData) : option (list string) :=
  match d with
  | Connected chs _ => Some chs
  | Event _ chs _ _ => Some chs
  | _ => None
  end.

Definition data_code (d : ResponseData) : option Z :=
  match d with
  | Error c _ => Some c
  | _ => None
  end.

(** Whether [data.field] can be read at all. *)
Definition has_data (d : ResponseData) : bool :=
  match d with NoData => false | _ => true end.

(** [RealtimeRequest]: [{type: 'authentication', data: {session}}]. *)
Inductive RealtimeRequest := authentication (session : json).

(** ** Platform objects *)

Inductive ReadyState := CONNECTING | OPEN | CLOSING | CLOSED.

(** The numeric constants [WebSocket.CONNECTING] ... [WebSocket.CLOSED]. *)
Definition code_of (r : ReadyState) : nat :=
  match r with CONNECTING => 0 | OPEN => 1 | CLOSING => 2 | CLOSED => 3 end.

Record WebSocket := {
  ws_id : nat;
  ws_url : string;
  readyState : ReadyState;
  ws_sent : list RealtimeRequest
}.

(** A caller's callback function, known by its identity. *)
Definition Callback := nat.

(** What a pending timer runs when it fires. *)
Inductive Task :=
| ConnectTask
| ReconnectTask
| CallbackTask (cb : Callback) (d : ResponseData).

Record Timer := {
  timer_id : nat;
  timer_delay : N;
  timer_task : Task
}.

(** The [cookieFallback] item of [window.localStorage], as [JSON.parse]
    sees it. *)
Inductive StoredItem := Absent | Garbled | Holds (v : json).

Inductive Exn :=
| SyntaxError
| InvalidStateError
| TypeError
| Thrown (d : ResponseData).

Inductive LogEntry :=
| Logged (e : Exn)
| Disconnected (timeout : N).

(** An inbound frame: [JSON.parse(event.data)] throws or yields a message. *)
Inductive Frame := Unparsable | Parsed (message : RealtimeResponse).

(** ** The client *)

Record Subscription := {
  sub_channels : list string;
  sub_callback : Callback
}.

Record Realtime := {
  socket : option WebSocket;
  timeout : option nat;
  url : string;
  lastMessage : option RealtimeResponse;
  channels : JsSet.t;
  subscriptions : JsMap.t Subscription;
  subscriptionsCounter : nat;
  reconnect : bool;
  reconnectAttempts : nat
}.

(** The closure returned by [subscribe]; it captures [counter] and
    [channelArray]. *)
Record Closure := {
  cl_counter : nat;
  cl_channels : list string
}.

(** The client with the browser around it.  [detached] holds the sockets
    [realtime.socket] no longer points to; the platform may still deliver
    their events.  [closures] are the unsubscribe functions handed out so
    far, [invoked] the callbacks run so far.

    [url_parses] is the verdict of the platform's URL parser, which
    [new WebSocket] runs, on the URLs of this client.  They are the
    realtime endpoint followed by [/realtime?] and a percent-encoded
    query, so they differ only where no parser fails: it accepts all of
    them or, for an endpoint such as [wss://host:99999/v1], none. *)
Record Client := {
  endpointRealtime : string;
  project : string;
  url_parses : bool;
  realtime : Realtime;
  detached : list WebSocket;
  next_socket : nat;
  timers : list Timer;
  next_timer : nat;
  cookieFallback : StoredItem;
  console : list LogEntry;
  invoked : list (Callback * ResponseData);
  closures : list Closure
}.

Definition with_realtime (f : Realtime -> Realtime) (c : Client) : Client :=
  {| endpointRealtime := endpointRealtime c; project := project c;
     url_parses := url_parses c;
     realtime := f (realtime c);
     detached := detached c; next_socket := next_socket c;
     timers := timers c; next_timer := next_timer c;
     cookieFallback := cookieFallback c; console := console c;
     invoked := invoked c; closures := closures c |}.

Definition set_socket (s : option WebSocket) (r : Realtime) : Realtime :=
  {| socket := s; timeout := timeout r; url := url r;
     lastMessage := lastMessage r; channels := channels r;
     subscriptions := subscriptions r;
     subscriptionsCounter := subscriptionsCounter r;
     reconnect := reconnect r; reconnectAttempts := reconnectAttempts r |}.

Definition set_timeout (t : option nat) (r : Realtime) : Realtime :=
  {| socket := socket r; timeout := t; url := url r;
     lastMessage := lastMessage r; channels := channels r;
     subscriptions := subscriptions r;
     subscriptionsCounter := subscriptionsCounter r;
     reconnect := reconnect r; reconnectAttempts := reconnectAttempts r |}.

Definition set_url (u : string) (r : Realtime) : Realtime :=
  {| socket := socket r; timeout := timeout r; url := u;
     lastMessage := lastMessage r; channels := channels r;
     subscriptions := subscriptions r;
     subscriptionsCounter := subscriptionsCounter r;
     reconnect := reconnect r; reconnectAttempts := reconnectAttempts r |}.

Definition set_lastMessage (m : option RealtimeResponse) (r : Realtime)
  : Realtime :=
  {| socket := socket r; timeout := timeout r; url := url r;
     lastMessage := m; channels := channels r;
     subscriptions := subscriptions r;
     subscriptionsCounter := subscriptionsCounter r;
     reconnect := reconnect r; reconnectAttempts := reconnectAttempts r |}.

Definition set_channels (s : JsSet.t) (r : Realtime) : Realtime :=
  {| socket := socket r; timeout := timeout r; url := url r;
     lastMessage := lastMessage r; channels := s;
     subscriptions := subscriptions r;
     subscriptionsCounter := subscriptionsCounter r;
     reconnect := reconnect r; reconnectAttempts := reconnectAttempts r |}.

Definition set_subscriptions (m : JsMap.t Subscription) (r : Realtime)
  : Realtime :=
  {| socket := socket r; timeout := timeout r; url := url r;
     lastMessage := lastMessage r; channels := channels r;
     subscriptions := m;
     subscriptionsCounter := subscriptionsCounter r;
     reconnect := reconnect r; reconnectAttempts := reconnectAttempts r |}.

Definition set_subscriptionsCounter (n : nat) (r : Realtime) : Realtime :=
  {| socket := socket r; timeout := timeout r; url := url r;
     lastMessage := lastMessage r; channels := channels r;
     subscriptions := subscriptions r;
     subscriptionsCounter := n;
     reconnect := reconnect r; reconnectAttempts := reconnectAttempts r |}.

Definition set_reconnect (b : bool) (r : Realtime) : Realtime :=
  {| socket := socket r; timeout := timeout r; url := url r;
     lastMessage := lastMessage r; channels := channels r;
     subscriptions := subscriptions r;
     subscriptionsCounter := subscriptionsCounter r;
     reconnect := b; reconnectAttempts := reconnectAttempts r |}.

Definition set_reconnectAttempts (n : nat) (r : Realtime) : Realtime :=
  {| socket := socket r; timeout := timeout r; url := url r;
     lastMessage := lastMessage r; channels := channels r;
     subscriptions := subscriptions r;
     subscriptionsCounter := subscriptionsCounter r;
     reconnect := reconnect r; reconnectAttempts := n |}.

Definition set_detached (d : list WebSocket) (c : Client) : Client :=
  {| endpointRealtime := endpointRealtime c; project := project c;
     url_parses := url_parses c;
     realtime := realtime c;
     detached := d; next_socket := next_socket c;
     timers := timers c; next_timer := next_timer c;
     cookieFallback := cookieFallback c; console := console c;
     invoked := invoked c; closures := closures c |}.

Definition set_next_socket (n : nat) (c : Client) : Client :=
  {| endpointRealtime := endpointRealtime c; project := project c;
     url_parses := url_parses c;
     realtime := realtime c;
     detached := detached c; next_socket := n;
     timers := timers c; next_timer := next_timer c;
     cookieFallback := cookieFallback c; console := console c;
     invoked := invoked c; closures := closures c |}.

Definition set_timers (ts : list Timer) (c : Client) : Client :=
  {| endpointRealtime := endpointRealtime c; project := project c;
     url_parses := url_parses c;
     realtime := realtime c;
     detached := detached c; next_socket := next_socket c;
     timers := ts; next_timer := next_timer c;
     cookieFallback := cookieFallback c; console := console c;
     invoked := invoked c; closures := closures c |}.

Definition set_next_timer (n : nat) (c : Client) : Client :=
  {| endpointRealtime := endpointRealtime c; project := project c;
     url_parses := url_parses c;
     realtime := realtime c;
     detached := detached c; next_socket := next_socket c;
     timers := timers c; next_timer := n;
     cookieFallback := cookieFallback c; console := console c;
     invoked := invoked c; closures := closures c |}.

Definition set_console (l : list LogEntry) (c : Client) : Client :=
  {| endpointRealtime := endpointRealtime c; project := project c;
     url_parses := url_parses c;
     realtime := realtime c;
     detached := detached c; next_socket := next_socket c;
     timers := timers c; next_timer := next_timer c;
     cookieFallback := cookieFallback c; console := l;
     invoked := invoked c; closures := closures c |}.

Definition set_invoked (l : list (Callback * ResponseData)) (c : Client)
  : Client :=
  {| endpointRealtime := endpointRealtime c; project := project c;
     url_parses := url_parses c;
     realtime := realtime c;
     detached := detached c; next_socket := next_socket c;
     timers := timers c; next_timer := next_timer c;
     cookieFallback := cookieFallback c; console := console c;
     invoked := l; closures := closures c |}.

Definition set_closures (l : list Closure) (c : Client) : Client :=
  {| endpointRealtime := endpointRealtime c; project := project c;
     url_parses := url_parses c;
     realtime := realtime c;
     detached := detached c; next_socket := next_socket c;
     timers := timers c; next_timer := next_timer c;
     cookieFallback := cookieFallback c; console := console c;
     invoked := invoked c; closures := l |}.

(** A client as its constructor leaves it, after [setEndpointRealtime] and
    [setProject], in a browser whose storage holds [item] and whose URL
    parser accepts the client's URLs or not, as [parses] says. *)
Definition fresh (endpoint proj : string) (item : StoredItem) (parses : bool)
  : Client :=
  {| endpointRealtime := endpoint; project := proj; url_parses := parses;
     realtime :=
       {| socket := None; timeout := None; url := "";
          lastMessage := None; channels := JsSet.empty;
          subscriptions := JsMap.empty; subscriptionsCounter := 0;
          reconnect := true; reconnectAttempts := 0 |};
     detached := []; next_socket := 0;
     timers := []; next_timer := 1;
     cookieFallback := item; console := [];
     invoked := []; closures := [] |}.

(** ** [URLSearchParams] *)

(** Strings are held as their UTF-8 bytes, so the serializer of
    [application/x-www-form-urlencoded] works byte by byte. *)
Module URLSearchParams.
Definition t := list (string * string).
Definition empty : t := [].

Definition has (name : string) (p : t) : bool :=
  existsb (fun nv => String.eqb (fst nv) name) p.

Definition append (name value : string) (p : t) : t := p ++ [(name, value)].

(** [set] gives the first pair of that name the value and drops the other
    pairs of that name; it appends when there is none. *)
Fixpoint set_first (name value : string) (p : t) : t :=
  match p with
  | [] => []
  | (n, v) :: rest =>
      if String.eqb n name
      then (n, value) :: filter (fun nv => negb (String.eqb (fst nv) name)) rest
      else (n, v) :: set_first name value rest
  end.

Definition set (name value : string) (p : t) : t :=
  if has name p then set_first name value p else append name value p.

(** Bytes the serializer leaves as they are: [*], [-], [.], [_] and the
    ASCII letters and digits. *)
Definition plain (a : ascii) : bool :=
  let n := nat_of_ascii a in
  (n =? 42) || (n =? 45) || (n =? 46) || (n =? 95)
  || ((48 <=? n) && (n <=? 57))
  || ((65 <=? n) && (n <=? 90))
  || ((97 <=? n) && (n <=? 122)).

Definition hex_digit (n : nat) : ascii :=
  if n <? 10 then ascii_of_nat (48 + n) else ascii_of_nat (55 + n).

Fixpoint encode (s : string) : string :=
  match s with
  | EmptyString => EmptyString
  | String a rest =>
      let n := nat_of_ascii a in
      if plain a then String a (encode rest)
      else if n =? 32 then String "+" (encode rest)
      else String "%" (String (hex_digit (n / 16))
                        (String (hex_digit (n mod 16)) (encode rest)))
  end.

Definition pair_text (nv : string * string) : string :=
  (encode (fst nv) ++ "=" ++ encode (snd nv))%string.

Definition toString (p : t) : string := String.concat "&" (map pair_text p).

(** The parser of the same format, by which a server reads the query:
    split at [&], drop empty pieces, cut each piece at its first [=],
    turn [+] into a space and undo the percent-encoding. *)
Fixpoint split_on (sep : ascii) (s : string) : list string :=
  match s with
  | EmptyString => [EmptyString]
  | String a rest =>
      if Ascii.eqb a sep then EmptyString :: split_on sep rest
      else
        match split_on sep rest with
        | piece :: pieces => String a piece :: pieces
        | [] => [String a EmptyString]
        end
  end.

Fixpoint cut_at (sep : ascii) (s : string) : string * string :=
  match s with
  | EmptyString => (EmptyString, EmptyString)
  | String a rest =>
      if Ascii.eqb a sep then (EmptyString, rest)
      else let '(before, after) := cut_at sep rest in
           (String a before, after)
  end.

Definition unhex (a : ascii) : option nat :=
  let n := nat_of_ascii a in
  if (48 <=? n) && (n <=? 57) then Some (n - 48)
  else if (65 <=? n) && (n <=? 70) then Some (n - 55)
  else if (97 <=? n) && (n <=? 102) then Some (n - 87)
  else None.

Fixpoint decode (s : string) : string :=
  match s with
  | EmptyString => EmptyString
  | String a rest =>
      if Ascii.eqb a "+" then String " " (decode rest)
      else if Ascii.eqb a "%" then
        match rest with
        | String h (String l rest') =>
            match unhex h, unhex l with
            | Some x, Some y => String (ascii_of_nat (16 * x + y)) (decode rest')
            | _, _ => String a (decode rest)
            end
        | _ => String a (decode rest)
        end
      else String a (decode rest)
  end.

Definition is_empty (s : string) : bool :=
  match s with EmptyString => true | _ => false end.

Definition parse (q : string) : t :=
  map (fun piece => let '(name, value) := cut_at "=" piece in
                    (decode name, decode value))
      (filter (fun piece => negb (is_empty piece)) (split_on "&" q)).
End URLSearchParams.

(** ** Timers *)

(** Delays are in milliseconds. *)

(** [setTimeout(task, delay)]: a fresh handle, the timer pending. *)
Definition setTimeout (task : Task) (delay : N) (c : Client) : nat * Client :=
  let id := next_timer c in
  let t := {| timer_id := id; timer_delay := delay; timer_task := task |} in
  (id, set_next_timer (S id) (set_timers (timers c ++ [t]) c)).

Definition without_timer (id : nat) (ts : list Timer) : list Timer :=
  filter (fun t => negb (timer_id t =? id)) ts.

(** [clearTimeout(handle)]; an [undefined] or stale handle clears nothing. *)
Definition clearTimeout (handle : option nat) (c : Client) : Client :=
  match handle with
  | None => c
  | Some id => set_timers (without_timer id (timers c)) c
  end.

(** ** The [realtime] object *)

(** How a block of statements ends: normally, or by throwing.  What was
    assigned before the throw stays assigned. *)
Inductive Completion :=
| Normal (c : Client)
| Throw (e : Exn) (c : Client).

(** The state a block leaves, however it ends.  An exception that leaves
    a listener or a timer callback ends that callback and nothing else:
    the platform reports it and goes on. *)
Definition after (k : Completion) : Client :=
  match k with Normal c | Throw _ c => c end.

Definition connect (c : Client) : Client :=
  let c := clearTimeout (timeout (realtime c)) c in
  let '(id, c) := setTimeout ConnectTask 50%N c in
  with_realtime (set_timeout (Some id)) c.

Definition getTimeout (c : Client) : N :=
  let attempts := reconnectAttempts (realtime c) in
  if attempts <? 5 then 1000%N
  else if attempts <? 15 then 5000%N
  else if attempts <? 100 then 10000%N
  else 60000%N.

(** The [URLSearchParams] object [createSocket] fills. *)
Definition socket_params (c : Client) : URLSearchParams.t :=
  fold_left (fun p channel => URLSearchParams.append "channels[]" channel p)
    (channels (realtime c))
    (URLSearchParams.set "project" (project c) URLSearchParams.empty).

Definition socket_url (c : Client) : string :=
  (endpointRealtime c ++ "/realtime?"
   ++ URLSearchParams.toString (socket_params c))%string.

Definition set_readyState (r : ReadyState) (ws : WebSocket) : WebSocket :=
  {| ws_id := ws_id ws; ws_url := ws_url ws; readyState := r;
     ws_sent := ws_sent ws |}.

(** [socket.close()]: starts the closing handshake of a socket that is
    connecting or open, does nothing otherwise. *)
Definition close (ws : WebSocket) : WebSocket :=
  match readyState ws with
  | CONNECTING | OPEN => set_readyState CLOSING ws
  | CLOSING | CLOSED => ws
  end.

(** [this.realtime.socket = new WebSocket(url)]: the constructor throws
    a [SyntaxError] on a URL the platform cannot parse, and nothing is
    assigned.  Otherwise the new socket is connecting; the one the field
    pointed to stays with the platform. *)
Definition new_WebSocket (u : string) (c : Client) : Completion :=
  if url_parses c then
    let ws := {| ws_id := next_socket c; ws_url := u;
                 readyState := CONNECTING; ws_sent := [] |} in
    let old := match socket (realtime c) with Some o => [o] | None => [] end in
    Normal (with_realtime (set_socket (Some ws))
              (set_next_socket (S (next_socket c))
                 (set_detached (detached c ++ old) c)))
  else Throw SyntaxError c.

(** [this.realtime.socket?.readyState > WebSocket.OPEN] *)
Definition closing_or_closed (s : option WebSocket) : bool :=
  match s with
  | Some ws => code_of OPEN <? code_of (readyState ws)
  | None => false
  end.

(** [this.realtime.socket && this.realtime.socket?.readyState < WebSocket.CLOSING] *)
Definition connecting_or_open (s : option WebSocket) : bool :=
  match s with
  | Some ws => code_of (readyState ws) <? code_of CLOSING
  | None => false
  end.

Definition no_socket (s : option WebSocket) : bool :=
  match s with Some _ => false | None => true end.

(** The outer condition of [createSocket]. *)
Definition must_open (u : string) (r : Realtime) : bool :=
  negb (String.eqb u (url r)) || no_socket (socket r)
  || closing_or_closed (socket r).

(** The three listeners [createSocket] adds are the same for every socket;
    the platform runs them through [step] below.  Nothing catches what
    the constructor throws: the flag, the closed socket and the stored
    URL stay as they were set before it. *)
Definition createSocket (c : Client) : Completion :=
  if JsSet.size (channels (realtime c)) <? 1 then Normal c
  else
    let u := socket_url c in
    if must_open u (realtime c) then
      let c :=
        if connecting_or_open (socket (realtime c)) then
          with_realtime
            (fun r => set_socket (option_map close (socket r))
                        (set_reconnect false r)) c
        else c in
      let c := with_realtime (set_url u) c in
      new_WebSocket u c
    else Normal c.

(** The [open] listener. *)
Definition onOpen (c : Client) : Client :=
  with_realtime (set_reconnectAttempts 0) c.

(** [lastMessage?.type === 'error' && lastMessage.data.code === 1008]:
    the value of the condition, or [None] when reading [code] throws a
    [TypeError], which it does off a message of kind [error] whose [data]
    is [null] or absent. *)
Definition policy_violation (m : option RealtimeResponse) : option bool :=
  match m with
  | Some msg =>
      match type msg with
      | error =>
          if has_data (data msg) then
            match data_code (data msg) with
            | Some code => Some (Z.eqb code 1008)
            | None => Some false
            end
          else None
      | _ => Some false
      end
  | None => Some false
  end.

Definition console_error (e : LogEntry) (c : Client) : Client :=
  set_console (console c ++ [e]) c.

(** The [close] listener.  With [reconnect] false the [||] stops before
    the message is looked at. *)
Definition onClose (c : Client) : Completion :=
  if negb (reconnect (realtime c))
  then Normal (with_realtime (set_reconnect true) c)
  else
    match policy_violation (lastMessage (realtime c)) with
    | None => Throw TypeError c
    | Some true => Normal (with_realtime (set_reconnect true) c)
    | Some false =>
        let timeout := getTimeout c in
        let c := console_error (Disconnected timeout) c in
        Normal (snd (setTimeout ReconnectTask timeout c))
    end.

Definition sent (request : RealtimeRequest) (ws : WebSocket) : WebSocket :=
  {| ws_id := ws_id ws; ws_url := ws_url ws; readyState := readyState ws;
     ws_sent := ws_sent ws ++ [request] |}.

(** [this.realtime.socket?.send(JSON.stringify(request))]: the platform
    throws on a connecting socket, transmits on an open one and drops the
    data of a closing or closed one. *)
Definition send (request : RealtimeRequest) (c : Client) : Completion :=
  match socket (realtime c) with
  | None => Normal c
  | Some ws =>
      match readyState ws with
      | CONNECTING => Throw InvalidStateError c
      | OPEN => Normal (with_realtime (set_socket (Some (sent request ws))) c)
      | CLOSING | CLOSED => Normal c
      end
  end.

(** [JSON.parse(window.localStorage.getItem('cookieFallback') ?? '{}')] *)
Definition parse_cookie (item : StoredItem) : option json :=
  match item with
  | Absent => Some (JObj [])
  | Garbled => None
  | Holds v => Some v
  end.

(** [cookie?.[`a_session_${this.config.project}`]] *)
Definition session_of (cookie : json) (proj : string) : option json :=
  get cookie ("a_session_" ++ proj)%string.

(** [!messageData.user], for a [data] that is there. *)
Definition no_user (d : ResponseData) : bool :=
  match data_user d with Some _ => false | None => true end.

(** [data.channels.some(channel => subscription.channels.includes(channel))] *)
Definition interested (chs : list string) (subscription : Subscription) : bool :=
  existsb (fun channel => includes (sub_channels subscription) channel) chs.

(** The body of the [forEach] of the [event] case, for one binding. *)
Definition notify (d : ResponseData) (chs : list string) (c : Client)
  (kv : nat * Subscription) : Client :=
  let subscription := snd kv in
  if interested chs subscription
  then snd (setTimeout (CallbackTask (sub_callback subscription) d) 0%N c)
  else c.

(** [this.realtime.subscriptions.forEach(...)] of the [event] case. *)
Definition dispatch (d : ResponseData) (chs : list string) (c : Client) : Client :=
  fold_left (notify d chs) (subscriptions (realtime c)) c.

(** The [try] block of [onMessage].  In [session && !messageData.user] the
    [&&] reads [user] only for a truthy session. *)
Definition onMessage_try (f : Frame) (c : Client) : Completion :=
  match f with
  | Unparsable => Throw SyntaxError c
  | Parsed message =>
      let c := with_realtime (set_lastMessage (Some message)) c in
      match type message with
      | connected =>
          match parse_cookie (cookieFallback c) with
          | None => Throw SyntaxError c
          | Some cookie =>
              let session := session_of cookie (project c) in
              match session with
              | Some s =>
                  if truthy s then
                    if has_data (data message) then
                      if no_user (data message)
                      then send (authentication s) c
                      else Normal c
                    else Throw TypeError c
                  else Normal c
              | None => Normal c
              end
          end
      | event =>
          match data_channels (data message) with
          | Some chs =>
              let isSubscribed :=
                existsb (fun channel => JsSet.has channel (channels (realtime c)))
                        chs in
              if negb isSubscribed then Normal c
              else Normal (dispatch (data message) chs c)
          | None => Normal c
          end
      | error => Throw (Thrown (data message)) c
      | response => Normal c
      end
  end.

(** [onMessage]: the [try] block with its [catch (e) { console.error(e) }]. *)
Definition onMessage (f : Frame) (c : Client) : Completion :=
  match onMessage_try f c with
  | Normal c' => Normal c'
  | Throw e c' => Normal (console_error (Logged e) c')
  end.

(** [some(([_key, subscription]) => subscription.channels.includes(channel))] *)
Definition found (channel : string) (m : JsMap.t Subscription) : bool :=
  existsb (fun kv => includes (sub_channels (snd kv)) channel) m.

(** The body of the [forEach] of [cleanUp], for one element of the set. *)
Definition cleanUp_visit (chs : list string) (r : Realtime) (channel : string)
  : Realtime :=
  if includes chs channel then
    if negb (found channel (subscriptions r))
    then set_channels (JsSet.delete channel (channels r)) r
    else r
  else r.

(** [cleanUp]: the [forEach] visits the elements the set holds when the call
    starts; deleting the element being visited hides no other element. *)
Definition cleanUp (chs : list string) (c : Client) : Client :=
  with_realtime (fun r => fold_left (cleanUp_visit chs) (channels r) r) c.

(** The argument [channels: string | string[]] of [subscribe]. *)
Inductive ChannelsArg :=
| One (channel : string)
| Many (chs : list string).

(** [typeof channels === 'string' ? [channels] : channels] *)
Definition channelArray (chs : ChannelsArg) : list string :=
  match chs with One s => [s] | Many l => l end.

Definition subscribe (chs : ChannelsArg) (callback : Callback) (c : Client)
  : Closure * Client :=
  let channelArray := channelArray chs in
  let c :=
    with_realtime
      (fun r => set_channels
                  (fold_left (fun s channel => JsSet.add channel s)
                             channelArray (channels r)) r) c in
  let counter := subscriptionsCounter (realtime c) in
  let c := with_realtime (set_subscriptionsCounter (S counter)) c in
  let c :=
    with_realtime
      (fun r => set_subscriptions
                  (JsMap.set counter
                     {| sub_channels := channelArray;
                        sub_callback := callback |}
                     (subscriptions r)) r) c in
  let c := connect c in
  ({| cl_counter := counter; cl_channels := channelArray |}, c).

(** The body of the closure [subscribe] returns. *)
Definition unsubscribe (cl : Closure) (c : Client) : Client :=
  let c :=
    with_realtime
      (fun r => set_subscriptions
                  (JsMap.delete (cl_counter cl) (subscriptions r)) r) c in
  let c := cleanUp (cl_channels cl) c in
  connect c.

(** ** Runs *)

(** What the caller and the platform do to a client.  [Unsubscribe k]
    invokes the closure the k-th [Subscribe] returned (counting from 0). *)
Inductive Input :=
| Subscribe (chs : ChannelsArg) (callback : Callback)
| Unsubscribe (k : nat)
| TimerFires (id : nat)
| SocketOpens (id : nat)
| SocketMessage (id : nat) (f : Frame)
| SocketCloses (id : nat).

Definition has_id (id : nat) (ws : WebSocket) : bool := ws_id ws =? id.

(** The socket object of that identity, wherever it is. *)
Definition find_socket (id : nat) (c : Client) : option WebSocket :=
  match socket (realtime c) with
  | Some ws =>
      if has_id id ws then Some ws else find (has_id id) (detached c)
  | None => find (has_id id) (detached c)
  end.

Fixpoint update_first (id : nat) (f : WebSocket -> WebSocket)
  (l : list WebSocket) : list WebSocket :=
  match l with
  | [] => []
  | ws :: rest =>
      if has_id id ws then f ws :: rest else ws :: update_first id f rest
  end.

(** The platform changes the object [find_socket] finds. *)
Definition update_socket (id : nat) (f : WebSocket -> WebSocket) (c : Client)
  : Client :=
  match socket (realtime c) with
  | Some ws =>
      if has_id id ws then with_realtime (set_socket (Some (f ws))) c
      else set_detached (update_first id f (detached c)) c
  | None => set_detached (update_first id f (detached c)) c
  end.

(** What a timer does when it fires. *)
Definition fire (t : Task) (c : Client) : Client :=
  match t with
  | ConnectTask => after (createSocket c)
  | ReconnectTask =>
      let c :=
        with_realtime
          (fun r => set_reconnectAttempts (S (reconnectAttempts r)) r) c in
      after (createSocket c)
  | CallbackTask cb d => set_invoked (invoked c ++ [(cb, d)]) c
  end.

(** Whether the event can happen now: a closure must have been returned, a
    timer must be pending, a socket opens only while connecting, receives
    only while open and closes only once. *)
Definition enabled (e : Input) (c : Client) : bool :=
  match e with
  | Subscribe _ _ => true
  | Unsubscribe k => k <? List.length (closures c)
  | TimerFires id => existsb (fun t => timer_id t =? id) (timers c)
  | SocketOpens id =>
      match find_socket id c with
      | Some ws => match readyState ws with CONNECTING => true | _ => false end
      | None => false
      end
  | SocketMessage id _ =>
      match find_socket id c with
      | Some ws => match readyState ws with OPEN => true | _ => false end
      | None => false
      end
  | SocketCloses id =>
      match find_socket id c with
      | Some ws => match readyState ws with CLOSED => false | _ => true end
      | None => false
      end
  end.

(** The effect of an event that can happen. *)
Definition occur (e : Input) (c : Client) : Client :=
  match e with
  | Subscribe chs callback =>
      let '(cl, c) := subscribe chs callback c in
      set_closures (closures c ++ [cl]) c
  | Unsubscribe k =>
      match nth_error (closures c) k with
      | Some cl => unsubscribe cl c
      | None => c
      end
  | TimerFires id =>
      match find (fun t => timer_id t =? id) (timers c) with
      | Some t => fire (timer_task t) (set_timers (without_timer id (timers c)) c)
      | None => c
      end
  | SocketOpens id => onOpen (update_socket id (set_readyState OPEN) c)
  | SocketMessage id f =>
      match onMessage f c with
      | Normal c' => c'
      | Throw _ c' => c'
      end
  | SocketCloses id =>
      after (onClose (update_socket id (set_readyState CLOSED) c))
  end.

(** An event that cannot happen now does not happen. *)
Definition step (e : Input) (c : Client) : Client :=
  if enabled e c then occur e c else c.

Definition run (es : list Input) (c : Client) : Client :=
  fold_left (fun c e => step e c) es c.

(** ** Vocabulary of the statements *)

(** Some subscription held in the map lists the channel. *)
Definition referenced (channel : string) (m : JsMap.t Subscription) : Prop :=
  exists k subscription,
    In (k, subscription) m /\ In channel (sub_channels subscription).

(** The element [channel] of the set is one [cleanUp chs] deletes. *)
Definition unreferenced (chs : list string) (m : JsMap.t Subscription)
  (channel : string) : bool :=
  includes chs channel && negb (found channel m).

(** The subscription state of [c'] is that of [c]. *)
Definition same_subscriptions (c c' : Client) : Prop :=
  channels (realtime c') = channels (realtime c)
  /\ subscriptions (realtime c') = subscriptions (realtime c)
  /\ subscriptionsCounter (realtime c') = subscriptionsCounter (realtime c)
  /\ closures c' = closures c.

(** What every run keeps true of the subscription state. *)
Record consistent (c : Client) : Prop := {
  channels_distinct : NoDup (channels (realtime c));
  channels_exact :
    forall channel,
      In channel (channels (realtime c))
      <-> referenced channel (subscriptions (realtime c));
  keys_below_counter :
    forall k, In k (JsMap.keys (subscriptions (realtime c))) ->
              k < subscriptionsCounter (realtime c);
  counter_counts_closures :
    subscriptionsCounter (realtime c) = List.length (closures c);
  closure_counters :
    forall k cl, nth_error (closures c) k = Some cl -> cl_counter cl = k;
  closure_channels :
    forall k subscription,
      In (k, subscription) (subscriptions (realtime c)) ->
      exists cl, nth_error (closures c) k = Some cl
                 /\ cl_channels cl = sub_channels subscription
}.

(** A handle that was given out and is no longer in the map. *)
Definition spent (k : nat) (c : Client) : Prop :=
  k < subscriptionsCounter (realtime c)
  /\ ~ In k (JsMap.keys (subscriptions (realtime c))).

(** The last message is of kind [error] and carries code 1008. *)
Definition is_error_1008 (m : option RealtimeResponse) : Prop :=
  exists message text,
    m = Some message /\ type message = error
    /\ data message = Error 1008 text.

(** The last message is of kind [error] and its [data] is [null] or
    absent. *)
Definition is_error_without_data (m : option RealtimeResponse) : Prop :=
  exists message,
    m = Some message /\ type message = error /\ data message = NoData.

(** The message of the latest frame the run [es] from [c] delivered and
    parsed; [m] when it delivered none. *)
Fixpoint latest_parsed (es : list Input) (c : Client)
  (m : option RealtimeResponse) : option RealtimeResponse :=
  match es with
  | [] => m
  | e :: es' =>
      let m' :=
        match e with
        | SocketMessage _ (Parsed message) =>
            if enabled e c then Some message else m
        | _ => m
        end in
      latest_parsed es' (step e c) m'
  end.

(** The inputs that are no close event. *)
Definition closes_nothing (e : Input) : bool :=
  match e with
  | SocketCloses _ => false
  | _ => true
  end.

(** The inputs that bring no frame that parses. *)
Definition brings_no_message (e : Input) : bool :=
  match e with
  | SocketMessage _ (Parsed _) => false
  | _ => true
  end.

(** Two channel lists share a channel. *)
Definition intersects (l1 l2 : list string) : bool :=
  existsb (fun x => if in_dec string_dec x l2 then true else false) l1.

(** A socket whose closing has started or ended. *)
Definition settled (ws : WebSocket) : Prop :=
  readyState ws = CLOSING \/ readyState ws = CLOSED.

(** Every socket [realtime.socket] has stopped pointing to is closing or
    closed. *)
Definition detached_settled (c : Client) : Prop :=
  Forall settled (detached c).

(** The session credential local storage holds for the project: the truthy
    member [a_session_<project>] of the stored object. *)
Definition stored_session (c : Client) : option json :=
  match cookieFallback c with
  | Holds (JObj members) =>
      match member ("a_session_" ++ project c)%string members with
      | Some s => if truthy s then Some s else None
      | None => None
      end
  | _ => None
  end.

(** The query of the URL [createSocket] computes, and the values of its
    [channels[]] parameters as a server reads them. *)
Definition socket_query (c : Client) : string :=
  URLSearchParams.toString (socket_params c).

Definition channel_parameters (q : string) : list string :=
  map snd (filter (fun nv => String.eqb (fst nv) "channels[]")
                  (URLSearchParams.parse q)).

(** The byte occurs in the string. *)
Fixpoint occurs (a : ascii) (s : string) : bool :=
  match s with
  | EmptyString => false
  | String b rest => Ascii.eqb b a || occurs a rest
  end.

(** The timer is one [connect] set. *)
Definition is_connect (t : Timer) : bool :=
  match timer_task t with ConnectTask => true | _ => false end.

(** What every run keeps true of the timers: handles are fresh and
    distinct, and the pending timer [realtime.timeout] names, and no
    other, is a 50 ms timer set by [connect]. *)
Record timers_tidy (c : Client) : Prop := {
  timer_ids_below : forall t, In t (timers c) -> timer_id t < next_timer c;
  timeout_below :
    forall id, timeout (realtime c) = Some id -> id < next_timer c;
  timer_ids_distinct : NoDup (map timer_id (timers c));
  connect_timer_named :
    forall t, In t (timers c) ->
              (is_connect t = true
               <-> timeout (realtime c) = Some (timer_id t));
  connect_timer_delay :
    forall t, In t (timers c) -> is_connect t = true -> timer_delay t = 50%N
}.

(** [c'] is [c] with timers added that [connect] did not set. *)
Definition plain_growth (c c' : Client) : Prop :=
  exists new,
    timers c' = timers c ++ new
    /\ timeout (realtime c') = timeout (realtime c)
    /\ next_timer c' = next_timer c + List.length new
    /\ map timer_id new = seq (next_timer c) (List.length new)
    /\ Forall (fun t => is_connect t = false) new.

(** Every socket object the platform knows of. *)
Definition sockets (c : Client) : list WebSocket :=
  detached c ++ match socket (realtime c) with Some ws => [ws] | None => [] end.

(** What every run keeps true of socket identities and of the stored
    URL; on a platform that cannot parse the client's URLs no socket is
    ever held. *)
Record sockets_tidy (c : Client) : Prop := {
  socket_ids_below :
    forall ws, In ws (sockets c) -> ws_id ws < next_socket c;
  socket_ids_distinct : NoDup (map ws_id (sockets c));
  held_socket_url :
    forall ws, socket (realtime c) = Some ws -> ws_url ws = url (realtime c);
  held_socket_parsed :
    url_parses c = false -> socket (realtime c) = None
}.

(** The number of reconnect timers the run [es] from [c] fired since a
    socket last opened in it, counting on from [n]. *)
Fixpoint attempts_since_open (es : list Input) (c : Client) (n : nat) : nat :=
  match es with
  | [] => n
  | e :: es' =>
      let n' :=
        if enabled e c then
          match e with
          | SocketOpens _ => 0
          | TimerFires id =>
              match find (fun t => timer_id t =? id) (timers c) with
              | Some t =>
                  match timer_task t with
                  | ReconnectTask => S n
                  | _ => n
                  end
              | None => n
              end
          | _ => n
          end
        else n in
      attempts_since_open es' (step e c) n'
  end.

(** [c'] has the sockets of [c], with the identities and URLs they had,
    the same stored URL and the same platform. *)
Definition same_identities (c c' : Client) : Prop :=
  map ws_id (sockets c') = map ws_id (sockets c)
  /\ next_socket c' = next_socket c
  /\ url (realtime c') = url (realtime c)
  /\ option_map ws_url (socket (realtime c'))
     = option_map ws_url (socket (realtime c))
  /\ url_parses c' = url_parses c.

(** * The rest of the client *)

(** ** JavaScript objects *)

(** An object with a value per property name, in the order [Object.keys]
    and [for...in] enumerate it: array indices first, ascending, then the
    other names in the order they were first written. *)
Module JsObject.

Definition is_digit (a : ascii) : bool :=
  (48 <=? nat_of_ascii a) && (nat_of_ascii a <=? 57).

Fixpoint digits (s : string) (acc : N) : option N :=
  match s with
  | EmptyString => Some acc
  | String a rest =>
      if is_digit a
      then digits rest (acc * 10 + (N.of_nat (nat_of_ascii a) - 48))%N
      else None
  end.

(** The array index a property name denotes: a canonical decimal numeral
    up to 2^32 - 2. *)
Definition array_index (k : string) : option N :=
  match k with
  | EmptyString => None
  | String a rest =>
      if Ascii.eqb a "0"
      then match rest with EmptyString => Some 0%N | _ => None end
      else
        match digits k 0 with
        | Some n => if (n <=? 4294967294)%N then Some n else None
        | None => None
        end
  end.

Section WithValue.
Context {V : Type}.

Definition t := list (string * V).
Definition empty : t := [].

(** [o[k]] *)
Fixpoint get (k : string) (o : t) : option V :=
  match o with
  | [] => None
  | (k', v) :: rest => if String.eqb k' k then Some v else get k rest
  end.

Definition has (k : string) (o : t) : bool :=
  existsb (fun kv => String.eqb (fst kv) k) o.

Definition overwrite (k : string) (v : V) (o : t) : t :=
  map (fun kv => if String.eqb (fst kv) k then (k, v) else kv) o.

Fixpoint insert_index (n : N) (k : string) (v : V) (o : t) : t :=
  match o with
  | [] => [(k, v)]
  | (k', v') :: rest =>
      match array_index k' with
      | Some m =>
          if (m <? n)%N then (k', v') :: insert_index n k v rest
          else (k, v) :: o
      | None => (k, v) :: o
      end
  end.

(** [o[k] = v] *)
Definition set (k : string) (v : V) (o : t) : t :=
  if has k o then overwrite k v o
  else
    match array_index k with
    | Some n => insert_index n k v o
    | None => o ++ [(k, v)]
    end.

(** [Object.assign(target, source)] *)
Definition assign (target source : t) : t :=
  fold_left (fun o kv => set (fst kv) (snd kv) o) source target.

Definition keys (o : t) : list string := map fst o.

End WithValue.
Arguments t : clear implicits.
End JsObject.

(** ** Configuration *)

(** [String.prototype.replace] with a string pattern and a replacement
    without [$]: the first occurrence is replaced. *)
Fixpoint drop (n : nat) (s : string) : string :=
  match n, s with
  | 0, _ => s
  | S n', String _ rest => drop n' rest
  | S _, EmptyString => EmptyString
  end.

Fixpoint replace (pattern replacement s : string) {struct s} : string :=
  if String.prefix pattern s
  then (replacement ++ drop (String.length pattern) s)%string
  else
    match s with
    | EmptyString => EmptyString
    | String a rest => String a (replace pattern replacement rest)
    end.

(** [config] and [headers] of [Client], with the setters. *)
Module Settings.

Record Config := {
  endpoint : string;
  endpointRealtime : string;
  project : string;
  jwt : string;
  locale : string
}.

Record t := {
  config : Config;
  headers : JsObject.t string
}.

Definition initial : t :=
  {| config :=
       {| endpoint := "https://HOSTNAME/v1"; endpointRealtime := "";
          project := ""; jwt := ""; locale := "" |};
     headers :=
       [("x-sdk-name", "Web"); ("x-sdk-platform", "client");
        ("x-sdk-language", "web"); ("x-sdk-version", "13.0.0");
        ("X-Appwrite-Response-Format", "1.4.0")] |}.

(** [a || b] on strings: the empty string is falsy. *)
Definition or_else (a b : string) : string :=
  match a with EmptyString => b | _ => a end.

(** The realtime endpoint [setEndpoint] derives. *)
Definition derived (e : string) : string :=
  replace "http://" "ws://" (replace "https://" "wss://" e).

Definition setEndpoint (e : string) (s : t) : t :=
  {| config :=
       {| endpoint := e;
          endpointRealtime := or_else (endpointRealtime (config s)) (derived e);
          project := project (config s); jwt := jwt (config s);
          locale := locale (config s) |};
     headers := headers s |}.

Definition setEndpointRealtime (e : string) (s : t) : t :=
  {| config :=
       {| endpoint := endpoint (config s); endpointRealtime := e;
          project := project (config s); jwt := jwt (config s);
          locale := locale (config s) |};
     headers := headers s |}.

Definition setProject (value : string) (s : t) : t :=
  {| config :=
       {| endpoint := endpoint (config s);
          endpointRealtime := endpointRealtime (config s);
          project := value; jwt := jwt (config s);
          locale := locale (config s) |};
     headers := JsObject.set "X-Appwrite-Project" value (headers s) |}.

Definition setJWT (value : string) (s : t) : t :=
  {| config :=
       {| endpoint := endpoint (config s);
          endpointRealtime := endpointRealtime (config s);
          project := project (config s); jwt := value;
          locale := locale (config s) |};
     headers := JsObject.set "X-Appwrite-JWT" value (headers s) |}.

Definition setLocale (value : string) (s : t) : t :=
  {| config :=
       {| endpoint := endpoint (config s);
          endpointRealtime := endpointRealtime (config s);
          project := project (config s); jwt := jwt (config s);
          locale := value |};
     headers := JsObject.set "X-Appwrite-Locale" value (headers s) |}.

(** A call of one of the setters. *)
Inductive Setter :=
| SetEndpoint (e : string)
| SetEndpointRealtime (e : string)
| SetProject (value : string)
| SetJWT (value : string)
| SetLocale (value : string).

Definition apply (call : Setter) (s : t) : t :=
  match call with
  | SetEndpoint e => setEndpoint e s
  | SetEndpointRealtime e => setEndpointRealtime e s
  | SetProject v => setProject v s
  | SetJWT v => setJWT v s
  | SetLocale v => setLocale v s
  end.

(** The chained calls [client.setX(...).setY(...)...]. *)
Definition chain (calls : list Setter) (s : t) : t :=
  fold_left (fun s call => apply call s) calls s.

Definition sets_realtime (call : Setter) : bool :=
  match call with SetEndpointRealtime _ => true | _ => false end.

(** The pattern occurs somewhere in the string. *)
Fixpoint occurs_in (pattern s : string) {struct s} : bool :=
  String.prefix pattern s
  || match s with
     | EmptyString => false
     | String _ rest => occurs_in pattern rest
     end.

(** The header and the configuration value agree: both unset, or the
    header holds the value. *)
Definition in_sync (header : option string) (value : string) : Prop :=
  (header = None /\ value = "") \/ header = Some value.

End Settings.

(** ** Payloads and [Service.flatten] *)

(** The decimal numeral of a count or of a byte offset. *)
Definition decimal (n : N) : string := NilEmpty.string_of_uint (N.to_uint n).

Module Service.
Section WithLeaf.
Context {L : Type}.

(** A property value: an array, which [flatten] opens, or anything else,
    which it copies. *)
#[local] Unset Elimination Schemes.
Inductive value : Type :=
| Leaf (v : L)
| Arr (items : list value).
#[local] Set Elimination Schemes.

(** [prefix ? `${prefix}[${key}]` : key] *)
Definition final_key (prefix key : string) : string :=
  match prefix with
  | EmptyString => key
  | _ => (prefix ++ "[" ++ key ++ "]")%string
  end.

(** One round of the [for (const key in data)] loop: [finalKey] is
    computed, [v] is [data[key]].  For an array the nested call starts
    from an empty object and visits the indices in order. *)
Fixpoint flatten_value (finalKey : string) (v : value) (output : JsObject.t L)
  : JsObject.t L :=
  match v with
  | Leaf l => JsObject.set finalKey l output
  | Arr items =>
      JsObject.assign output
        ((fix each (items : list value) (i : nat) (out : JsObject.t L)
            : JsObject.t L :=
            match items with
            | [] => out
            | x :: rest =>
                each rest (S i)
                  (flatten_value
                     (final_key finalKey (decimal (N.of_nat i))) x out)
            end) items 0 JsObject.empty)
  end.

(** [Service.flatten(data)] for an object [data], given by its properties
    in enumeration order. *)
Definition flatten (data : list (string * value)) : JsObject.t L :=
  fold_left
    (fun output kv => flatten_value (final_key "" (fst kv)) (snd kv) output)
    data JsObject.empty.

(** [Service.flatten(items, prefix)] for an array. *)
Fixpoint flatten_items (prefix : string) (items : list value) (i : nat)
  (out : JsObject.t L) : JsObject.t L :=
  match items with
  | [] => out
  | x :: rest =>
      flatten_items prefix rest (S i)
        (flatten_value (final_key prefix (decimal (N.of_nat i))) x out)
  end.

End WithLeaf.
Arguments value : clear implicits.
End Service.

(** ** [call] and [handleReponse] *)

(** A call is followed through what it leaves behind: the request it
    hands to the transport, the stored cookie and the settled promise.
    Its [console.log] lines leave none of these and are not modelled. *)

Module Http.

Inductive Error :=
| AppwriteException (message : string) (code : Z) (type response : string)
| OtherError (message : string).

(** [new AppwriteException(message)], with the constructor's defaults. *)
Definition exception (message : string) : Error :=
  AppwriteException message 0 "" "".

(** [un.get] and [un.post]. *)
Inductive Verb := un_get | un_post.

Section Call.
Context {D L : Type}.

(** [String.prototype.toUpperCase], and the message of the [TypeError]
    for reading a property of [undefined]: both are the platform's. *)
Variable toUpperCase : string -> string.
Variable type_error : string.

Record UnResponse := {
  data : D;
  headers : option (JsObject.t string)
}.

(** The options object passed to the transport. *)
Inductive Body :=
| with_params (searchParams : JsObject.t L)
| with_data (params : list (string * Service.value L))
| with_formData (params : list (string * Service.value L)).

Record Request := {
  verb : Verb;
  url : string;
  request_headers : JsObject.t string;
  body : Body
}.

(** What the awaited transport call does. *)
Inductive Outcome :=
| Responds (r : UnResponse)
| Fails (e : Error).

(** How the promise [call] returns settles. *)
Inductive Settled :=
| Resolved (value : option D)
| Rejected (e : Error).

(** What a call leaves: the request it made, if any, the [cookieFallback]
    item of the uni storage, and the settled promise. *)
Record Result := {
  sent : option Request;
  storage : option string;
  settled : Settled
}.

(** [uni.getStorageSync('cookieFallback') ?? ''] *)
Definition stored_cookie (stored : option string) : string :=
  match stored with Some v => v | None => "" end.

(** [headers = Object.assign({}, this.headers, headers)] followed by
    [headers['X-Fallback-Cookies'] = ...]. *)
Definition merged_headers (client_headers headers : JsObject.t string)
  (stored : option string) : JsObject.t string :=
  JsObject.set "X-Fallback-Cookies" (stored_cookie stored)
    (JsObject.assign (JsObject.assign JsObject.empty client_headers) headers).

(** [handleReponse]: the data, and the storage after it; reading a header
    of a response without headers throws. *)
Definition handleReponse (response : UnResponse) (stored : option string)
  : (D * option string) + Error :=
  match headers response with
  | None => inr (OtherError type_error)
  | Some h =>
      match JsObject.get "X-Fallback-Cookies" h with
      | Some (String a rest) => inl (data response, Some (String a rest))
      | _ => inl (data response, stored)
      end
  end.

(** The [catch] of [call]. *)
Definition rethrow (e : Error) : Error :=
  match e with
  | AppwriteException _ _ _ _ => e
  | OtherError message => exception message
  end.

(** The transport call of one branch with what follows it. *)
Definition attempt (answer : Request -> Outcome) (stored : option string)
  (q : Request) : Result :=
  match answer q with
  | Responds r =>
      match handleReponse r stored with
      | inl (d, stored') =>
          {| sent := Some q; storage := stored'; settled := Resolved (Some d) |}
      | inr e =>
          {| sent := Some q; storage := stored; settled := Rejected (rethrow e) |}
      end
  | Fails e =>
      {| sent := Some q; storage := stored; settled := Rejected (rethrow e) |}
  end.

(** [call(method, url, headers, params)] on a client with the headers
    [client_headers], with [stored] in the uni storage; [answer] is what
    the network does with the request. *)
Definition call (method url : string) (headers : JsObject.t string)
  (params : list (string * Service.value L))
  (client_headers : JsObject.t string) (stored : option string)
  (answer : Request -> Outcome) : Result :=
  let method := toUpperCase method in
  let headers := merged_headers client_headers headers stored in
  if String.eqb method "GET" then
    attempt answer stored
      {| verb := un_get; url := url; request_headers := headers;
         body := with_params
                   (JsObject.assign JsObject.empty (Service.flatten params)) |}
  else
    match JsObject.get "content-type" headers with
    | Some content_type =>
        if String.eqb content_type "application/json" then
          attempt answer stored
            {| verb := un_post; url := url; request_headers := headers;
               body := with_data params |}
        else if String.eqb content_type "multipart/form-data" then
          attempt answer stored
            {| verb := un_post; url := url; request_headers := headers;
               body := with_formData params |}
        else {| sent := None; storage := stored; settled := Resolved None |}
    | None => {| sent := None; storage := stored; settled := Resolved None |}
    end.

(** The non-empty [X-Fallback-Cookies] header of a response. *)
Definition cookie_of (o : Outcome) : option string :=
  match o with
  | Responds r =>
      match headers r with
      | Some h =>
          match JsObject.get "X-Fallback-Cookies" h with
          | Some (String a rest) => Some (String a rest)
          | _ => None
          end
      | None => None
      end
  | Fails _ => None
  end.

End Call.
End Http.

(** ** [urlAppendQueryParams] *)

(** [encodeURIComponent], byte by byte on the UTF-8 text: letters, digits
    and [- _ . ! ~ * ' ( )] stay, every other byte becomes [%HH]. *)
Definition unreserved (a : ascii) : bool :=
  let n := nat_of_ascii a in
  ((48 <=? n) && (n <=? 57)) || ((65 <=? n) && (n <=? 90))
  || ((97 <=? n) && (n <=? 122))
  || (n =? 45) || (n =? 95) || (n =? 46) || (n =? 33) || (n =? 126)
  || (n =? 42) || (n =? 39) || (n =? 40) || (n =? 41).

Fixpoint encodeURIComponent (s : string) : string :=
  match s with
  | EmptyString => EmptyString
  | String a rest =>
      let n := nat_of_ascii a in
      if unreserved a then String a (encodeURIComponent rest)
      else String "%" (String (URLSearchParams.hex_digit (n / 16))
                         (String (URLSearchParams.hex_digit (n mod 16))
                            (encodeURIComponent rest)))
  end.

Section UrlAppend.
Context {L : Type}.

(** The text a template literal or [encodeURIComponent] makes of a
    value: the platform's [ToString]. *)
Variable to_text : L -> string.

(** [`${encodeURIComponent(key)}=${encodeURIComponent(searchParams[key])}`] *)
Definition key_value_text (searchParams : JsObject.t L) (key : string)
  : string :=
  (encodeURIComponent key ++ "="
   ++ encodeURIComponent
        (match JsObject.get key searchParams with
         | Some v => to_text v
         | None => "undefined"
         end))%string.

(** The same text for a property given with its value. *)
Definition entry_text (kv : string * L) : string :=
  (encodeURIComponent (fst kv) ++ "="
   ++ encodeURIComponent (to_text (snd kv)))%string.

Definition queryString (params : list (string * Service.value L)) : string :=
  let searchParams :=
    JsObject.assign JsObject.empty (Service.flatten params) in
  String.concat "&"
    (map (key_value_text searchParams) (JsObject.keys searchParams)).

Definition urlAppendQueryParams (url : string)
  (params : list (string * Service.value L)) : string :=
  (url ++ "?" ++ queryString params)%string.

End UrlAppend.

(** ** Chunked upload *)

(** The requests and byte ranges of [Storage.createFile].  The source
    computes with JavaScript numbers; the natural numbers below are the
    same values as long as nothing exceeds 2^53, where doubles stop being
    exact.  [exact] says the size leaves room for that; beyond it the
    model says nothing. *)
Module Upload.

Definition CHUNK_SIZE : N := 5 * 1024 * 1024.

Definition exact (size : N) : bool :=
  (size + CHUNK_SIZE <=? 9007199254740992)%N.

(** [Math.ceil(size / Service.CHUNK_SIZE)] *)
Definition totalCounters (size : N) : N :=
  if (size mod CHUNK_SIZE =? 0)%N then (size / CHUNK_SIZE)%N
  else (size / CHUNK_SIZE + 1)%N.

(** [start] and [end] of one round of the loop. *)
Definition chunk_start (counter : N) : N := (counter * CHUNK_SIZE)%N.

Definition chunk_end (counter size : N) : N :=
  N.min (counter * CHUNK_SIZE + CHUNK_SIZE - 1) size.

(** [file.slice(start, end + 1)] holds the bytes from [start] up to, not
    including, this offset: [slice] stops at the end of the file. *)
Definition slice_stop (counter size : N) : N :=
  N.min (chunk_end counter size + 1) size.

(** The loop is reached, past [if (size <= Service.CHUNK_SIZE) return],
    and runs the round [counter]. *)
Definition in_loop (counter size : N) : bool :=
  (CHUNK_SIZE <? size)%N && (counter <? totalCounters size)%N.

(** [headers['content-range']] in the round [counter]; there is none
    for a round the loop does not run. *)
Definition content_range (counter size : N) : option string :=
  if exact size && in_loop counter size then
    Some ("bytes " ++ decimal (chunk_start counter) ++ "-"
          ++ decimal (chunk_end counter size) ++ "/" ++ decimal size)%string
  else None.




End Upload.

(** What every chain of setter calls keeps true of the headers. *)
Definition headers_in_sync (s : Settings.t) : Prop :=
  Settings.in_sync (JsObject.get "X-Appwrite-Project" (Settings.headers s))
                   (Settings.project (Settings.config s))
  /\ Settings.in_sync (JsObject.get "X-Appwrite-JWT" (Settings.headers s))
                      (Settings.jwt (Settings.config s))
  /\ Settings.in_sync (JsObject.get "X-Appwrite-Locale" (Settings.headers s))
                      (Settings.locale (Settings.config s))
  /\ JsObject.get "x-sdk-name" (Settings.headers s) = Some "Web"
  /\ JsObject.get "x-sdk-platform" (Settings.headers s) = Some "client"
  /\ JsObject.get "x-sdk-language" (Settings.headers s) = Some "web"
  /\ JsObject.get "x-sdk-version" (Settings.headers s) = Some "13.0.0"
  /\ JsObject.get "X-Appwrite-Response-Format" (Settings.headers s)
     = Some "1.4.0".

(** The writes [flatten] performs, in the order it performs them: each
    value that is not an array, with the name it is written under. *)
Section Writes.
Context {L : Type}.

Fixpoint writes_of (finalKey : string) (v : Service.value L)
  : list (string * L) :=
  match v with
  | Service.Leaf l => [(finalKey, l)]
  | Service.Arr items =>
      (fix each (items : list (Service.value L)) (i : nat)
         : list (string * L) :=
         match items with
         | [] => []
         | x :: rest =>
             writes_of (Service.final_key finalKey (decimal (N.of_nat i))) x
             ++ each rest (S i)
         end) items 0
  end.

Fixpoint writes_of_items (prefix : string) (items : list (Service.value L))
  (i : nat) : list (string * L) :=
  match items with
  | [] => []
  | x :: rest =>
      writes_of (Service.final_key prefix (decimal (N.of_nat i))) x
      ++ writes_of_items prefix rest (S i)
  end.

Definition writes (data : list (string * Service.value L))
  : list (string * L) :=
  flat_map (fun kv => writes_of (Service.final_key "" (fst kv)) (snd kv)) data.

(** The last value written under a name, if any. *)
Definition last_written (k : string) (ws : list (string * L)) : option L :=
  JsObject.get k (rev ws).

End Writes.

(** [String.prototype.toUpperCase] on ASCII text. *)
Definition upper_case (a : ascii) : ascii :=
  let n := nat_of_ascii a in
  if (97 <=? n) && (n <=? 122) then ascii_of_nat (n - 32) else a.

Fixpoint ascii_toUpperCase (s : string) : string :=
  match s with
  | EmptyString => EmptyString
  | String a rest => String (upper_case a) (ascii_toUpperCase rest)
  end.

(** Case analysis on the eight bits of a byte. *)
Ltac each_byte a := destruct a as [[] [] [] [] [] [] [] []].

(** The ways through [createSocket]: no channel; a socket to open, with
    or without one to close first, the URL accepted or not; nothing to
    open. *)
Ltac createSocket_cases c :=
  unfold createSocket, new_WebSocket;
  destruct (JsSet.size (channels (realtime c)) <? 1);
  [| destruct (must_open (socket_url c) (realtime c));
     [destruct (connecting_or_open (socket (realtime c))); simpl;
      destruct (url_parses c) |]];
  simpl.

(** The ways through the close listener. *)
Ltac onClose_cases c :=
  unfold onClose;
  destruct (negb (reconnect (realtime c)));
  [| destruct (policy_violation (lastMessage (realtime c))) as [[|] |]];
  simpl.

(** * Properties *)

(** ** Containers *)

Lemma includes_In (arr : list string) (x : string) :
  includes arr x = true <-> In x arr.
Proof.
  unfold includes. rewrite existsb_exists. split.
  - intros [y [Hy He]]. apply String.eqb_eq in He. now subst.
  - intro H. exists x. split; [assumption | apply String.eqb_refl].
Qed.

Lemma includes_false (arr : list string) (x : string) :
  includes arr x = false <-> ~ In x arr.
Proof.
  rewrite <- includes_In. destruct (includes arr x); split; congruence.
Qed.

Lemma has_In (x : string) (s : JsSet.t) : JsSet.has x s = true <-> In x s.
Proof. exact (includes_In s x). Qed.

Lemma add_In (x y : string) (s : JsSet.t) :
  In y (JsSet.add x s) <-> In y s \/ y = x.
Proof.
  unfold JsSet.add. destruct (JsSet.has x s) eqn:E.
  - apply has_In in E. split; [tauto | intros [H | ->]; assumption].
  - rewrite in_app_iff. simpl. intuition (subst; auto).
Qed.

Lemma add_NoDup (x : string) (s : JsSet.t) : NoDup s -> NoDup (JsSet.add x s).
Proof.
  intro H. unfold JsSet.add. destruct (JsSet.has x s) eqn:E; [assumption |].
  apply NoDup_app; [assumption | repeat constructor; simpl; tauto |].
  intros a Ha [<- | []].
  apply has_In in Ha. congruence.
Qed.

Lemma add_all_In (l : list string) :
  forall (s : JsSet.t) (y : string),
    In y (fold_left (fun s channel => JsSet.add channel s) l s)
    <-> In y s \/ In y l.
Proof.
  induction l as [| x l IH]; intros s y; simpl.
  - tauto.
  - rewrite IH, add_In. split; intros H; intuition auto.
Qed.

Lemma add_all_NoDup (l : list string) :
  forall s : JsSet.t,
    NoDup s -> NoDup (fold_left (fun s channel => JsSet.add channel s) l s).
Proof.
  induction l as [| x l IH]; intros s H; simpl; auto using add_NoDup.
Qed.

Lemma delete_In (x y : string) (s : JsSet.t) :
  In y (JsSet.delete x s) <-> In y s /\ y <> x.
Proof.
  unfold JsSet.delete. rewrite filter_In, negb_true_iff, String.eqb_neq.
  tauto.
Qed.

Lemma delete_NoDup (x : string) (s : JsSet.t) :
  NoDup s -> NoDup (JsSet.delete x s).
Proof. apply NoDup_filter. Qed.

Section MapFacts.
Context {V : Type}.
Implicit Types (m : JsMap.t V) (k : nat) (v : V).

Lemma map_has_keys k m : JsMap.has k m = true <-> In k (JsMap.keys m).
Proof.
  unfold JsMap.has, JsMap.keys. rewrite existsb_exists, in_map_iff.
  split; intros [kv [H1 H2]]; exists kv.
  - apply Nat.eqb_eq in H2. tauto.
  - rewrite Nat.eqb_eq. tauto.
Qed.

Lemma map_set_fresh k v m :
  ~ In k (JsMap.keys m) -> JsMap.set k v m = m ++ [(k, v)].
Proof.
  intro H. unfold JsMap.set. destruct (JsMap.has k m) eqn:E; [| reflexivity].
  apply map_has_keys in E. contradiction.
Qed.

Lemma map_delete_In k k' v m :
  In (k', v) (JsMap.delete k m) <-> In (k', v) m /\ k' <> k.
Proof.
  unfold JsMap.delete. rewrite filter_In, negb_true_iff, Nat.eqb_neq.
  simpl. tauto.
Qed.

Lemma map_delete_absent k m :
  ~ In k (JsMap.keys m) -> JsMap.delete k m = m.
Proof.
  unfold JsMap.delete, JsMap.keys. induction m as [| [k' v] m IH]; simpl.
  - reflexivity.
  - intro H. destruct (Nat.eqb_spec k' k) as [-> | Hne]; simpl.
    + tauto.
    + f_equal. apply IH. tauto.
Qed.

Lemma map_delete_keys k k' m :
  In k' (JsMap.keys (JsMap.delete k m)) <-> In k' (JsMap.keys m) /\ k' <> k.
Proof.
  unfold JsMap.keys. rewrite !in_map_iff. split.
  - intros [[a v] [<- H]]. apply map_delete_In in H. simpl.
    split; [exists (a, v) |]; tauto.
  - intros [[[a v] [<- H]] Hne]. exists (a, v). simpl in *.
    split; [reflexivity |]. apply map_delete_In. tauto.
Qed.
End MapFacts.

(** ** Subscription bookkeeping *)

Lemma found_referenced (channel : string) (m : JsMap.t Subscription) :
  found channel m = true <-> referenced channel m.
Proof.
  unfold found, referenced. rewrite existsb_exists. split.
  - intros [[k sub] [Hin Hinc]]. exists k, sub. simpl in Hinc.
    apply includes_In in Hinc. auto.
  - intros [k [sub [Hin Hc]]]. exists (k, sub). simpl.
    rewrite includes_In. auto.
Qed.

Lemma cleanUp_visits (chs : list string) :
  forall (snapshot : list string) (r : Realtime),
  exists s,
    fold_left (cleanUp_visit chs) snapshot r = set_channels s r
    /\ (forall y, In y s <->
                  In y (channels r)
                  /\ (In y snapshot ->
                      unreferenced chs (subscriptions r) y = false))
    /\ (NoDup (channels r) -> NoDup s).
Proof.
  induction snapshot as [| x snapshot IH]; intros r; simpl.
  - exists (channels r). split; [destruct r; reflexivity |].
    split; [tauto | auto].
  - assert (Hkeep : cleanUp_visit chs r x = r
                    /\ unreferenced chs (subscriptions r) x = false
                    \/ cleanUp_visit chs r x
                       = set_channels (JsSet.delete x (channels r)) r
                       /\ unreferenced chs (subscriptions r) x = true).
    { unfold cleanUp_visit, unreferenced.
      destruct (includes chs x); [| now left].
      destruct (found x (subscriptions r)); simpl; [now left | now right]. }
    destruct Hkeep as [[-> Hx] | [-> Hx]].
    + destruct (IH r) as [s [Hs [Hin Hnd]]]. exists s.
      split; [assumption |]. split; [| assumption].
      intro y. rewrite Hin. split; intros [H1 H2]; split; auto.
      intros [<- | H]; auto.
    + destruct (IH (set_channels (JsSet.delete x (channels r)) r))
        as [s [Hs [Hin Hnd]]].
      exists s. split; [rewrite Hs; reflexivity |]. simpl in Hin, Hnd.
      split; [| auto using delete_NoDup].
      intro y. rewrite Hin, delete_In. split.
      * intros [[H1 H2] H3]. split; [assumption |].
        intros [-> | H]; [congruence | auto].
      * intros [H1 H2]. split; [split; [assumption |] | auto].
        intros ->. rewrite H2 in Hx; [discriminate | now left].
Qed.

Lemma cleanUp_spec (chs : list string) (c : Client) :
  exists s,
    cleanUp chs c = with_realtime (set_channels s) c
    /\ (forall y, In y s <->
                  In y (channels (realtime c))
                  /\ unreferenced chs (subscriptions (realtime c)) y = false)
    /\ (NoDup (channels (realtime c)) -> NoDup s).
Proof.
  destruct (cleanUp_visits chs (channels (realtime c)) (realtime c))
    as [s [Hs [Hin Hnd]]].
  exists s. split; [| split; [| assumption]].
  - unfold cleanUp, with_realtime. now rewrite Hs.
  - intro y. rewrite Hin. tauto.
Qed.

(** Nothing is deleted when every channel of the set is still referenced. *)
Lemma cleanUp_nothing (chs : list string) (c : Client) :
  (forall y, In y (channels (realtime c)) ->
             referenced y (subscriptions (realtime c))) ->
  cleanUp chs c = c.
Proof.
  intro Href. unfold cleanUp.
  assert (H : forall snapshot r,
             (forall y, In y snapshot -> referenced y (subscriptions r)) ->
             fold_left (cleanUp_visit chs) snapshot r = r).
  { induction snapshot as [| x snapshot IH]; intros r Hr; simpl; [reflexivity |].
    assert (Hx : cleanUp_visit chs r x = r).
    { unfold cleanUp_visit. destruct (includes chs x); [| reflexivity].
      assert (Hf : found x (subscriptions r) = true)
        by (apply found_referenced, Hr; now left).
      now rewrite Hf. }
    rewrite Hx. apply IH. intros y Hy. apply Hr. now right. }
  unfold with_realtime. rewrite H by assumption.
  destruct c; reflexivity.
Qed.

(** Everything but [subscribe] and the returned closures leaves the
    subscription state alone. *)
Lemma same_subscriptions_refl (c : Client) : same_subscriptions c c.
Proof. repeat split. Qed.

Lemma same_subscriptions_trans (c1 c2 c3 : Client) :
  same_subscriptions c1 c2 -> same_subscriptions c2 c3 ->
  same_subscriptions c1 c3.
Proof.
  unfold same_subscriptions. intros (-> & -> & -> & ->) (-> & -> & -> & ->).
  repeat split.
Qed.

Lemma connect_same (c : Client) : same_subscriptions c (connect c).
Proof.
  unfold connect, clearTimeout, setTimeout.
  destruct (timeout (realtime c)); repeat split.
Qed.

Lemma createSocket_same (c : Client) :
  same_subscriptions c (after (createSocket c)).
Proof. createSocket_cases c; repeat split. Qed.

Lemma fire_same (t : Task) (c : Client) : same_subscriptions c (fire t c).
Proof.
  destruct t; simpl.
  - apply createSocket_same.
  - eapply same_subscriptions_trans; [| apply createSocket_same].
    repeat split.
  - repeat split.
Qed.

Lemma onClose_same (c : Client) : same_subscriptions c (after (onClose c)).
Proof. onClose_cases c; repeat split. Qed.

Lemma dispatch_same (d : ResponseData) (chs : list string) (c : Client) :
  same_subscriptions c (dispatch d chs c).
Proof.
  unfold dispatch. generalize (subscriptions (realtime c)) as subs.
  intro subs. revert c.
  induction subs as [| kv subs IH]; intro c; simpl.
  - apply same_subscriptions_refl.
  - eapply same_subscriptions_trans; [| apply IH].
    unfold notify. destruct (interested chs (snd kv)); repeat split.
Qed.

Lemma send_same (request : RealtimeRequest) (c : Client) :
  match send request c with
  | Normal c' | Throw _ c' => same_subscriptions c c'
  end.
Proof.
  unfold send. destruct (socket (realtime c)) as [ws |]; [| repeat split].
  destruct (readyState ws); repeat split.
Qed.

Lemma onMessage_try_same (f : Frame) (c : Client) :
  match onMessage_try f c with
  | Normal c' | Throw _ c' => same_subscriptions c c'
  end.
Proof.
  destruct f as [| message]; simpl; [repeat split |].
  destruct (type message).
  - repeat split.
  - destruct (data_channels (data message)) as [chs |]; [| repeat split].
    match goal with |- context [negb ?b] => destruct b end; simpl.
    + eapply same_subscriptions_trans; [| apply dispatch_same]. repeat split.
    + repeat split.
  - destruct (parse_cookie (cookieFallback c)) as [cookie |]; simpl;
      [| repeat split].
    destruct (session_of cookie (project c)) as [s |]; [| repeat split].
    destruct (truthy s); [| repeat split].
    destruct (has_data (data message)); [| repeat split].
    destruct (no_user (data message)); [| repeat split].
    match goal with
    | |- context [send ?q ?c0] =>
        pose proof (send_same q c0) as H; destruct (send q c0)
    end; (eapply same_subscriptions_trans; [| exact H]); repeat split.
  - repeat split.
Qed.

Lemma onMessage_same (f : Frame) (c : Client) :
  match onMessage f c with
  | Normal c' | Throw _ c' => same_subscriptions c c'
  end.
Proof.
  unfold onMessage. pose proof (onMessage_try_same f c) as H.
  destruct (onMessage_try f c); [assumption |].
  eapply same_subscriptions_trans; [exact H | repeat split].
Qed.

Lemma update_socket_same (id : nat) (f : WebSocket -> WebSocket) (c : Client) :
  same_subscriptions c (update_socket id f c).
Proof.
  unfold update_socket.
  destruct (socket (realtime c)) as [ws |]; [destruct (has_id id ws) |];
    repeat split.
Qed.

Lemma occur_same (e : Input) (c : Client) :
  match e with
  | Subscribe _ _ | Unsubscribe _ => True
  | _ => same_subscriptions c (occur e c)
  end.
Proof.
  destruct e as [| | id | id | id f | id]; simpl; auto.
  - destruct (find _ (timers c)) as [t |]; [| apply same_subscriptions_refl].
    eapply same_subscriptions_trans; [| apply fire_same]. repeat split.
  - eapply same_subscriptions_trans; [apply update_socket_same |].
    repeat split.
  - pose proof (onMessage_same f c) as H. now destruct (onMessage f c).
  - eapply same_subscriptions_trans;
      [apply update_socket_same | apply onClose_same].
Qed.

Lemma consistent_same (c c' : Client) :
  same_subscriptions c c' -> consistent c -> consistent c'.
Proof.
  intros (Hc & Hs & Hn & Hcl) [H1 H2 H3 H4 H5 H6].
  split; rewrite ?Hc, ?Hs, ?Hn, ?Hcl; assumption.
Qed.

Lemma subscribe_view (chs : ChannelsArg) (callback : Callback) (c : Client) :
  let c' := occur (Subscribe chs callback) c in
  let counter := subscriptionsCounter (realtime c) in
  channels (realtime c')
  = fold_left (fun s channel => JsSet.add channel s) (channelArray chs)
              (channels (realtime c))
  /\ subscriptions (realtime c')
     = JsMap.set counter
         {| sub_channels := channelArray chs; sub_callback := callback |}
         (subscriptions (realtime c))
  /\ subscriptionsCounter (realtime c') = S counter
  /\ closures c'
     = closures c ++ [{| cl_counter := counter;
                         cl_channels := channelArray chs |}].
Proof.
  simpl. unfold subscribe, connect, clearTimeout, setTimeout. simpl.
  destruct (timeout (realtime c)); repeat split.
Qed.

Lemma unsubscribe_view (cl : Closure) (c : Client) :
  let c' := unsubscribe cl c in
  let remaining := JsMap.delete (cl_counter cl) (subscriptions (realtime c)) in
  subscriptions (realtime c') = remaining
  /\ subscriptionsCounter (realtime c') = subscriptionsCounter (realtime c)
  /\ closures c' = closures c
  /\ (forall y, In y (channels (realtime c')) <->
                In y (channels (realtime c))
                /\ unreferenced (cl_channels cl) remaining y = false)
  /\ (NoDup (channels (realtime c)) -> NoDup (channels (realtime c'))).
Proof.
  intros c' remaining. subst c'. unfold unsubscribe.
  match goal with |- context [cleanUp ?l ?c0] =>
    destruct (cleanUp_spec l c0) as [s [Hs [Hin Hnd]]];
    pose proof (connect_same (cleanUp l c0)) as (Hc & Hsub & Hn & Hcl)
  end.
  rewrite Hc, Hsub, Hn, Hcl, Hs. simpl in *.
  repeat split; try apply Hin; auto.
Qed.

Lemma referenced_app (channel : string) (m1 m2 : JsMap.t Subscription) :
  referenced channel (m1 ++ m2)
  <-> referenced channel m1 \/ referenced channel m2.
Proof.
  unfold referenced. split.
  - intros (k & sub & Hin & Hc). apply in_app_iff in Hin.
    destruct Hin; [left | right]; eauto.
  - intros [(k & sub & Hin & Hc) | (k & sub & Hin & Hc)];
      exists k, sub; rewrite in_app_iff; auto.
Qed.

Lemma subscribe_consistent (chs : ChannelsArg) (callback : Callback)
  (c : Client) :
  consistent c -> consistent (occur (Subscribe chs callback) c).
Proof.
  intros [H1 H2 H3 H4 H5 H6].
  destruct (subscribe_view chs callback c) as (Hc & Hs & Hn & Hcl).
  rewrite map_set_fresh in Hs
    by (intro Hk; apply H3 in Hk; lia).
  split; rewrite ?Hc, ?Hs, ?Hn, ?Hcl.
  - now apply add_all_NoDup.
  - intro y. rewrite add_all_In, referenced_app, H2.
    apply or_iff_compat_l. unfold referenced. simpl. split.
    + intro Hy. eexists _, _. split; [left; reflexivity | exact Hy].
    + intros (k & sub & [Heq | []] & Hy). inversion Heq; subst. exact Hy.
  - intro k. unfold JsMap.keys. rewrite map_app, in_app_iff. simpl.
    intros [Hk | [<- | []]]; [apply H3 in Hk |]; lia.
  - rewrite length_app. simpl. lia.
  - intros k cl Hk.
    destruct (Nat.lt_ge_cases k (List.length (closures c))) as [Hlt | Hge].
    + rewrite nth_error_app1 in Hk by assumption. eauto.
    + rewrite nth_error_app2 in Hk by assumption.
      destruct (k - List.length (closures c)) as [| n] eqn:E; simpl in Hk.
      * inversion Hk; subst; simpl. lia.
      * destruct n; discriminate.
  - intros k sub Hin. apply in_app_iff in Hin. destruct Hin as [Hin | Hin].
    + destruct (H6 k sub Hin) as (cl & Hnth & Hch). exists cl.
      split; [| assumption].
      rewrite nth_error_app1; [assumption |].
      apply nth_error_Some. congruence.
    + destruct Hin as [Heq | []]. inversion Heq; subst. eexists.
      rewrite nth_error_app2 by lia. rewrite H4, Nat.sub_diag. simpl.
      split; reflexivity.
Qed.

Lemma unsubscribe_consistent (k : nat) (c : Client) :
  consistent c -> consistent (occur (Unsubscribe k) c).
Proof.
  intros [H1 H2 H3 H4 H5 H6]. simpl.
  destruct (nth_error (closures c) k) as [cl |] eqn:Hnth;
    [| now split].
  destruct (unsubscribe_view cl c) as (Hs & Hn & Hcl & Hin & Hnd).
  assert (Hk : cl_counter cl = k) by eauto. rewrite Hk in *.
  split; rewrite ?Hs, ?Hn, ?Hcl; auto.
  - intro y. rewrite Hin. unfold unreferenced. split.
    + intros [Hy Hu]. apply andb_false_iff in Hu. destruct Hu as [Hu | Hu].
      * apply H2 in Hy. destruct Hy as (k' & sub & Hsub & Hy).
        exists k', sub. split; [| assumption].
        apply map_delete_In. split; [assumption |]. intros ->.
        destruct (H6 k sub Hsub) as (cl' & Hnth' & Hch).
        rewrite Hnth in Hnth'. inversion Hnth'; subst cl'.
        apply includes_false in Hu. apply Hu. now rewrite Hch.
      * apply negb_false_iff in Hu. now apply found_referenced.
    + intros Hr. split.
      * apply H2. destruct Hr as (k' & sub & Hsub & Hy).
        apply map_delete_In in Hsub. exists k', sub. tauto.
      * apply found_referenced in Hr. rewrite Hr. apply andb_false_r.
  - intros k' Hk'. apply map_delete_keys in Hk'. apply H3. tauto.
  - intros k' sub Hsub. apply map_delete_In in Hsub. apply H6. tauto.
Qed.

Lemma fresh_consistent (endpoint proj : string) (item : StoredItem)
  (parses : bool) :
  consistent (fresh endpoint proj item parses).
Proof.
  split; simpl.
  - constructor.
  - intro y. split; [tauto | intros (k & sub & [] & _)].
  - tauto.
  - reflexivity.
  - intros [| k] cl; discriminate.
  - tauto.
Qed.

Lemma step_consistent (e : Input) (c : Client) :
  consistent c -> consistent (step e c).
Proof.
  intro H. unfold step. destruct (enabled e c); [| assumption].
  pose proof (occur_same e c) as Hsame.
  destruct e; try (eapply consistent_same; eassumption).
  - now apply subscribe_consistent.
  - now apply unsubscribe_consistent.
Qed.

Lemma run_consistent (es : list Input) :
  forall c, consistent c -> consistent (run es c).
Proof.
  induction es as [| e es IH]; intros c H; simpl; auto using step_consistent.
Qed.

(** C1: after any run from a fresh client the channel set holds exactly
    the channels listed by the subscriptions the map still holds, each
    once: none is missing and none is left over. *)
Theorem channel_set_is_union_of_live_subscriptions
  (endpoint proj : string) (item : StoredItem) (parses : bool)
  (es : list Input) :
  let c := run es (fresh endpoint proj item parses) in
  NoDup (channels (realtime c))
  /\ forall channel,
       In channel (channels (realtime c))
       <-> exists k subscription,
             In (k, subscription) (subscriptions (realtime c))
             /\ In channel (sub_channels subscription).
Proof.
  destruct (run_consistent es _ (fresh_consistent endpoint proj item parses))
    as [H1 H2 _ _ _ _].
  split; [exact H1 | exact H2].
Qed.

(** ** The second call of an unsubscribe closure *)

Lemma step_spent (k : nat) (e : Input) (c : Client) :
  consistent c -> spent k c -> spent k (step e c).
Proof.
  intros Hc [Hlt Habs]. unfold step.
  destruct (enabled e c); [| now split].
  pose proof (occur_same e c) as Hsame.
  destruct e as [chs cb | k' | | | |];
    try (destruct Hsame as (_ & Hs & Hn & _); unfold spent;
         rewrite Hs, Hn; now split).
  - destruct (subscribe_view chs cb c) as (_ & Hs & Hn & _).
    rewrite map_set_fresh in Hs
      by (intro Hk; apply (keys_below_counter c Hc) in Hk; lia).
    unfold spent. rewrite Hs, Hn. split; [lia |].
    unfold JsMap.keys. rewrite map_app, in_app_iff. simpl.
    intros [H | [H | []]]; [now apply Habs | lia].
  - simpl. destruct (nth_error (closures c) k') as [cl |]; [| now split].
    destruct (unsubscribe_view cl c) as (Hs & Hn & _).
    unfold spent. rewrite Hs, Hn. split; [assumption |].
    intro H. apply map_delete_keys in H. tauto.
Qed.

Lemma run_spent (k : nat) (es : list Input) :
  forall c, consistent c -> spent k c ->
            consistent (run es c) /\ spent k (run es c).
Proof.
  induction es as [| e es IH]; intros c Hc Hs; simpl; [now split |].
  apply IH; auto using step_consistent, step_spent.
Qed.

Lemma unsubscribe_spends (k : nat) (c : Client) :
  consistent c -> enabled (Unsubscribe k) c = true ->
  spent k (step (Unsubscribe k) c).
Proof.
  intros Hc Hen. unfold step. rewrite Hen. simpl in *.
  apply Nat.ltb_lt in Hen.
  destruct (nth_error (closures c) k) as [cl |] eqn:Hnth.
  - destruct (unsubscribe_view cl c) as (Hs & Hn & _).
    unfold spent. rewrite Hs, Hn.
    rewrite (closure_counters c Hc k cl Hnth).
    split; [rewrite (counter_counts_closures c Hc); assumption |].
    intro H. apply map_delete_keys in H. tauto.
  - apply nth_error_None in Hnth. lia.
Qed.

Lemma unsubscribe_spent (k : nat) (c : Client) :
  consistent c -> spent k c ->
  let c' := step (Unsubscribe k) c in
  subscriptions (realtime c') = subscriptions (realtime c)
  /\ channels (realtime c') = channels (realtime c).
Proof.
  intros Hc [Hlt Habs]. unfold step.
  destruct (enabled (Unsubscribe k) c); [| now split]. simpl.
  destruct (nth_error (closures c) k) as [cl |] eqn:Hnth; [| now split].
  rewrite <- (closure_counters c Hc k cl Hnth) in Habs.
  unfold unsubscribe.
  match goal with |- context [cleanUp ?l ?c0] =>
    assert (Hclean : cleanUp l c0 = c0);
    [| pose proof (connect_same (cleanUp l c0)) as (Hch & Hsub & _) ]
  end.
  - apply cleanUp_nothing. simpl. rewrite map_delete_absent by assumption.
    intros y Hy. now apply (channels_exact c Hc).
  - rewrite Hch, Hsub, Hclean. simpl.
    rewrite map_delete_absent by assumption. now split.
Qed.

(** C8: once the closure returned by the k-th [subscribe] has been
    invoked, invoking it again, after whatever else happened in between,
    leaves the subscriptions map and the channel set as they were just
    before that second invocation. *)
Theorem second_unsubscribe_changes_nothing
  (endpoint proj : string) (item : StoredItem) (parses : bool)
  (before between : list Input) (k : nat) :
  enabled (Unsubscribe k) (run before (fresh endpoint proj item parses))
  = true ->
  let c := run (before ++ Unsubscribe k :: between)
               (fresh endpoint proj item parses) in
  let c' := step (Unsubscribe k) c in
  subscriptions (realtime c') = subscriptions (realtime c)
  /\ channels (realtime c') = channels (realtime c).
Proof.
  intros Hen c. subst c. unfold run. rewrite fold_left_app. simpl.
  fold (run before (fresh endpoint proj item parses)).
  set (c1 := run before (fresh endpoint proj item parses)) in *.
  assert (Hc1 : consistent c1)
    by (apply run_consistent, fresh_consistent).
  fold (run between (step (Unsubscribe k) c1)).
  destruct (run_spent k between (step (Unsubscribe k) c1))
    as [Hc Hs]; auto using step_consistent, unsubscribe_spends.
  now apply unsubscribe_spent.
Qed.

(** The theorem at a run where the closure of the first subscription is
    invoked, a second subscription sharing its channel is made, and the
    closure is invoked again. *)
Lemma second_unsubscribe_changes_nothing_witness :
  let c := run ([Subscribe (One "files") 1] ++ Unsubscribe 0
                  :: [Subscribe (Many ["files"; "account"]) 2])
               (fresh "wss://host/v1" "p" Absent true) in
  let c' := step (Unsubscribe 0) c in
  subscriptions (realtime c') = subscriptions (realtime c)
  /\ channels (realtime c') = channels (realtime c).
Proof.
  apply (second_unsubscribe_changes_nothing
           "wss://host/v1" "p" Absent true [Subscribe (One "files") 1]
           [Subscribe (Many ["files"; "account"]) 2] 0).
  reflexivity.
Defined.

(** ** Backoff *)

(** C5: the delay is 1000 ms for 0 to 4 attempts, 5000 ms for 5 to 14,
    10000 ms for 15 to 99 and 60000 ms from 100 attempts on. *)
Theorem getTimeout_tiers (c : Client) :
  let attempts := reconnectAttempts (realtime c) in
  (attempts <= 4 -> getTimeout c = 1000%N)
  /\ (5 <= attempts <= 14 -> getTimeout c = 5000%N)
  /\ (15 <= attempts <= 99 -> getTimeout c = 10000%N)
  /\ (100 <= attempts -> getTimeout c = 60000%N).
Proof.
  unfold getTimeout. cbv zeta.
  destruct (Nat.ltb_spec (reconnectAttempts (realtime c)) 5);
    destruct (Nat.ltb_spec (reconnectAttempts (realtime c)) 15);
    destruct (Nat.ltb_spec (reconnectAttempts (realtime c)) 100);
    repeat split; intros; solve [reflexivity | lia].
Qed.

(** ** The last message *)

Lemma createSocket_lastMessage (c : Client) :
  lastMessage (realtime (after (createSocket c))) = lastMessage (realtime c).
Proof.
  createSocket_cases c; reflexivity.
Qed.

Lemma connect_lastMessage (c : Client) :
  lastMessage (realtime (connect c)) = lastMessage (realtime c).
Proof.
  unfold connect, clearTimeout, setTimeout.
  destruct (timeout (realtime c)); reflexivity.
Qed.

Lemma onClose_lastMessage (c : Client) :
  lastMessage (realtime (after (onClose c))) = lastMessage (realtime c).
Proof.
  onClose_cases c; reflexivity.
Qed.

Lemma update_socket_lastMessage (id : nat) (f : WebSocket -> WebSocket)
  (c : Client) :
  lastMessage (realtime (update_socket id f c)) = lastMessage (realtime c).
Proof.
  unfold update_socket.
  destruct (socket (realtime c)) as [ws |]; [destruct (has_id id ws) |];
    reflexivity.
Qed.

Lemma dispatch_lastMessage (d : ResponseData) (chs : list string) (c : Client) :
  lastMessage (realtime (dispatch d chs c)) = lastMessage (realtime c).
Proof.
  unfold dispatch. generalize (subscriptions (realtime c)) as subs.
  intro subs. revert c.
  induction subs as [| kv subs IH]; intro c; simpl; [reflexivity |].
  rewrite IH. unfold notify. destruct (interested chs (snd kv)); reflexivity.
Qed.

(** A frame that parses becomes the last message, whatever the handler
    does next. *)
Lemma onMessage_lastMessage (message : RealtimeResponse) (c : Client) :
  match onMessage (Parsed message) c with
  | Normal c' | Throw _ c' => lastMessage (realtime c') = Some message
  end.
Proof.
  unfold onMessage. simpl. destruct (type message); simpl; try reflexivity.
  - destruct (data_channels (data message)) as [chs |]; [| reflexivity].
    match goal with |- context [negb ?b] => destruct b end; simpl;
      [| reflexivity].
    now rewrite dispatch_lastMessage.
  - destruct (parse_cookie (cookieFallback c)) as [cookie |];
      [| reflexivity].
    destruct (session_of cookie (project c)) as [s |]; [| reflexivity].
    destruct (truthy s); [| reflexivity].
    destruct (has_data (data message)); [| reflexivity].
    destruct (no_user (data message)); [| reflexivity].
    unfold send. simpl.
    destruct (socket (realtime c)) as [ws |]; [| reflexivity].
    destruct (readyState ws); reflexivity.
Qed.

Lemma step_lastMessage (e : Input) (c : Client) :
  lastMessage (realtime (step e c))
  = match e with
    | SocketMessage _ (Parsed message) =>
        if enabled e c then Some message else lastMessage (realtime c)
    | _ => lastMessage (realtime c)
    end.
Proof.
  unfold step. destruct e as [chs cb | k | id | id | id f | id].
  - simpl. unfold subscribe, connect, clearTimeout, setTimeout. simpl.
    destruct (timeout (realtime c)); reflexivity.
  - destruct (enabled (Unsubscribe k) c); [| reflexivity]. simpl.
    destruct (nth_error (closures c) k) as [cl |]; [| reflexivity].
    unfold unsubscribe. rewrite connect_lastMessage.
    match goal with |- context [cleanUp ?l ?c0] =>
      destruct (cleanUp_spec l c0) as [s [-> _]]
    end.
    reflexivity.
  - destruct (enabled (TimerFires id) c); [| reflexivity]. simpl.
    destruct (find _ (timers c)) as [t |]; [| reflexivity].
    destruct (timer_task t); simpl; rewrite ?createSocket_lastMessage;
      reflexivity.
  - destruct (enabled (SocketOpens id) c); [| reflexivity]. simpl.
    now rewrite update_socket_lastMessage.
  - destruct f as [| message].
    + destruct (enabled _ c); reflexivity.
    + destruct (enabled _ c); [| reflexivity]. simpl.
      pose proof (onMessage_lastMessage message c) as H.
      now destruct (onMessage (Parsed message) c).
  - destruct (enabled (SocketCloses id) c); [| reflexivity]. simpl.
    now rewrite onClose_lastMessage, update_socket_lastMessage.
Qed.

(** [lastMessage] is the message of the latest frame that was delivered
    and parsed. *)
Lemma lastMessage_latest (es : list Input) :
  forall c,
    lastMessage (realtime (run es c))
    = latest_parsed es c (lastMessage (realtime c)).
Proof.
  induction es as [| e es IH]; intro c; simpl; [reflexivity |].
  rewrite IH, step_lastMessage.
  destruct e as [| | | | id [| message] |]; reflexivity.
Qed.

Lemma run_keeps_lastMessage (es : list Input) :
  forallb brings_no_message es = true ->
  forall c, lastMessage (realtime (run es c)) = lastMessage (realtime c).
Proof.
  induction es as [| e es IH]; intros H c; simpl; [reflexivity |].
  simpl in H. apply andb_true_iff in H. destruct H as [He Hes].
  rewrite IH, step_lastMessage by assumption.
  destruct e as [| | | | id [| message] |]; try reflexivity. discriminate.
Qed.

Lemma policy_violation_spec (m : option RealtimeResponse) :
  policy_violation m = Some true <-> is_error_1008 m.
Proof.
  unfold policy_violation, is_error_1008. split.
  - destruct m as [[ty d] |]; [| discriminate]. simpl.
    destruct ty; try discriminate.
    destruct d as [| | code text | |]; try discriminate. simpl.
    intro H. inversion H as [H']. apply Z.eqb_eq in H'. subst.
    now exists {| type := error; data := Error 1008 text |}, text.
  - intros (message & text & -> & Hty & Hd). now rewrite Hty, Hd.
Qed.

Lemma policy_violation_throws (m : option RealtimeResponse) :
  policy_violation m = None <-> is_error_without_data m.
Proof.
  unfold policy_violation, is_error_without_data. split.
  - destruct m as [[ty d] |]; [| discriminate]. simpl.
    destruct ty; try discriminate.
    destruct d as [| | code text | |]; try discriminate.
    intros _. now exists {| type := error; data := NoData |}.
  - intros (message & -> & Hty & Hd). now rewrite Hty, Hd.
Qed.

(** ** The close listener *)

Lemma createSocket_reconnectAttempts (c : Client) :
  reconnectAttempts (realtime (after (createSocket c)))
  = reconnectAttempts (realtime c).
Proof.
  createSocket_cases c; reflexivity.
Qed.

(** The platform marking a socket closed touches nothing the listener
    reads. *)
Lemma update_socket_frame (id : nat) (f : WebSocket -> WebSocket) (c : Client) :
  let c' := update_socket id f c in
  timers c' = timers c /\ next_timer c' = next_timer c
  /\ reconnect (realtime c') = reconnect (realtime c)
  /\ reconnectAttempts (realtime c') = reconnectAttempts (realtime c)
  /\ lastMessage (realtime c') = lastMessage (realtime c).
Proof.
  unfold update_socket.
  destruct (socket (realtime c)) as [ws |]; [destruct (has_id id ws) |];
    repeat split.
Qed.

Lemma onClose_suppressed (c : Client) :
  policy_violation (lastMessage (realtime c)) = Some true ->
  timers (after (onClose c)) = timers c.
Proof.
  intro H. unfold onClose. rewrite H.
  now destruct (negb (reconnect (realtime c))).
Qed.

Lemma onClose_schedules (c : Client) :
  reconnect (realtime c) = true ->
  policy_violation (lastMessage (realtime c)) = Some false ->
  timers (after (onClose c))
  = timers c ++ [{| timer_id := next_timer c; timer_delay := getTimeout c;
                    timer_task := ReconnectTask |}].
Proof.
  intros Hr Hp. unfold onClose. rewrite Hr, Hp. reflexivity.
Qed.

Lemma onClose_throws (c : Client) :
  reconnect (realtime c) = true ->
  policy_violation (lastMessage (realtime c)) = None ->
  onClose c = Throw TypeError c.
Proof.
  intros Hr Hp. unfold onClose. rewrite Hr, Hp. reflexivity.
Qed.

(** C2, amended: a close event that arrives while [reconnect] is true
    schedules no timer when the latest parsed message is an [error] with
    code 1008.  When that message is an [error] whose [data] is [null]
    or absent, the listener throws a [TypeError] on reading the code and
    leaves everything as it was: no timer is scheduled.  In every other
    case it schedules exactly one timer, with the delay [getTimeout]
    gives for the current attempt count; when that timer fires the
    attempt count goes up by one and [createSocket] runs. *)
Theorem close_reconnects_unless_policy_violation
  (endpoint proj : string) (item : StoredItem) (parses : bool)
  (es : list Input) (id : nat) :
  let c := run es (fresh endpoint proj item parses) in
  enabled (SocketCloses id) c = true ->
  reconnect (realtime c) = true ->
  let closed := update_socket id (set_readyState CLOSED) c in
  let c' := step (SocketCloses id) c in
  let last := latest_parsed es (fresh endpoint proj item parses) None in
  (is_error_1008 last -> timers c' = timers c)
  /\ (is_error_without_data last ->
      onClose closed = Throw TypeError closed
      /\ c' = closed
      /\ timers c' = timers c)
  /\ (~ is_error_1008 last -> ~ is_error_without_data last ->
      exists t,
        timers c' = timers c ++ [t]
        /\ timer_delay t = getTimeout c
        /\ forall c2,
             let c3 := fire (timer_task t) c2 in
             c3 = after
                    (createSocket
                       (with_realtime
                          (fun r => set_reconnectAttempts
                                      (S (reconnectAttempts r)) r) c2))
             /\ reconnectAttempts (realtime c3)
                = S (reconnectAttempts (realtime c2))).
Proof.
  intros c Hen Hre closed c' last. subst c' last closed.
  unfold step. rewrite Hen. simpl.
  replace (latest_parsed es (fresh endpoint proj item parses) None)
    with (lastMessage (realtime c))
    by (subst c; now rewrite lastMessage_latest).
  destruct (update_socket_frame id (set_readyState CLOSED) c)
    as (Ht & Hn & Hr & Ha & Hl).
  rewrite <- policy_violation_spec, <- policy_violation_throws.
  split; [| split].
  - intro Hp. rewrite onClose_suppressed by (now rewrite Hl). exact Ht.
  - intro Hp.
    rewrite onClose_throws by (now rewrite ?Hl, ?Hr).
    repeat split. exact Ht.
  - intros Hp Hq.
    assert (Hf : policy_violation (lastMessage (realtime c)) = Some false).
    { destruct (policy_violation (lastMessage (realtime c))) as [[|] |];
        congruence. }
    rewrite onClose_schedules by (now rewrite ?Hl, ?Hr).
    eexists. split; [now rewrite Ht |]. split.
    + simpl. unfold getTimeout. now rewrite Ha.
    + intro c2. simpl. split; [reflexivity |].
      now rewrite createSocket_reconnectAttempts.
Qed.

(** The theorem at a close of an open socket that received no message:
    one timer is scheduled, for a second from now. *)
Lemma close_reconnects_unless_policy_violation_witness :
  let es := [Subscribe (One "files") 1; TimerFires 1; SocketOpens 0] in
  let c := run es (fresh "wss://host/v1" "p" Absent true) in
  let c' := step (SocketCloses 0) c in
  exists t,
    timers c' = timers c ++ [t]
    /\ timer_delay t = 1000%N
    /\ forall c2,
         reconnectAttempts (realtime (fire (timer_task t) c2))
         = S (reconnectAttempts (realtime c2)).
Proof.
  intros es c c'.
  destruct (close_reconnects_unless_policy_violation
              "wss://host/v1" "p" Absent true es 0 eq_refl eq_refl)
    as (_ & _ & H).
  destruct H as (t & Ht & Hd & Hf).
  - intros (message & text & Hm & _). discriminate Hm.
  - intros (message & Hm & _). discriminate Hm.
  - exists t. split; [exact Ht |]. split; [exact Hd |].
    intro c2. apply (Hf c2).
Defined.

(** C2 as it is worded fails: after an [error] message without [data]
    the latest parsed message is no [error] with code 1008 and
    [reconnect] is true, yet the close schedules nothing. *)
Lemma close_after_error_without_data :
  let es := [Subscribe (One "files") 1; TimerFires 1; SocketOpens 0;
             SocketMessage 0 (Parsed {| type := error; data := NoData |})] in
  let c := run es (fresh "wss://host/v1" "p" Absent true) in
  let last := latest_parsed es (fresh "wss://host/v1" "p" Absent true) None in
  enabled (SocketCloses 0) c = true
  /\ reconnect (realtime c) = true
  /\ ~ is_error_1008 last
  /\ timers (step (SocketCloses 0) c) = timers c.
Proof.
  intros es c last.
  split; [vm_compute; reflexivity |]. split; [vm_compute; reflexivity |].
  split; [| vm_compute; reflexivity].
  intros (message & text & Hm & _ & Hd).
  vm_compute in Hm. inversion Hm; subst. discriminate Hd.
Qed.

(** C10: the check reads [lastMessage], which only a later parsed frame
    replaces.  So after an [error] message with code 1008 no close event
    schedules a reconnect until such a frame arrives; and there is a run
    in which that message is followed by two close events, both arriving
    with [reconnect] true and with no parsed frame in between, and neither
    schedules anything. *)
Theorem policy_violation_outlives_one_close :
  (forall (c : Client) (es : list Input) (id : nat),
     is_error_1008 (lastMessage (realtime c)) ->
     forallb brings_no_message es = true ->
     let c1 := run es c in
     is_error_1008 (lastMessage (realtime c1))
     /\ timers (step (SocketCloses id) c1) = timers c1)
  /\ exists (es : list Input) (id0 : nat) (message : RealtimeResponse)
            (id1 : nat) (between : list Input) (id2 : nat),
       let c0 := run es (fresh "wss://host/v1" "p" Absent true) in
       let c1 := step (SocketMessage id0 (Parsed message)) c0 in
       let c2 := run between (step (SocketCloses id1) c1) in
       enabled (SocketMessage id0 (Parsed message)) c0 = true
       /\ type message = error
       /\ data_code (data message) = Some 1008%Z
       /\ enabled (SocketCloses id1) c1 = true
       /\ reconnect (realtime c1) = true
       /\ timers (step (SocketCloses id1) c1) = timers c1
       /\ forallb brings_no_message between = true
       /\ enabled (SocketCloses id2) c2 = true
       /\ reconnect (realtime c2) = true
       /\ timers (step (SocketCloses id2) c2) = timers c2.
Proof.
  split.
  - intros c es id Herr Hes c1. subst c1.
    rewrite run_keeps_lastMessage by assumption.
    split; [assumption |].
    unfold step. destruct (enabled _ _); [| reflexivity]. simpl.
    destruct (update_socket_frame id (set_readyState CLOSED) (run es c))
      as (Ht & _ & _ & _ & Hl).
    rewrite onClose_suppressed; [exact Ht |].
    rewrite Hl, run_keeps_lastMessage by assumption.
    now apply policy_violation_spec.
  - exists [Subscribe (One "files") 1; TimerFires 1; SocketOpens 0], 0,
      {| type := error; data := Error 1008 "policy violation" |}, 0,
      [Subscribe (One "account") 2; TimerFires 2], 1.
    vm_compute. repeat split.
Qed.

(** ** [createSocket] *)

Lemma size_lt_1 (s : JsSet.t) : (JsSet.size s <? 1) = true <-> s = [].
Proof.
  unfold JsSet.size. destruct s; simpl; split; intro H;
    try reflexivity; discriminate.
Qed.

Lemma must_open_spec (u : string) (r : Realtime) :
  must_open u r = true
  <-> u <> url r \/ socket r = None
      \/ exists ws, socket r = Some ws /\ settled ws.
Proof.
  unfold must_open, settled.
  destruct (String.eqb_spec u (url r)) as [Hu | Hu]; simpl;
    [| split; [now left | reflexivity]].
  destruct (socket r) as [ws |]; simpl;
    [| split; [right; now left | reflexivity]].
  destruct (readyState ws) eqn:E; simpl; split; intro H;
    try discriminate; try reflexivity;
    try (right; right; exists ws; rewrite E; auto; fail);
    destruct H as [H | [H | (ws' & H & [H' | H'])]];
    try contradiction; try discriminate; inversion H; subst; congruence.
Qed.

(** C3, amended: with an empty channel set [createSocket] changes
    nothing.  Otherwise, when the computed URL differs from the stored
    one, or there is no socket, or the socket is closing or closed, it
    sets [reconnect] to false and closes a socket that is connecting or
    open, stores the URL and calls the constructor.  When the platform
    accepts the URL a new socket to it is connecting and held; when it
    does not, the constructor throws, no socket is opened, and the flag,
    the closed socket and the stored URL stay as just set.  With the URL
    unchanged and the socket connecting or open nothing changes. *)
Theorem createSocket_decision (c : Client) :
  let r := realtime c in
  let u := socket_url c in
  let c' := after (createSocket c) in
  let replace :=
    u <> url r \/ socket r = None
    \/ exists ws, socket r = Some ws /\ settled ws in
  (channels r = [] -> createSocket c = Normal c)
  /\ (next_socket c' = S (next_socket c)
      <-> channels r <> [] /\ replace /\ url_parses c = true)
  /\ (channels r <> [] ->
      (replace ->
       url (realtime c') = u
       /\ (url_parses c = true ->
           createSocket c = Normal c'
           /\ socket (realtime c')
              = Some {| ws_id := next_socket c; ws_url := u;
                        readyState := CONNECTING; ws_sent := [] |}
           /\ match socket r with
              | None =>
                  reconnect (realtime c') = reconnect r
                  /\ detached c' = detached c
              | Some ws =>
                  match readyState ws with
                  | CONNECTING | OPEN =>
                      reconnect (realtime c') = false
                      /\ detached c'
                         = detached c ++ [set_readyState CLOSING ws]
                  | CLOSING | CLOSED =>
                      reconnect (realtime c') = reconnect r
                      /\ detached c' = detached c ++ [ws]
                  end
              end)
       /\ (url_parses c = false ->
           createSocket c = Throw SyntaxError c'
           /\ next_socket c' = next_socket c
           /\ detached c' = detached c
           /\ match socket r with
              | None =>
                  reconnect (realtime c') = reconnect r
                  /\ socket (realtime c') = None
              | Some ws =>
                  match readyState ws with
                  | CONNECTING | OPEN =>
                      reconnect (realtime c') = false
                      /\ socket (realtime c')
                         = Some (set_readyState CLOSING ws)
                  | CLOSING | CLOSED =>
                      reconnect (realtime c') = reconnect r
                      /\ socket (realtime c') = Some ws
                  end
              end))
      /\ (forall ws,
            u = url r -> socket r = Some ws ->
            readyState ws = CONNECTING \/ readyState ws = OPEN ->
            createSocket c = Normal c)).
Proof.
  intros r u c' replace. subst c'. unfold createSocket. fold u. fold r.
  pose proof (size_lt_1 (channels r)) as Hsize.
  pose proof (must_open_spec u r) as Hopen. fold replace in Hopen.
  destruct (JsSet.size (channels r) <? 1).
  { assert (He : channels r = []) by now apply Hsize.
    split; [reflexivity |]. split; [| congruence].
    split; [intro H; exfalso; eapply n_Sn; exact H | tauto]. }
  assert (Hne : channels r <> [])
    by (intro He; apply Hsize in He; discriminate).
  split; [congruence |].
  destruct (must_open u r) eqn:Hm.
  - assert (Hrep : replace) by now apply Hopen.
    unfold new_WebSocket, connecting_or_open, close.
    split; [| intros _; split].
    + destruct (socket r) as [ws |] eqn:Hs; unfold r in Hs;
        [destruct (readyState ws) eqn:Hst |]; simpl;
        destruct (url_parses c); simpl; (split; [| tauto]);
        intro H; try (split; [assumption | split; [assumption | reflexivity]]);
        exfalso; eapply n_Sn; exact H.
    + intros _.
      destruct (socket r) as [ws |] eqn:Hs; unfold r in Hs;
        [destruct (readyState ws) eqn:Hst |]; simpl;
        destruct (url_parses c); simpl; rewrite ?Hs; simpl; rewrite ?Hst;
        (split; [reflexivity |]); split; intro Hp; try discriminate Hp;
        repeat split; rewrite ?app_nil_r; reflexivity.
    + intros ws Hu Hs Hst. exfalso.
      destruct Hrep as [H | [H | (ws' & H & [H' | H'])]];
        try contradiction; try congruence;
        rewrite Hs in H; inversion H; subst; destruct Hst; congruence.
  - assert (Hrep : ~ replace)
      by (intro H; apply Hopen in H; discriminate).
    split; [| intros _; split].
    + simpl. split; [intro H; exfalso; eapply n_Sn; exact H | tauto].
    + tauto.
    + reflexivity.
Qed.

(** C3 as it is worded fails: with a channel and no socket yet, on a
    platform that cannot parse the endpoint, [createSocket] opens no
    socket; the constructor throws. *)
Lemma createSocket_rejected_url :
  let c := run [Subscribe (One "files") 1]
               (fresh "wss://host:99999/v1" "p" Absent false) in
  channels (realtime c) <> []
  /\ socket (realtime c) = None
  /\ createSocket c
     = Throw SyntaxError (with_realtime (set_url (socket_url c)) c)
  /\ socket (realtime (after (createSocket c))) = None
  /\ next_socket (after (createSocket c)) = next_socket c.
Proof.
  intro c. vm_compute. split; [discriminate |]. repeat split.
Qed.

(** ** Inbound frames *)


Lemma intersects_spec (l1 l2 : list string) :
  intersects l1 l2 = true <-> exists x, In x l1 /\ In x l2.
Proof.
  unfold intersects. rewrite existsb_exists.
  split; intros [x [H1 H2]]; exists x; split; auto;
    destruct (in_dec string_dec x l2); auto; discriminate.
Qed.





(** C7: [onMessage] always returns normally.  A frame that does not parse
    and a message of kind [error] make its [try] block throw; the handler
    logs what was thrown and returns. *)
Theorem onMessage_never_throws (f : Frame) (c : Client) :
  (exists c', onMessage f c = Normal c')
  /\ (f = Unparsable ->
      onMessage_try f c = Throw SyntaxError c
      /\ onMessage f c = Normal (console_error (Logged SyntaxError) c))
  /\ (forall message,
        f = Parsed message -> type message = error ->
        let c1 := with_realtime (set_lastMessage (Some message)) c in
        onMessage_try f c = Throw (Thrown (data message)) c1
        /\ onMessage f c
           = Normal (console_error (Logged (Thrown (data message))) c1)).
Proof.
  split; [| split].
  - unfold onMessage. destruct (onMessage_try f c); eauto.
  - intros ->. split; reflexivity.
  - intros message -> Hty. unfold onMessage. simpl. rewrite Hty.
    split; reflexivity.
Qed.

(** ** Sockets the client no longer holds *)

Lemma connect_sockets (c : Client) :
  detached (connect c) = detached c
  /\ socket (realtime (connect c)) = socket (realtime c).
Proof.
  unfold connect, clearTimeout, setTimeout.
  destruct (timeout (realtime c)); split; reflexivity.
Qed.

Lemma createSocket_settled (c : Client) :
  detached_settled c -> detached_settled (after (createSocket c)).
Proof.
  unfold detached_settled, createSocket. intro H.
  destruct (JsSet.size (channels (realtime c)) <? 1); [assumption |].
  destruct (must_open (socket_url c) (realtime c)) eqn:Hm; [| assumption].
  unfold must_open, connecting_or_open, closing_or_closed, no_socket in *.
  unfold new_WebSocket, close, settled.
  destruct (socket (realtime c)) as [ws |] eqn:Hs; simpl.
  - destruct (readyState ws) eqn:Hst; simpl; destruct (url_parses c); simpl;
      rewrite ?Hs; simpl; rewrite ?Hst; try exact H;
      apply Forall_app; split; auto; repeat constructor; simpl; auto.
  - destruct (url_parses c); simpl; [| exact H].
    rewrite Hs. simpl. now rewrite app_nil_r.
Qed.

Lemma dispatch_sockets (d : ResponseData) (chs : list string) (c : Client) :
  detached (dispatch d chs c) = detached c
  /\ socket (realtime (dispatch d chs c)) = socket (realtime c).
Proof.
  unfold dispatch. generalize (subscriptions (realtime c)) as subs.
  intro subs. revert c.
  induction subs as [| kv subs IH]; intro c; simpl; [now split |].
  destruct (IH (notify d chs c kv)) as [-> ->]. unfold notify.
  destruct (interested chs (snd kv)); split; reflexivity.
Qed.

Lemma onMessage_detached (f : Frame) (c : Client) :
  match onMessage f c with
  | Normal c' | Throw _ c' => detached c' = detached c
  end.
Proof.
  unfold onMessage. destruct f as [| message]; simpl; [reflexivity |].
  destruct (type message); simpl; try reflexivity.
  - destruct (data_channels (data message)) as [chs |]; [| reflexivity].
    match goal with |- context [negb ?b] => destruct b end; simpl;
      [| reflexivity].
    now destruct (dispatch_sockets (data message) chs
                    (with_realtime (set_lastMessage (Some message)) c)).
  - destruct (parse_cookie (cookieFallback c)) as [cookie |];
      [| reflexivity].
    destruct (session_of cookie (project c)) as [s |]; [| reflexivity].
    destruct (truthy s); [| reflexivity].
    destruct (has_data (data message)); [| reflexivity].
    destruct (no_user (data message)); [| reflexivity].
    unfold send. simpl.
    destruct (socket (realtime c)) as [ws |]; [| reflexivity].
    destruct (readyState ws); reflexivity.
Qed.

Lemma onClose_sockets (c : Client) :
  detached (after (onClose c)) = detached c.
Proof. onClose_cases c; reflexivity. Qed.

Lemma update_first_settled (id : nat) (l : list WebSocket) :
  Forall settled l ->
  Forall settled (update_first id (set_readyState CLOSED) l).
Proof.
  induction 1 as [| ws l Hws Hl IH]; simpl; [constructor |].
  destruct (has_id id ws); constructor; auto. now right.
Qed.

(** A socket that is connecting or open is the one the client holds. *)
Lemma live_socket_is_held (id : nat) (c : Client) (ws : WebSocket) :
  detached_settled c ->
  find_socket id c = Some ws ->
  readyState ws = CONNECTING \/ readyState ws = OPEN ->
  socket (realtime c) = Some ws /\ has_id id ws = true.
Proof.
  unfold detached_settled, find_socket. intros Hd Hf Hst.
  assert (Hno : find (has_id id) (detached c) <> Some ws).
  { intro H. apply find_some in H. destruct H as [Hin _].
    rewrite Forall_forall in Hd. apply Hd in Hin.
    destruct Hin, Hst; congruence. }
  destruct (socket (realtime c)) as [ws' |]; [| contradiction].
  destruct (has_id id ws') eqn:E; [| contradiction].
  inversion Hf; subst. now split.
Qed.

Lemma step_settled (e : Input) (c : Client) :
  detached_settled c -> detached_settled (step e c).
Proof.
  intro H. unfold step. destruct (enabled e c) eqn:Hen; [| assumption].
  unfold detached_settled in *.
  destruct e as [chs cb | k | id | id | id f | id].
  - simpl. unfold subscribe, connect, clearTimeout, setTimeout. simpl.
    destruct (timeout (realtime c)); assumption.
  - unfold occur.
    destruct (nth_error (closures c) k) as [cl |]; [| assumption].
    unfold unsubscribe.
    match goal with |- context [cleanUp ?l ?c0] =>
      destruct (connect_sockets (cleanUp l c0)) as [-> _];
      destruct (cleanUp_spec l c0) as [s [-> _]]
    end.
    assumption.
  - simpl. destruct (find _ (timers c)) as [t |]; [| assumption].
    destruct (timer_task t); simpl; try assumption;
      now apply createSocket_settled.
  - simpl in *.
    destruct (find_socket id c) as [ws |] eqn:Hf; [| discriminate].
    destruct (readyState ws) eqn:Hst; try discriminate.
    destruct (live_socket_is_held id c ws H Hf) as [Hs Hid]; [now left |].
    unfold update_socket. rewrite Hs, Hid. assumption.
  - unfold occur. pose proof (onMessage_detached f c) as Hd.
    destruct (onMessage f c); now rewrite Hd.
  - simpl. rewrite onClose_sockets. unfold update_socket.
    destruct (socket (realtime c)) as [ws |];
      [destruct (has_id id ws) |]; simpl;
      auto using update_first_settled.
Qed.

Lemma run_settled (es : list Input) :
  forall c, detached_settled c -> detached_settled (run es c).
Proof.
  induction es as [| e es IH]; intros c H; simpl; auto using step_settled.
Qed.

Lemma stored_session_spec (c : Client) :
  stored_session c
  = match parse_cookie (cookieFallback c) with
    | Some cookie =>
        match session_of cookie (project c) with
        | Some s => if truthy s then Some s else None
        | None => None
        end
    | None => None
    end.
Proof.
  unfold stored_session, parse_cookie, session_of, get.
  destruct (cookieFallback c) as [| | v]; try reflexivity.
  destruct v; reflexivity.
Qed.

(** C9, amended: a [connected] message arrives on the open socket the
    client holds.  When local storage holds a session credential for the
    project and the message has a [data] that names no user, exactly one
    frame, the [authentication] request carrying that credential, is
    added to what was sent on that socket; in every other case nothing
    is sent.  One of these is a credential with a message whose [data]
    is [null] or absent: reading the user throws a [TypeError], which the
    handler logs.  No other socket is touched. *)
Theorem authentication_on_connect
  (endpoint proj : string) (item : StoredItem) (parses : bool)
  (es : list Input) (id : nat) (message : RealtimeResponse) :
  let c := run es (fresh endpoint proj item parses) in
  enabled (SocketMessage id (Parsed message)) c = true ->
  type message = connected ->
  let c' := step (SocketMessage id (Parsed message)) c in
  exists ws,
    socket (realtime c) = Some ws /\ ws_id ws = id /\ readyState ws = OPEN
    /\ detached c' = detached c
    /\ socket (realtime c')
       = match stored_session c, has_data (data message),
               data_user (data message) with
         | Some s, true, None =>
             Some {| ws_id := ws_id ws; ws_url := ws_url ws;
                     readyState := OPEN;
                     ws_sent := ws_sent ws ++ [authentication s] |}
         | _, _, _ => Some ws
         end
    /\ (forall s,
          stored_session c = Some s -> data message = NoData ->
          onMessage_try (Parsed message) c
          = Throw TypeError (with_realtime (set_lastMessage (Some message)) c)
          /\ console c' = console c ++ [Logged TypeError]).
Proof.
  intros c Hen Hty c'. subst c'. unfold step. rewrite Hen.
  assert (Hd : detached_settled c)
    by (apply run_settled; constructor).
  simpl in Hen.
  destruct (find_socket id c) as [ws |] eqn:Hf; [| discriminate].
  destruct (readyState ws) eqn:Hst; try discriminate.
  destruct (live_socket_is_held id c ws Hd Hf) as [Hs Hid]; [now right |].
  exists ws. split; [assumption |].
  split; [now apply Nat.eqb_eq |]. split; [assumption |].
  rewrite stored_session_spec. unfold occur.
  pose proof (onMessage_detached (Parsed message) c) as Hdet.
  unfold onMessage in *. simpl in *. rewrite Hty in *.
  destruct (parse_cookie (cookieFallback c)) as [cookie |]; simpl in *;
    [| repeat split; easy].
  destruct (session_of cookie (project c)) as [s |]; simpl in *;
    [| repeat split; easy].
  unfold no_user in *.
  destruct (truthy s); simpl in *; [| repeat split; easy].
  destruct (data message) as [to ok u | chs [u |] | code text | ev chs ts pl |];
    simpl in *;
    try (repeat split; easy).
  - unfold send in *. simpl in *. rewrite Hs in *. rewrite Hst in *.
    simpl. unfold sent. rewrite Hst. repeat split; easy.
  - unfold send in *. simpl in *. rewrite Hs in *. rewrite Hst in *.
    simpl. unfold sent. rewrite Hst. repeat split; easy.
  - unfold send in *. simpl in *. rewrite Hs in *. rewrite Hst in *.
    simpl. unfold sent. rewrite Hst. repeat split; easy.
Qed.

(** The theorem at the first message on a freshly opened socket, with a
    credential in local storage. *)
Lemma authentication_on_connect_witness :
  let item := Holds (JObj [("a_session_p", JStr "secret")]) in
  let message := {| type := connected; data := Connected ["files"] None |} in
  let c := run [Subscribe (One "files") 1; TimerFires 1; SocketOpens 0]
               (fresh "wss://host/v1" "p" item true) in
  let c' := step (SocketMessage 0 (Parsed message)) c in
  exists ws,
    socket (realtime c) = Some ws /\ ws_id ws = 0 /\ readyState ws = OPEN
    /\ detached c' = detached c
    /\ socket (realtime c')
       = Some {| ws_id := ws_id ws; ws_url := ws_url ws;
                 readyState := OPEN;
                 ws_sent := ws_sent ws ++ [authentication (JStr "secret")] |}.
Proof.
  intros item message c c'.
  destruct (authentication_on_connect
              "wss://host/v1" "p" item true
              [Subscribe (One "files") 1; TimerFires 1; SocketOpens 0] 0
              message eq_refl eq_refl)
    as (ws & H1 & H2 & H3 & H4 & H5 & _).
  exists ws. repeat split; assumption.
Defined.

(** C9 as it is worded fails: with a credential stored, a [connected]
    message whose [data] is absent reports no user, yet no frame is sent;
    the handler logs the [TypeError]. *)
Lemma connected_without_data_sends_nothing :
  let item := Holds (JObj [("a_session_p", JStr "secret")]) in
  let message := {| type := connected; data := NoData |} in
  let c := run [Subscribe (One "files") 1; TimerFires 1; SocketOpens 0]
               (fresh "wss://host/v1" "p" item true) in
  let c' := step (SocketMessage 0 (Parsed message)) c in
  enabled (SocketMessage 0 (Parsed message)) c = true
  /\ stored_session c = Some (JStr "secret")
  /\ data_user (data message) = None
  /\ option_map ws_sent (socket (realtime c)) = Some []
  /\ option_map ws_sent (socket (realtime c')) = Some []
  /\ console c' = [Logged TypeError].
Proof.
  vm_compute. repeat split.
Qed.

(** ** The connection URL *)

Lemma encode_no_amp (a : ascii) (rest : string) :
  occurs "&" (URLSearchParams.encode (String a rest))
  = occurs "&" (URLSearchParams.encode rest).
Proof. each_byte a; reflexivity. Qed.

Lemma encode_no_eq (a : ascii) (rest : string) :
  occurs "=" (URLSearchParams.encode (String a rest))
  = occurs "=" (URLSearchParams.encode rest).
Proof. each_byte a; reflexivity. Qed.

Lemma encode_clean (s : string) :
  occurs "&" (URLSearchParams.encode s) = false
  /\ occurs "=" (URLSearchParams.encode s) = false.
Proof.
  induction s as [| a s [IH1 IH2]]; [now split |].
  now rewrite encode_no_amp, encode_no_eq.
Qed.

Lemma decode_encode_byte (a : ascii) (rest : string) :
  URLSearchParams.decode (URLSearchParams.encode (String a rest))
  = String a (URLSearchParams.decode (URLSearchParams.encode rest)).
Proof. each_byte a; reflexivity. Qed.

Lemma decode_encode (s : string) :
  URLSearchParams.decode (URLSearchParams.encode s) = s.
Proof.
  induction s as [| a s IH]; [reflexivity |].
  now rewrite decode_encode_byte, IH.
Qed.

Lemma occurs_app (a : ascii) (x y : string) :
  occurs a (x ++ y)%string = occurs a x || occurs a y.
Proof.
  induction x as [| b x IH]; simpl; [reflexivity |].
  now rewrite IH, orb_assoc.
Qed.

Lemma split_on_clean (sep : ascii) (x : string) :
  occurs sep x = false -> URLSearchParams.split_on sep x = [x].
Proof.
  induction x as [| b x IH]; simpl; [reflexivity |].
  intro H. apply orb_false_iff in H. destruct H as [Hb Hx].
  rewrite Hb, IH by assumption. reflexivity.
Qed.

Lemma split_on_app (sep : ascii) (x rest : string) :
  occurs sep x = false ->
  URLSearchParams.split_on sep (x ++ String sep rest)%string
  = x :: URLSearchParams.split_on sep rest.
Proof.
  induction x as [| b x IH]; simpl.
  - intros _. now rewrite Ascii.eqb_refl.
  - intro H. apply orb_false_iff in H. destruct H as [Hb Hx].
    rewrite Hb, IH by assumption. reflexivity.
Qed.

Lemma split_on_concat (sep : ascii) (pieces : list string) :
  pieces <> [] ->
  Forall (fun piece => occurs sep piece = false) pieces ->
  URLSearchParams.split_on sep (String.concat (String sep "") pieces)
  = pieces.
Proof.
  induction pieces as [| x pieces IH]; [congruence |].
  intros _ H. inversion H as [| ? ? Hx Hrest]; subst.
  destruct pieces as [| y pieces].
  - simpl. now apply split_on_clean.
  - change (String.concat (String sep "") (x :: y :: pieces))
      with (x ++ String sep (String.concat (String sep "") (y :: pieces)))%string.
    rewrite split_on_app by assumption.
    rewrite IH by (congruence || assumption). reflexivity.
Qed.

Lemma cut_at_app (sep : ascii) (x y : string) :
  occurs sep x = false ->
  URLSearchParams.cut_at sep (x ++ String sep y)%string = (x, y).
Proof.
  induction x as [| b x IH]; simpl.
  - intros _. now rewrite Ascii.eqb_refl.
  - intro H. apply orb_false_iff in H. destruct H as [Hb Hx].
    rewrite Hb, IH by assumption. reflexivity.
Qed.

Lemma pair_text_shape (nv : string * string) :
  occurs "&" (URLSearchParams.pair_text nv) = false
  /\ URLSearchParams.is_empty (URLSearchParams.pair_text nv) = false
  /\ URLSearchParams.cut_at "=" (URLSearchParams.pair_text nv)
     = (URLSearchParams.encode (fst nv), URLSearchParams.encode (snd nv)).
Proof.
  unfold URLSearchParams.pair_text.
  destruct (encode_clean (fst nv)) as [Hn1 Hn2].
  destruct (encode_clean (snd nv)) as [Hv1 Hv2].
  change ("=" ++ URLSearchParams.encode (snd nv))%string
    with (String "=" (URLSearchParams.encode (snd nv))).
  split; [| split].
  - rewrite occurs_app. simpl. now rewrite Hn1, Hv1.
  - destruct (URLSearchParams.encode (fst nv)); reflexivity.
  - now apply cut_at_app.
Qed.

(** What [toString] writes, the parser reads back. *)
Lemma parse_toString (p : URLSearchParams.t) :
  URLSearchParams.parse (URLSearchParams.toString p) = p.
Proof.
  unfold URLSearchParams.parse, URLSearchParams.toString.
  destruct p as [| nv p]; [reflexivity |].
  rewrite split_on_concat.
  - generalize (nv :: p) as l. induction l as [| [n v] l IH]; [reflexivity |].
    cbn [map filter].
    destruct (pair_text_shape (n, v)) as (_ & -> & Hc).
    cbn [negb map]. rewrite Hc, IH. cbn [fst snd].
    now rewrite !decode_encode.
  - discriminate.
  - apply Forall_map, Forall_forall. intros x _. apply pair_text_shape.
Qed.

Lemma socket_params_spec (c : Client) :
  socket_params c
  = ("project", project c)
      :: map (fun channel => ("channels[]", channel)) (channels (realtime c)).
Proof.
  unfold socket_params.
  change (URLSearchParams.set "project" (project c) URLSearchParams.empty)
    with [("project", project c)].
  assert (H : forall l p,
             fold_left
               (fun p channel => URLSearchParams.append "channels[]" channel p)
               l p
             = p ++ map (fun channel => ("channels[]", channel)) l).
  { induction l as [| x l IH]; intro p; simpl.
    - now rewrite app_nil_r.
    - rewrite IH. unfold URLSearchParams.append. now rewrite <- app_assoc. }
  now rewrite H.
Qed.

Lemma channel_parameters_spec (c : Client) :
  channel_parameters (socket_query c) = channels (realtime c).
Proof.
  unfold channel_parameters, socket_query.
  rewrite parse_toString, socket_params_spec. simpl.
  induction (channels (realtime c)) as [| x l IH]; simpl; congruence.
Qed.

(** C6: the computed URL is the realtime endpoint, then [/realtime?], then
    a query that reads back as the parameter [project] with the project id
    followed by one parameter [channels[]] per channel of the set, in the
    order of the set; so two clients with the same channels, in whatever
    order, have the same [channels[]] values as a set.  A socket that
    [createSocket] opens is opened to that URL. *)
Theorem socket_url_format (c : Client) :
  socket_url c
  = (endpointRealtime c ++ "/realtime?" ++ socket_query c)%string
  /\ URLSearchParams.parse (socket_query c)
     = ("project", project c)
         :: map (fun channel => ("channels[]", channel))
                (channels (realtime c))
  /\ (forall c2,
        project c2 = project c ->
        (forall channel,
           In channel (channels (realtime c2))
           <-> In channel (channels (realtime c))) ->
        forall x,
          In x (channel_parameters (socket_query c2))
          <-> In x (channel_parameters (socket_query c)))
  /\ (next_socket (after (createSocket c)) = S (next_socket c) ->
      exists ws,
        socket (realtime (after (createSocket c))) = Some ws
        /\ ws_url ws = socket_url c
        /\ url (realtime (after (createSocket c))) = socket_url c).
Proof.
  split; [reflexivity |]. split; [| split].
  - unfold socket_query. now rewrite parse_toString, socket_params_spec.
  - intros c2 _ H x. rewrite !channel_parameters_spec. apply H.
  - createSocket_cases c;
      try (intro H; exfalso; eapply n_Sn; exact H);
      intros _; eexists; repeat split.
Qed.

(** ** The statements at concrete clients *)

(** The tiers at their boundaries. *)
Lemma getTimeout_tiers_witness :
  let with_attempts n :=
    with_realtime (set_reconnectAttempts n)
      (fresh "wss://host/v1" "p" Absent true) in
  getTimeout (with_attempts 0) = 1000%N /\ getTimeout (with_attempts 4) = 1000%N
  /\ getTimeout (with_attempts 5) = 5000%N /\ getTimeout (with_attempts 14) = 5000%N
  /\ getTimeout (with_attempts 15) = 10000%N /\ getTimeout (with_attempts 99) = 10000%N
  /\ getTimeout (with_attempts 100) = 60000%N.
Proof.
  intro with_attempts.
  split; [apply (getTimeout_tiers (with_attempts 0)); simpl; lia |].
  split; [apply (getTimeout_tiers (with_attempts 4)); simpl; lia |].
  split; [apply (getTimeout_tiers (with_attempts 5)); simpl; lia |].
  split; [apply (getTimeout_tiers (with_attempts 14)); simpl; lia |].
  split; [apply (getTimeout_tiers (with_attempts 15)); simpl; lia |].
  split; [apply (getTimeout_tiers (with_attempts 99)); simpl; lia |].
  apply (getTimeout_tiers (with_attempts 100)); simpl; lia.
Defined.

(** The first [createSocket] after a subscription opens socket 0; run
    again while that socket is connecting, it changes nothing. *)
Lemma createSocket_decision_witness :
  let c := run [Subscribe (One "files") 1]
               (fresh "wss://host/v1" "p" Absent true) in
  (socket (realtime (after (createSocket c)))
   = Some {| ws_id := 0;
             ws_url := "wss://host/v1/realtime?project=p&channels%5B%5D=files";
             readyState := CONNECTING; ws_sent := [] |})
  /\ createSocket (after (createSocket c)) = Normal (after (createSocket c)).
Proof.
  intro c. split.
  - destruct (createSocket_decision c) as (_ & _ & H).
    destruct H as [H _]; [discriminate |].
    destruct H as (_ & H & _); [right; left; reflexivity |].
    destruct H as (_ & H & _); [reflexivity | exact H].
  - destruct (createSocket_decision (after (createSocket c))) as (_ & _ & H).
    destruct H as [_ H]; [vm_compute; discriminate |].
    eapply H; [vm_compute; reflexivity | vm_compute; reflexivity
              | left; vm_compute; reflexivity].
Defined.

(** A frame that does not parse, on a client with one subscription. *)
Lemma onMessage_never_throws_witness :
  let c := run [Subscribe (One "files") 1]
               (fresh "wss://host/v1" "p" Absent true) in
  onMessage Unparsable c = Normal (console_error (Logged SyntaxError) c)
  /\ onMessage (Parsed {| type := error; data := Error 1008 "no" |}) c
     = Normal (console_error
                 (Logged (Thrown (Error 1008 "no")))
                 (with_realtime
                    (set_lastMessage
                       (Some {| type := error; data := Error 1008 "no" |})) c)).
Proof.
  intro c. split.
  - destruct (onMessage_never_throws Unparsable c) as (_ & H & _).
    apply H. reflexivity.
  - destruct (onMessage_never_throws
                (Parsed {| type := error; data := Error 1008 "no" |}) c)
      as (_ & _ & H).
    apply (H {| type := error; data := Error 1008 "no" |}); reflexivity.
Defined.

(** Two clients that subscribed to the same channels in opposite orders. *)
Lemma socket_url_format_witness :
  let c1 := run [Subscribe (Many ["files"; "account"]) 1]
                (fresh "wss://host/v1" "p" Absent true) in
  let c2 := run [Subscribe (Many ["account"; "files"]) 1]
                (fresh "wss://host/v1" "p" Absent true) in
  In "account" (channel_parameters (socket_query c2))
  <-> In "account" (channel_parameters (socket_query c1)).
Proof.
  intros c1 c2.
  destruct (socket_url_format c1) as (_ & _ & H & _).
  apply (H c2); [reflexivity |].
  intro channel. simpl. tauto.
Defined.

(** After an [error] message with code 1008, a subscription and the
    socket it opens: the close of that socket schedules nothing. *)
Lemma policy_violation_outlives_one_close_witness :
  let c :=
    run [Subscribe (One "files") 1; TimerFires 1; SocketOpens 0;
         SocketMessage 0 (Parsed {| type := error; data := Error 1008 "no" |});
         SocketCloses 0]
        (fresh "wss://host/v1" "p" Absent true) in
  let c1 := run [Subscribe (One "account") 2; TimerFires 2] c in
  is_error_1008 (lastMessage (realtime c1))
  /\ timers (step (SocketCloses 1) c1) = timers c1.
Proof.
  intros c.
  destruct policy_violation_outlives_one_close as [H _].
  apply (H c [Subscribe (One "account") 2; TimerFires 2] 1).
  - exists {| type := error; data := Error 1008 "no" |}, "no".
    repeat split.
  - reflexivity.
Defined.

(** The scenario of the specification: subscribe to A and B, then to B
    and C, then unsubscribe the first. *)
Example subscribe_AB_BC_unsubscribe_AB :
  channels
    (realtime
       (run [Subscribe (Many ["A"; "B"]) 1; Subscribe (Many ["B"; "C"]) 2;
             Unsubscribe 0]
            (fresh "wss://host/v1" "p" Absent true)))
  = ["B"; "C"].
Proof. reflexivity. Qed.

(** The text of a URL: names and values are percent-encoded. *)
Example socket_url_text :
  socket_url
    (run [Subscribe (Many ["files"; "documents.a b"]) 1]
         (fresh "wss://host/v1" "p" Absent true))
  = "wss://host/v1/realtime?project=p&channels%5B%5D=files&channels%5B%5D=documents.a+b".
Proof. reflexivity. Qed.

(** End to end: one subscription on [files]; the socket opens; an event on
    [files] is delivered and its timer fires, so the callback has run
    once; after unsubscribing, the same event schedules nothing. *)
Example files_end_to_end :
  let body := Event ["files.create"] ["files"] 1 (JObj [("$id", JStr "1")]) in
  let frame := Parsed {| type := event; data := body |} in
  let c :=
    run [Subscribe (One "files") 1; TimerFires 1; SocketOpens 0;
         SocketMessage 0 frame; TimerFires 2]
        (fresh "wss://host/v1" "p" Absent true) in
  let c' := run [Unsubscribe 0; SocketMessage 0 frame] c in
  invoked c = [(1, body)]
  /\ invoked c' = [(1, body)]
  /\ map timer_task (timers c') = [ConnectTask].
Proof. repeat split. Qed.

(** * Further properties of the realtime core *)

(** ** [createSocket] run twice *)

Lemma createSocket_keeps_target (c : Client) :
  socket_url (after (createSocket c)) = socket_url c
  /\ channels (realtime (after (createSocket c))) = channels (realtime c).
Proof. createSocket_cases c; now split. Qed.

(** X1: running [createSocket] again right after it ran changes nothing:
    the socket it may have opened is connecting, to the URL now stored. *)
Theorem createSocket_idempotent (c : Client) :
  createSocket (after (createSocket c)) = createSocket c.
Proof.
  destruct (createSocket_keeps_target c) as [Hu Hc].
  unfold createSocket at 1. rewrite Hc, Hu. cbv zeta.
  unfold createSocket, new_WebSocket.
  destruct (JsSet.size (channels (realtime c)) <? 1) eqn:Hsize;
    [reflexivity |].
  unfold must_open, connecting_or_open, closing_or_closed, no_socket, close.
  destruct (String.eqb (socket_url c) (url (realtime c))) eqn:Hu';
    (destruct (socket (realtime c)) as [ws |] eqn:Hs;
     [destruct (readyState ws) eqn:Hst |]);
    destruct (url_parses c) eqn:Hp;
    repeat (progress (simpl; rewrite ?String.eqb_refl, ?Hs, ?Hu', ?Hp, ?Hst));
    reflexivity.
Qed.

(** ** [cleanUp] as a filter *)

Lemma filter_all {A : Type} (f : A -> bool) (l : list A) :
  (forall x, In x l -> f x = true) -> filter f l = l.
Proof.
  induction l as [| x l IH]; simpl; intro H; [reflexivity |].
  rewrite H by now left. f_equal. apply IH. intros y Hy. apply H. now right.
Qed.

Lemma filter_none {A : Type} (f : A -> bool) (l : list A) :
  (forall x, In x l -> f x = false) -> filter f l = [].
Proof.
  induction l as [| x l IH]; simpl; intro H; [reflexivity |].
  rewrite H by now left. apply IH. intros y Hy. apply H. now right.
Qed.

Lemma filter_twice {A : Type} (l : list A) (keep also : A -> bool) :
  filter (fun x => keep x && also x) l = filter also (filter keep l).
Proof.
  induction l as [| x l IH]; simpl; [reflexivity |].
  destruct (keep x); simpl; [destruct (also x) |]; now rewrite IH.
Qed.

Lemma cleanUp_visits_filter (chs : list string) :
  forall (snapshot : list string) (r : Realtime),
    fold_left (cleanUp_visit chs) snapshot r
    = set_channels
        (filter (fun y => negb (includes snapshot y
                                && unreferenced chs (subscriptions r) y))
                (channels r))
        r.
Proof.
  induction snapshot as [| x snapshot IH]; intro r; simpl.
  - rewrite filter_all by reflexivity. destruct r; reflexivity.
  - assert (Hx : cleanUp_visit chs r x
                 = if unreferenced chs (subscriptions r) x
                   then set_channels (JsSet.delete x (channels r)) r
                   else r).
    { unfold cleanUp_visit, unreferenced.
      destruct (includes chs x); [| reflexivity].
      now destruct (found x (subscriptions r)). }
    rewrite Hx, IH.
    destruct (unreferenced chs (subscriptions r) x) eqn:Hu; simpl.
    + unfold JsSet.delete, set_channels. simpl. rewrite <- filter_twice.
      f_equal. apply filter_ext. intro y. unfold includes at 2. simpl.
      fold (includes snapshot y).
      destruct (String.eqb_spec y x) as [-> | Hne]; simpl.
      * now rewrite Hu.
      * reflexivity.
    + f_equal. apply filter_ext. intro y. unfold includes at 2. simpl.
      fold (includes snapshot y).
      destruct (String.eqb_spec y x) as [-> | Hne]; simpl.
      * now rewrite Hu, andb_false_r.
      * reflexivity.
Qed.

(** X2: [cleanUp] changes only the channel set, and what it leaves is the
    set, in its order, without the channels that are in the given list and
    in no subscription's list. *)
Theorem cleanUp_filters (chs : list string) (c : Client) :
  cleanUp chs c
  = with_realtime
      (set_channels
         (filter (fun y => negb (includes chs y)
                           || found y (subscriptions (realtime c)))
                 (channels (realtime c))))
      c.
Proof.
  unfold cleanUp, with_realtime. rewrite cleanUp_visits_filter.
  do 2 f_equal. apply filter_ext_in. intros y Hy.
  apply includes_In in Hy. rewrite Hy. unfold unreferenced. simpl.
  now rewrite negb_andb, negb_involutive.
Qed.

(** ** A subscription and its own closure *)

Lemma add_all_appends (l : list string) :
  forall s : JsSet.t,
  exists extra,
    fold_left (fun s channel => JsSet.add channel s) l s = s ++ extra
    /\ forall y, In y extra -> In y l /\ ~ In y s.
Proof.
  induction l as [| x l IH]; intro s; simpl.
  - exists []. split; [now rewrite app_nil_r | intros y []].
  - destruct (IH (JsSet.add x s)) as (extra & -> & Hextra).
    unfold JsSet.add in *. destruct (JsSet.has x s) eqn:Hx.
    + exists extra. split; [reflexivity |].
      intros y Hy. destruct (Hextra y Hy). split; [now right | assumption].
    + exists (x :: extra). split; [now rewrite <- app_assoc |].
      intros y [<- | Hy].
      * split; [now left |]. intro H. apply has_In in H. congruence.
      * destruct (Hextra y Hy) as [H1 H2]. split; [now right |].
        intro H. apply H2. apply in_app_iff. now left.
Qed.

Lemma unsubscribe_fields (cl : Closure) (c : Client) :
  let remaining := JsMap.delete (cl_counter cl) (subscriptions (realtime c)) in
  subscriptions (realtime (unsubscribe cl c)) = remaining
  /\ channels (realtime (unsubscribe cl c))
     = filter (fun y => negb (includes (cl_channels cl) y) || found y remaining)
              (channels (realtime c))
  /\ subscriptionsCounter (realtime (unsubscribe cl c))
     = subscriptionsCounter (realtime c).
Proof.
  unfold unsubscribe.
  match goal with |- context [cleanUp ?l ?c0] =>
    destruct (connect_same (cleanUp l c0)) as (Hch & Hs & Hn & _);
    rewrite Hch, Hs, Hn, (cleanUp_filters l c0)
  end.
  repeat split.
Qed.

Lemma delete_last_key {V : Type} (k : nat) (v : V) (m : JsMap.t V) :
  ~ In k (JsMap.keys m) -> JsMap.delete k (m ++ [(k, v)]) = m.
Proof.
  intro H. unfold JsMap.delete. rewrite filter_app. simpl.
  rewrite Nat.eqb_refl. simpl. rewrite app_nil_r.
  now apply map_delete_absent.
Qed.

Lemma subscribe_then_unsubscribe (c : Client) (chs : ChannelsArg)
  (callback : Callback) :
  consistent c ->
  let k := List.length (closures c) in
  let c' := step (Unsubscribe k) (step (Subscribe chs callback) c) in
  subscriptions (realtime c') = subscriptions (realtime c)
  /\ channels (realtime c') = channels (realtime c)
  /\ subscriptionsCounter (realtime c')
     = S (subscriptionsCounter (realtime c)).
Proof.
  intros [H1 H2 H3 H4 H5 H6] k.
  change (step (Subscribe chs callback) c)
    with (occur (Subscribe chs callback) c).
  pose proof (subscribe_view chs callback c) as Hv. cbv zeta in Hv.
  remember (occur (Subscribe chs callback) c) as c1 eqn:Ec1.
  destruct Hv as (Hch & Hs & Hn & Hcl).
  rewrite map_set_fresh in Hs by (intro Hk; apply H3 in Hk; lia).
  remember {| cl_counter := subscriptionsCounter (realtime c);
              cl_channels := channelArray chs |} as cl eqn:Ecl.
  assert (Hnth : nth_error (closures c1) k = Some cl).
  { rewrite Hcl, nth_error_app2 by (subst k; lia).
    subst k. now rewrite Nat.sub_diag. }
  assert (Hen : enabled (Unsubscribe k) c1 = true).
  { unfold enabled. apply Nat.ltb_lt. apply nth_error_Some.
    rewrite Hnth. discriminate. }
  assert (Hstep : step (Unsubscribe k) c1 = unsubscribe cl c1).
  { unfold step. rewrite Hen. unfold occur. now rewrite Hnth. }
  cbv zeta. rewrite Hstep.
  destruct (unsubscribe_fields cl c1) as (-> & -> & ->).
  rewrite Hs, Hch, Hn, Ecl. cbn [cl_counter cl_channels].
  rewrite delete_last_key by (intro Hk; apply H3 in Hk; lia).
  split; [reflexivity |]. split; [| reflexivity].
  destruct (add_all_appends (channelArray chs) (channels (realtime c)))
    as (extra & -> & Hextra).
  rewrite filter_app, filter_all, filter_none; [apply app_nil_r | |].
  - intros y Hy. destruct (Hextra y Hy) as [Hin Hnot].
    apply includes_In in Hin. rewrite Hin. simpl.
    destruct (found y (subscriptions (realtime c))) eqn:Hf; [| reflexivity].
    apply found_referenced, H2 in Hf. contradiction.
  - intros y Hy. apply H2, found_referenced in Hy. rewrite Hy.
    apply orb_true_r.
Qed.

(** X3: in any state a run reaches, subscribing and then invoking the
    closure just returned restores the subscriptions map and the channel
    set exactly, order included; only the handle counter has moved on. *)
Theorem subscribe_then_unsubscribe_restores
  (endpoint proj : string) (item : StoredItem) (parses : bool) (es : list Input)
  (chs : ChannelsArg) (callback : Callback) :
  let c := run es (fresh endpoint proj item parses) in
  let k := List.length (closures c) in
  let c' := step (Unsubscribe k) (step (Subscribe chs callback) c) in
  subscriptions (realtime c') = subscriptions (realtime c)
  /\ channels (realtime c') = channels (realtime c)
  /\ subscriptionsCounter (realtime c')
     = S (subscriptionsCounter (realtime c)).
Proof.
  intros c. apply subscribe_then_unsubscribe.
  apply run_consistent, fresh_consistent.
Qed.

(** ** The debounce timer *)

Lemma plain_growth_refl (c : Client) : plain_growth c c.
Proof.
  exists []. rewrite app_nil_r, Nat.add_0_r. repeat split. constructor.
Qed.

Lemma plain_growth_trans (c1 c2 c3 : Client) :
  plain_growth c1 c2 -> plain_growth c2 c3 -> plain_growth c1 c3.
Proof.
  intros (n1 & Ht1 & Ho1 & Hn1 & Hi1 & Hp1) (n2 & Ht2 & Ho2 & Hn2 & Hi2 & Hp2).
  exists (n1 ++ n2). rewrite Ht2, Ht1, Ho2, Ho1, Hn2, Hn1.
  rewrite length_app, map_app, seq_app, Hi1, Hi2, Hn1, <- app_assoc.
  repeat split; try lia. now apply Forall_app.
Qed.

Lemma setTimeout_growth (task : Task) (delay : N) (c : Client) :
  task <> ConnectTask -> plain_growth c (snd (setTimeout task delay c)).
Proof.
  intro H. eexists [_]. simpl. repeat split; [lia |].
  constructor; [| constructor]. unfold is_connect. simpl.
  now destruct task.
Qed.

Lemma createSocket_growth (c : Client) :
  plain_growth c (after (createSocket c)).
Proof.
  exists []. rewrite app_nil_r, Nat.add_0_r.
  createSocket_cases c; repeat split; constructor.
Qed.

Lemma update_socket_growth (id : nat) (f : WebSocket -> WebSocket) (c : Client) :
  plain_growth c (update_socket id f c).
Proof.
  exists []. rewrite app_nil_r, Nat.add_0_r. unfold update_socket.
  destruct (socket (realtime c)) as [ws |]; [destruct (has_id id ws) |];
    repeat split; constructor.
Qed.

Lemma onClose_growth (c : Client) : plain_growth c (after (onClose c)).
Proof.
  assert (Hflag : plain_growth c (with_realtime (set_reconnect true) c)).
  { exists []. rewrite app_nil_r, Nat.add_0_r. repeat split. constructor. }
  unfold onClose.
  destruct (negb (reconnect (realtime c))); [exact Hflag |].
  destruct (policy_violation (lastMessage (realtime c))) as [[|] |];
    unfold after; [exact Hflag | | apply plain_growth_refl].
  eapply plain_growth_trans; [| apply setTimeout_growth; discriminate].
  exists []. rewrite app_nil_r, Nat.add_0_r. repeat split. constructor.
Qed.

Lemma dispatch_growth (d : ResponseData) (chs : list string) (c : Client) :
  plain_growth c (dispatch d chs c).
Proof.
  unfold dispatch. generalize (subscriptions (realtime c)) as subs.
  intro subs. revert c.
  induction subs as [| kv subs IH]; intro c; simpl.
  - apply plain_growth_refl.
  - eapply plain_growth_trans; [| apply IH]. unfold notify.
    destruct (interested chs (snd kv));
      [apply setTimeout_growth; discriminate | apply plain_growth_refl].
Qed.

Lemma onMessage_growth (f : Frame) (c : Client) :
  match onMessage f c with
  | Normal c' | Throw _ c' => plain_growth c c'
  end.
Proof.
  assert (Hlast : forall m, plain_growth c
                    (with_realtime (set_lastMessage m) c)).
  { intro m. exists []. rewrite app_nil_r, Nat.add_0_r.
    repeat split. constructor. }
  assert (Hlog : forall e c0, plain_growth c c0 ->
                              plain_growth c (console_error e c0)).
  { intros e c0 H. eapply plain_growth_trans; [exact H |].
    exists []. rewrite app_nil_r, Nat.add_0_r. repeat split. constructor. }
  unfold onMessage. destruct f as [| message]; simpl.
  - apply Hlog, plain_growth_refl.
  - destruct (type message); simpl; auto.
    + destruct (data_channels (data message)) as [chs |]; auto.
      match goal with |- context [negb ?b] => destruct b end; simpl; auto.
      eapply plain_growth_trans; [apply Hlast | apply dispatch_growth].
    + destruct (parse_cookie (cookieFallback c)) as [cookie |]; simpl; auto.
      destruct (session_of cookie (project c)) as [s |]; auto.
      destruct (truthy s); auto.
      destruct (has_data (data message)); auto.
      destruct (no_user (data message)); auto.
      unfold send. simpl.
      destruct (socket (realtime c)) as [ws |]; auto.
      destruct (readyState ws); auto.
      eapply plain_growth_trans; [apply (Hlast (Some message)) |].
      exists []. rewrite app_nil_r, Nat.add_0_r. repeat split. constructor.
Qed.

Lemma distinct_keys_filter {A B : Type} (l : list A) (keep : A -> bool)
  (key : A -> B) :
  NoDup (map key l) -> NoDup (map key (filter keep l)).
Proof.
  intro H. induction l as [| x l IH]; simpl; [constructor |].
  simpl in H. inversion H as [| ? ? Hx Hl]; subst.
  destruct (keep x); simpl; auto. constructor; auto.
  intro Hin. apply Hx. apply in_map_iff in Hin.
  destruct Hin as (y & Hy & Hin). apply filter_In in Hin.
  apply in_map_iff. exists y. tauto.
Qed.

Lemma tidy_growth (c c' : Client) :
  timers_tidy c -> plain_growth c c' -> timers_tidy c'.
Proof.
  intros [H1 H2 H3 H4 H5] (new & Ht & Ho & Hn & Hi & Hp).
  assert (Hnew : forall t, In t new ->
                           next_timer c <= timer_id t < next_timer c').
  { intros t Hin. apply (in_map timer_id) in Hin. rewrite Hi in Hin.
    apply in_seq in Hin. lia. }
  rewrite Forall_forall in Hp.
  split; rewrite ?Ht, ?Ho.
  - intros t Hin. apply in_app_iff in Hin. destruct Hin as [Hin | Hin].
    + apply H1 in Hin. lia.
    + now apply Hnew.
  - intros id Hid. apply H2 in Hid. lia.
  - rewrite map_app. apply NoDup_app; [assumption | |].
    + rewrite Hi. apply seq_NoDup.
    + intros id Hold Hin. rewrite Hi in Hin. apply in_seq in Hin.
      apply in_map_iff in Hold. destruct Hold as (t & <- & Hold).
      apply H1 in Hold. lia.
  - intros t Hin. apply in_app_iff in Hin. destruct Hin as [Hin | Hin].
    + now apply H4.
    + rewrite (Hp t Hin). split; [discriminate |].
      intro Hid. apply H2 in Hid. apply Hnew in Hin. lia.
  - intros t Hin Hc. apply in_app_iff in Hin. destruct Hin as [Hin | Hin].
    + now apply H5.
    + rewrite (Hp t Hin) in Hc. discriminate.
Qed.

Lemma tidy_without (id : nat) (c : Client) :
  timers_tidy c -> timers_tidy (set_timers (without_timer id (timers c)) c).
Proof.
  intros [H1 H2 H3 H4 H5]. unfold without_timer.
  split; simpl; auto.
  - intros t Hin. apply filter_In in Hin. now apply H1.
  - now apply distinct_keys_filter.
  - intros t Hin. apply filter_In in Hin. now apply H4.
  - intros t Hin. apply filter_In in Hin. now apply H5.
Qed.

(** In a tidy state [clearTimeout] of the stored handle removes the
    connect timer and nothing else. *)
Lemma clear_removes_connect (c : Client) :
  timers_tidy c ->
  timers (clearTimeout (timeout (realtime c)) c)
  = filter (fun t => negb (is_connect t)) (timers c).
Proof.
  intros [H1 H2 H3 H4 H5]. unfold clearTimeout, without_timer.
  destruct (timeout (realtime c)) as [id |] eqn:Ho; simpl.
  - apply filter_ext_in. intros t Hin. f_equal.
    destruct (is_connect t) eqn:Hc.
    + apply (H4 t Hin) in Hc. inversion Hc; subst. apply Nat.eqb_refl.
    + apply Nat.eqb_neq. intros <-.
      assert (is_connect t = true) by now apply (H4 t Hin). congruence.
  - symmetry. apply filter_all. intros t Hin.
    destruct (is_connect t) eqn:Hc; [| reflexivity].
    apply (H4 t Hin) in Hc. discriminate.
Qed.

Lemma connect_timers (c : Client) :
  timers_tidy c ->
  timers (connect c)
  = filter (fun t => negb (is_connect t)) (timers c)
    ++ [{| timer_id := next_timer c; timer_delay := 50%N;
           timer_task := ConnectTask |}]
  /\ next_timer (connect c) = S (next_timer c)
  /\ timeout (realtime (connect c)) = Some (next_timer c).
Proof.
  intro H. rewrite <- (clear_removes_connect c H).
  unfold connect, setTimeout, clearTimeout.
  destruct (timeout (realtime c)); repeat split.
Qed.

Lemma tidy_connect (c : Client) : timers_tidy c -> timers_tidy (connect c).
Proof.
  intro H. destruct (connect_timers c H) as (Ht & Hn & Ho).
  destruct H as [H1 H2 H3 H4 H5].
  split; rewrite ?Ht, ?Hn, ?Ho.
  - intros t Hin. apply in_app_iff in Hin.
    destruct Hin as [Hin | [<- | []]]; simpl; [| lia].
    apply filter_In in Hin. destruct Hin as [Hin _].
    apply H1 in Hin. lia.
  - intros id Hid. inversion Hid. lia.
  - rewrite map_app. apply NoDup_app.
    + now apply distinct_keys_filter.
    + repeat constructor. simpl. tauto.
    + intros id Hold [<- | []]. apply in_map_iff in Hold.
      destruct Hold as (t & Hid & Hin). apply filter_In in Hin.
      destruct Hin as [Hin _]. apply H1 in Hin. simpl in Hid. lia.
  - intros t Hin. apply in_app_iff in Hin.
    destruct Hin as [Hin | [<- | []]]; simpl; [| now split].
    apply filter_In in Hin. destruct Hin as [Hin Hc].
    apply negb_true_iff in Hc. rewrite Hc. split; [discriminate |].
    intro Hid. inversion Hid. apply H1 in Hin. lia.
  - intros t Hin Hc. apply in_app_iff in Hin.
    destruct Hin as [Hin | [<- | []]]; [| reflexivity].
    apply filter_In in Hin. destruct Hin as [_ Hn'].
    rewrite Hc in Hn'. discriminate.
Qed.

Lemma tidy_realtime (f : Realtime -> Realtime) (c : Client) :
  (forall r, timeout (f r) = timeout r) ->
  timers_tidy c -> timers_tidy (with_realtime f c).
Proof.
  intros Hf H. apply (tidy_growth c); [assumption |].
  exists []. rewrite app_nil_r, Nat.add_0_r. simpl.
  repeat split; [apply Hf | constructor].
Qed.

Lemma step_tidy (e : Input) (c : Client) :
  timers_tidy c -> timers_tidy (step e c).
Proof.
  intro H. unfold step. destruct (enabled e c); [| assumption].
  destruct e as [chs cb | k | id | id | id f | id].
  - simpl. unfold subscribe. simpl.
    apply (tidy_growth
             (connect
                (with_realtime
                   (fun r => set_subscriptions
                               (JsMap.set (subscriptionsCounter r)
                                  {| sub_channels := channelArray chs;
                                     sub_callback := cb |}
                                  (subscriptions r))
                               (set_subscriptionsCounter
                                  (S (subscriptionsCounter r))
                                  (set_channels
                                     (fold_left
                                        (fun s channel => JsSet.add channel s)
                                        (channelArray chs) (channels r))
                                     r)))
                   c))).
    + apply tidy_connect, tidy_realtime; [reflexivity | assumption].
    + exists []. rewrite app_nil_r, Nat.add_0_r.
      unfold connect, clearTimeout, setTimeout. simpl.
      destruct (timeout (realtime c)); repeat split; constructor.
  - unfold occur.
    destruct (nth_error (closures c) k) as [cl |]; [| assumption].
    unfold unsubscribe. apply tidy_connect. rewrite cleanUp_filters.
    apply tidy_realtime; [reflexivity |].
    apply tidy_realtime; [reflexivity | assumption].
  - simpl. destruct (find _ (timers c)) as [t |]; [| assumption].
    pose proof (tidy_without id c H) as Hw.
    destruct (timer_task t); simpl.
    + eapply tidy_growth; [exact Hw | apply createSocket_growth].
    + eapply tidy_growth; [| apply createSocket_growth].
      apply tidy_realtime; [reflexivity | assumption].
    + eapply tidy_growth; [exact Hw |].
      exists []. rewrite app_nil_r, Nat.add_0_r. repeat split. constructor.
  - simpl. apply tidy_realtime; [reflexivity |].
    eapply tidy_growth; [exact H | apply update_socket_growth].
  - unfold occur. pose proof (onMessage_growth f c) as Hg.
    destruct (onMessage f c); eapply tidy_growth; eassumption.
  - simpl. eapply tidy_growth; [| apply onClose_growth].
    eapply tidy_growth; [exact H | apply update_socket_growth].
Qed.

Lemma run_tidy (es : list Input) :
  forall c, timers_tidy c -> timers_tidy (run es c).
Proof.
  induction es as [| e es IH]; intros c H; simpl; auto using step_tidy.
Qed.

Lemma fresh_tidy (endpoint proj : string) (item : StoredItem)
  (parses : bool) :
  timers_tidy (fresh endpoint proj item parses).
Proof.
  split; simpl; try tauto; try discriminate. constructor.
Qed.

Lemma at_most_one {A : Type} (f : A -> nat) (p : A -> bool) (l : list A)
  (k : nat) :
  NoDup (map f l) ->
  (forall x, In x l -> p x = true -> f x = k) ->
  List.length (filter p l) <= 1.
Proof.
  induction l as [| x l IH]; simpl; intros Hnd Hk; [lia |].
  inversion Hnd as [| ? ? Hx Hl]; subst.
  destruct (p x) eqn:Hp; [| apply IH; auto].
  rewrite filter_none; [simpl; lia |].
  intros y Hy. destruct (p y) eqn:Hpy; [| reflexivity].
  exfalso. apply Hx. apply in_map_iff. exists y. split; [| assumption].
  rewrite (Hk y), (Hk x); auto.
Qed.

(** X4: debouncing.  In every state a run reaches at most one timer set
    by [connect] is pending; it is the one [realtime.timeout] names and
    its delay is 50 ms.  [connect] replaces it by a new one and cancels no
    other timer. *)
Theorem connect_debounces
  (endpoint proj : string) (item : StoredItem) (parses : bool)
  (es : list Input) :
  let c := run es (fresh endpoint proj item parses) in
  List.length (filter is_connect (timers c)) <= 1
  /\ (forall t, In t (timers c) -> is_connect t = true ->
                timeout (realtime c) = Some (timer_id t)
                /\ timer_delay t = 50%N)
  /\ timers (connect c)
     = filter (fun t => negb (is_connect t)) (timers c)
       ++ [{| timer_id := next_timer c; timer_delay := 50%N;
              timer_task := ConnectTask |}].
Proof.
  intro c.
  assert (H : timers_tidy c) by (apply run_tidy, fresh_tidy).
  split; [| split].
  - destruct (timeout (realtime c)) as [id |] eqn:Ho.
    + apply (at_most_one timer_id is_connect (timers c) id).
      * apply (timer_ids_distinct c H).
      * intros t Hin Hc. apply (connect_timer_named c H t Hin) in Hc.
        rewrite Ho in Hc. now inversion Hc.
    + rewrite filter_none; [simpl; lia |].
      intros t Hin. destruct (is_connect t) eqn:Hc; [| reflexivity].
      apply (connect_timer_named c H t Hin) in Hc. congruence.
  - intros t Hin Hc. split.
    + now apply (connect_timer_named c H t Hin).
    + now apply (connect_timer_delay c H t Hin).
  - now apply connect_timers.
Qed.

(** ** One live socket *)

Lemma same_identities_refl (c : Client) : same_identities c c.
Proof. repeat split. Qed.

Lemma same_identities_trans (c1 c2 c3 : Client) :
  same_identities c1 c2 -> same_identities c2 c3 -> same_identities c1 c3.
Proof.
  unfold same_identities.
  intros (-> & -> & -> & -> & ->) (-> & -> & -> & -> & ->).
  repeat split.
Qed.

Lemma sockets_tidy_same (c c' : Client) :
  sockets_tidy c -> same_identities c c' -> sockets_tidy c'.
Proof.
  intros [H1 H2 H3 H4] (Hids & Hn & Hu & Hw & Hp).
  split; rewrite ?Hn, ?Hu, ?Hp.
  - intros ws Hin. apply (in_map ws_id) in Hin. rewrite Hids in Hin.
    apply in_map_iff in Hin. destruct Hin as (ws' & <- & Hin). now apply H1.
  - now rewrite Hids.
  - intros ws Hs. rewrite Hs in Hw. simpl in Hw.
    destruct (socket (realtime c)) as [ws0 |]; [| discriminate].
    inversion Hw as [Hurl]. rewrite Hurl. now apply H3.
  - intro Hno. rewrite (H4 Hno) in Hw.
    now destruct (socket (realtime c')).
Qed.

Lemma connect_identities (c : Client) : same_identities c (connect c).
Proof.
  unfold connect, clearTimeout, setTimeout, same_identities, sockets.
  destruct (timeout (realtime c)); repeat split.
Qed.

Lemma realtime_identities (f : Realtime -> Realtime) (c : Client) :
  (forall r, socket (f r) = socket r /\ url (f r) = url r) ->
  same_identities c (with_realtime f c).
Proof.
  intro Hf. destruct (Hf (realtime c)) as [Hs Hu].
  unfold same_identities, sockets. simpl. rewrite Hs, Hu. repeat split.
Qed.

Lemma dispatch_identities (d : ResponseData) (chs : list string) (c : Client) :
  same_identities c (dispatch d chs c).
Proof.
  unfold dispatch. generalize (subscriptions (realtime c)) as subs.
  intro subs. revert c.
  induction subs as [| kv subs IH]; intro c; simpl.
  - apply same_identities_refl.
  - eapply same_identities_trans; [| apply IH]. unfold notify.
    destruct (interested chs (snd kv)); repeat split.
Qed.

Lemma onClose_identities (c : Client) : same_identities c (after (onClose c)).
Proof.
  onClose_cases c; repeat split.
Qed.

Lemma onMessage_identities (f : Frame) (c : Client) :
  match onMessage f c with
  | Normal c' | Throw _ c' => same_identities c c'
  end.
Proof.
  unfold onMessage. destruct f as [| message]; simpl; [repeat split |].
  destruct (type message); simpl; try (repeat split; fail).
  - destruct (data_channels (data message)) as [chs |]; [| repeat split].
    match goal with |- context [negb ?b] => destruct b end; simpl;
      [| repeat split].
    eapply same_identities_trans; [| apply dispatch_identities].
    repeat split.
  - destruct (parse_cookie (cookieFallback c)) as [cookie |];
      [| repeat split].
    destruct (session_of cookie (project c)) as [s |]; [| repeat split].
    destruct (truthy s); [| repeat split].
    destruct (has_data (data message)); [| repeat split].
    destruct (no_user (data message)); [| repeat split].
    unfold send. simpl.
    destruct (socket (realtime c)) as [ws |] eqn:Hs; [| repeat split].
    destruct (readyState ws); try (repeat split; fail).
    unfold same_identities, sockets. simpl. rewrite Hs.
    rewrite !map_app. repeat split.
Qed.

Lemma update_first_ids (id : nat) (f : WebSocket -> WebSocket)
  (l : list WebSocket) :
  (forall ws, ws_id (f ws) = ws_id ws) ->
  map ws_id (update_first id f l) = map ws_id l.
Proof.
  intro Hf. induction l as [| ws l IH]; simpl; [reflexivity |].
  destruct (has_id id ws); simpl; [now rewrite Hf | now rewrite IH].
Qed.

Lemma update_socket_identities (id : nat) (s : ReadyState) (c : Client) :
  same_identities c (update_socket id (set_readyState s) c).
Proof.
  unfold update_socket, same_identities, sockets.
  destruct (socket (realtime c)) as [ws |] eqn:Hs;
    [destruct (has_id id ws) |]; simpl; rewrite ?Hs, ?map_app;
    rewrite ?update_first_ids by reflexivity; repeat split.
Qed.

(** What [createSocket] does to the sockets: nothing, or one more socket
    with the next identity, held and opened to the URL now stored; or,
    with no socket held, nothing but storing a URL the platform then
    rejects. *)
Lemma createSocket_identities (c : Client) :
  (url_parses c = false -> socket (realtime c) = None) ->
  same_identities c (after (createSocket c))
  \/ (map ws_id (sockets (after (createSocket c)))
      = map ws_id (sockets c) ++ [next_socket c]
      /\ next_socket (after (createSocket c)) = S (next_socket c)
      /\ url_parses c = true
      /\ url_parses (after (createSocket c)) = true
      /\ exists ws, socket (realtime (after (createSocket c))) = Some ws
                    /\ ws_url ws = url (realtime (after (createSocket c))))
  \/ (sockets (after (createSocket c)) = sockets c
      /\ next_socket (after (createSocket c)) = next_socket c
      /\ url_parses (after (createSocket c)) = false
      /\ socket (realtime (after (createSocket c))) = None).
Proof.
  intro Hnone. unfold createSocket.
  destruct (JsSet.size (channels (realtime c)) <? 1);
    [left; apply same_identities_refl |].
  destruct (must_open (socket_url c) (realtime c));
    [| left; apply same_identities_refl].
  right. unfold connecting_or_open, new_WebSocket, sockets, close.
  destruct (url_parses c) eqn:Hp.
  - left. destruct (socket (realtime c)) as [ws |] eqn:Hs.
    + destruct (readyState ws) eqn:Hst; simpl; rewrite ?Hp; simpl;
        rewrite ?Hs; simpl; rewrite ?Hst, !map_app; simpl;
        (split; [reflexivity | split; [reflexivity |]]);
        (split; [reflexivity | split; [assumption |]]);
        eexists; split; reflexivity.
    + simpl. rewrite Hp. simpl. rewrite Hs. simpl.
      rewrite !map_app, !app_nil_r. simpl.
      split; [reflexivity | split; [reflexivity |]].
      split; [reflexivity | split; [assumption |]].
      eexists; split; reflexivity.
  - right. rewrite (Hnone eq_refl). simpl. rewrite Hp. simpl.
    rewrite (Hnone eq_refl). repeat split; assumption.
Qed.

Lemma createSocket_tidy (c : Client) :
  sockets_tidy c -> sockets_tidy (after (createSocket c)).
Proof.
  intro H.
  destruct (createSocket_identities c (held_socket_parsed c H))
    as [Hsame | [(Hids & Hn & Hp & Hp' & ws & Hs & Hu)
                | (Hsock & Hn & Hp & Hs)]].
  - eapply sockets_tidy_same; eassumption.
  - destruct H as [H1 H2 H3 H4].
    assert (Hold : forall id, In id (map ws_id (sockets c)) ->
                              id < next_socket c).
    { intros id Hin. apply in_map_iff in Hin.
      destruct Hin as (w & <- & Hin). now apply H1. }
    split; rewrite ?Hn.
    + intros w Hin. apply (in_map ws_id) in Hin. rewrite Hids in Hin.
      apply in_app_iff in Hin. destruct Hin as [Hin | [<- | []]]; [| lia].
      apply Hold in Hin. lia.
    + rewrite Hids. apply NoDup_app; [assumption | |].
      * repeat constructor. simpl. tauto.
      * intros id Hin [<- | []]. apply Hold in Hin. lia.
    + intros w Hw. rewrite Hs in Hw. now inversion Hw; subst.
    + congruence.
  - destruct H as [H1 H2 H3 H4].
    split; rewrite ?Hn, ?Hsock; try assumption.
    + intros w Hw. congruence.
    + intros _. exact Hs.
Qed.

Lemma step_sockets_tidy (e : Input) (c : Client) :
  sockets_tidy c -> sockets_tidy (step e c).
Proof.
  intro H. unfold step. destruct (enabled e c); [| assumption].
  destruct e as [chs cb | k | id | id | id f | id].
  - simpl. unfold subscribe. simpl.
    eapply sockets_tidy_same; [exact H |].
    unfold same_identities, sockets, connect, clearTimeout, setTimeout.
    simpl. destruct (timeout (realtime c)); repeat split.
  - unfold occur.
    destruct (nth_error (closures c) k) as [cl |]; [| assumption].
    unfold unsubscribe. rewrite cleanUp_filters.
    eapply sockets_tidy_same; [exact H |].
    eapply same_identities_trans; [| apply connect_identities].
    repeat split.
  - simpl. destruct (find _ (timers c)) as [t |]; [| assumption].
    assert (Hw : sockets_tidy (set_timers (without_timer id (timers c)) c))
      by (eapply sockets_tidy_same; [exact H | repeat split]).
    destruct (timer_task t); simpl.
    + now apply createSocket_tidy.
    + apply createSocket_tidy.
      eapply sockets_tidy_same; [exact Hw | repeat split].
    + eapply sockets_tidy_same; [exact Hw | repeat split].
  - simpl. eapply sockets_tidy_same; [exact H |].
    eapply same_identities_trans; [apply update_socket_identities |].
    repeat split.
  - unfold occur. pose proof (onMessage_identities f c) as Hg.
    destruct (onMessage f c); eapply sockets_tidy_same; eassumption.
  - simpl. eapply sockets_tidy_same; [exact H |].
    eapply same_identities_trans;
      [apply update_socket_identities | apply onClose_identities].
Qed.

Lemma run_sockets_tidy (es : list Input) :
  forall c, sockets_tidy c -> sockets_tidy (run es c).
Proof.
  induction es as [| e es IH]; intros c H; simpl;
    auto using step_sockets_tidy.
Qed.

Lemma fresh_sockets_tidy (endpoint proj : string) (item : StoredItem)
  (parses : bool) :
  sockets_tidy (fresh endpoint proj item parses).
Proof.
  split; simpl; try tauto; try discriminate. constructor.
Qed.


(** ** Replacing a live socket *)

Lemma find_app_none {A : Type} (p : A -> bool) (l1 l2 : list A) :
  (forall x, In x l1 -> p x = false) ->
  find p (l1 ++ l2) = find p l2.
Proof.
  induction l1 as [| x l1 IH]; simpl; intro H; [reflexivity |].
  rewrite H by now left. apply IH. intros y Hy. apply H. now right.
Qed.

Lemma update_first_app_none (id : nat) (f : WebSocket -> WebSocket)
  (l1 l2 : list WebSocket) :
  (forall x, In x l1 -> has_id id x = false) ->
  update_first id f (l1 ++ l2) = l1 ++ update_first id f l2.
Proof.
  induction l1 as [| x l1 IH]; simpl; intro H; [reflexivity |].
  rewrite H by now left. f_equal. apply IH. intros y Hy. apply H. now right.
Qed.

Lemma createSocket_replaces (c : Client) (ws : WebSocket) :
  socket (realtime c) = Some ws ->
  readyState ws = CONNECTING \/ readyState ws = OPEN ->
  next_socket (after (createSocket c)) = S (next_socket c) ->
  reconnect (realtime (after (createSocket c))) = false
  /\ detached (after (createSocket c))
     = detached c ++ [set_readyState CLOSING ws].
Proof.
  intros Hs Hst. unfold createSocket, new_WebSocket.
  destruct (JsSet.size (channels (realtime c)) <? 1);
    [intro H; exfalso; eapply n_Sn; exact H |].
  destruct (must_open (socket_url c) (realtime c));
    [| intro H; exfalso; eapply n_Sn; exact H].
  unfold connecting_or_open, close. rewrite Hs.
  destruct Hst as [Hst | Hst]; rewrite Hst; simpl;
    (destruct (url_parses c); simpl;
     [| intro H; exfalso; eapply n_Sn; exact H]);
    rewrite Hs; simpl; rewrite Hst; now split.
Qed.

(** A socket the client no longer holds is found by its identity. *)
Lemma find_detached (c : Client) (w : WebSocket) :
  sockets_tidy c -> In w (detached c) ->
  find_socket (ws_id w) c = Some w
  /\ forall held, socket (realtime c) = Some held ->
                  has_id (ws_id w) held = false.
Proof.
  intros [_ Hnd _ _] Hin. unfold sockets in Hnd.
  assert (Hheld : forall held, socket (realtime c) = Some held ->
                               has_id (ws_id w) held = false).
  { intros held Hs. rewrite Hs, map_app in Hnd. simpl in Hnd.
    apply NoDup_remove_2 in Hnd. rewrite app_nil_r in Hnd.
    unfold has_id. apply Nat.eqb_neq. intro Heq. apply Hnd.
    rewrite Heq. now apply in_map. }
  split; [| exact Hheld].
  assert (Hfind : find (has_id (ws_id w)) (detached c) = Some w).
  { rewrite map_app in Hnd. apply NoDup_app_remove_r in Hnd.
    clear Hheld. induction (detached c) as [| x l IH]; [contradiction |].
    simpl in *. inversion Hnd as [| ? ? Hx Hl]; subst.
    destruct Hin as [-> | Hin].
    - unfold has_id. now rewrite Nat.eqb_refl.
    - destruct (has_id (ws_id w) x) eqn:E; [| now apply IH].
      exfalso. apply Hx. unfold has_id in E. apply Nat.eqb_eq in E.
      rewrite E. now apply in_map. }
  unfold find_socket.
  destruct (socket (realtime c)) as [held |] eqn:Hs; [| exact Hfind].
  now rewrite (Hheld held eq_refl).
Qed.

Lemma find_updated (id : nat) (s : ReadyState) (l : list WebSocket) :
  find (has_id id) (update_first id (set_readyState s) l)
  = option_map (set_readyState s) (find (has_id id) l).
Proof.
  induction l as [| x l IH]; simpl; [reflexivity |].
  destruct (has_id id x) eqn:E; simpl.
  - unfold has_id in *. simpl. now rewrite E.
  - now rewrite E.
Qed.

Lemma createSocket_flag (c : Client) :
  reconnect (realtime c) = false ->
  reconnect (realtime (after (createSocket c))) = false.
Proof. intro H. createSocket_cases c; auto. Qed.

Lemma createSocket_detached (c : Client) (w : WebSocket) :
  In w (detached c) -> In w (detached (after (createSocket c))).
Proof.
  intro H. createSocket_cases c; auto; apply in_app_iff; now left.
Qed.

Lemma dispatch_flag (d : ResponseData) (chs : list string) (c : Client) :
  reconnect (realtime (dispatch d chs c)) = reconnect (realtime c).
Proof.
  unfold dispatch. generalize (subscriptions (realtime c)) as subs.
  intro subs. revert c.
  induction subs as [| kv subs IH]; intro c; simpl; [reflexivity |].
  rewrite IH. unfold notify. destruct (interested chs (snd kv)); reflexivity.
Qed.

Lemma onMessage_flag (f : Frame) (c : Client) :
  match onMessage f c with
  | Normal c' | Throw _ c' => reconnect (realtime c') = reconnect (realtime c)
  end.
Proof.
  unfold onMessage. destruct f as [| message]; simpl; [reflexivity |].
  destruct (type message); simpl; try reflexivity.
  - destruct (data_channels (data message)) as [chs |]; [| reflexivity].
    match goal with |- context [negb ?b] => destruct b end; simpl;
      [| reflexivity].
    now rewrite dispatch_flag.
  - destruct (parse_cookie (cookieFallback c)) as [cookie |];
      [| reflexivity].
    destruct (session_of cookie (project c)) as [s |]; [| reflexivity].
    destruct (truthy s); [| reflexivity].
    destruct (has_data (data message)); [| reflexivity].
    destruct (no_user (data message)); [| reflexivity].
    unfold send. simpl.
    destruct (socket (realtime c)) as [ws |]; [| reflexivity].
    destruct (readyState ws); reflexivity.
Qed.

(** Until a close event arrives the suppression stays armed and the
    sockets let go stay where they are. *)
Lemma step_keeps_replaced (e : Input) (c : Client) (w : WebSocket) :
  closes_nothing e = true ->
  detached_settled c ->
  reconnect (realtime c) = false ->
  In w (detached c) ->
  reconnect (realtime (step e c)) = false /\ In w (detached (step e c)).
Proof.
  intros He Hd Hr Hin. unfold step.
  destruct (enabled e c) eqn:Hen; [| now split].
  destruct e as [chs cb | k | id | id | id f | id]; try discriminate He.
  - simpl. unfold subscribe, connect, clearTimeout, setTimeout. simpl.
    destruct (timeout (realtime c)); now split.
  - unfold occur.
    destruct (nth_error (closures c) k) as [cl |]; [| now split].
    unfold unsubscribe.
    match goal with |- context [cleanUp ?l ?c0] =>
      destruct (cleanUp_spec l c0) as [s [-> _]]
    end.
    unfold connect, clearTimeout, setTimeout. simpl.
    destruct (timeout (realtime c)); now split.
  - simpl. destruct (find _ (timers c)) as [t |]; [| now split].
    destruct (timer_task t); simpl; [| | now split];
      (split; [apply createSocket_flag | apply createSocket_detached]);
      assumption.
  - simpl in *.
    destruct (find_socket id c) as [ws |] eqn:Hf; [| discriminate].
    destruct (readyState ws) eqn:Hst; try discriminate.
    destruct (live_socket_is_held id c ws Hd Hf) as [Hs Hid]; [now left |].
    unfold update_socket. rewrite Hs, Hid. now split.
  - unfold occur. pose proof (onMessage_flag f c) as Hflag.
    pose proof (onMessage_detached f c) as Hdet.
    destruct (onMessage f c); rewrite Hflag, Hdet; now split.
Qed.

Lemma run_keeps_replaced (between : list Input) (w : WebSocket) :
  forallb closes_nothing between = true ->
  forall c,
    detached_settled c ->
    reconnect (realtime c) = false ->
    In w (detached c) ->
    reconnect (realtime (run between c)) = false
    /\ In w (detached (run between c)).
Proof.
  induction between as [| e between IH]; intros Hb c Hd Hr Hin;
    [now split |].
  simpl in Hb. apply andb_true_iff in Hb. destruct Hb as [He Hb].
  destruct (step_keeps_replaced e c w He Hd Hr Hin) as [Hr' Hin'].
  simpl. apply IH; auto using step_settled.
Qed.

(** The close event of a closing socket the client let go, arriving
    with [reconnect] false. *)
Lemma close_of_replaced (c : Client) (w : WebSocket) :
  sockets_tidy c ->
  In w (detached c) ->
  readyState w = CLOSING ->
  reconnect (realtime c) = false ->
  let c' := step (SocketCloses (ws_id w)) c in
  find_socket (ws_id w) c' = Some (set_readyState CLOSED w)
  /\ timers c' = timers c
  /\ console c' = console c
  /\ reconnect (realtime c') = true.
Proof.
  intros Ht Hin Hst Hr c'. subst c'.
  destruct (find_detached c w Ht Hin) as [Hf Hheld].
  unfold step, enabled. rewrite Hf, Hst. simpl.
  assert (Hu : update_socket (ws_id w) (set_readyState CLOSED) c
               = set_detached
                   (update_first (ws_id w) (set_readyState CLOSED)
                                 (detached c)) c).
  { unfold update_socket.
    destruct (socket (realtime c)) as [held |]; [| reflexivity].
    now rewrite (Hheld held eq_refl). }
  rewrite Hu. unfold onClose. simpl. rewrite Hr. simpl.
  split; [| now repeat split].
  unfold find_socket in *. simpl.
  destruct (socket (realtime c)) as [held |].
  - rewrite (Hheld held eq_refl) in *. rewrite find_updated, Hf. reflexivity.
  - rewrite find_updated, Hf. reflexivity.
Qed.

(** X6: when [createSocket] replaces a socket that is connecting or open,
    it leaves [reconnect] false and that socket closing.  Whatever
    happens next short of a close event, [reconnect] stays false and the
    socket stays closing; when the next close event is that socket's, it
    schedules no timer, logs nothing, and sets [reconnect] back to
    true. *)
Theorem replaced_socket_closes_silently
  (endpoint proj : string) (item : StoredItem) (parses : bool)
  (es between : list Input) (ws : WebSocket) :
  let c := run es (fresh endpoint proj item parses) in
  socket (realtime c) = Some ws ->
  readyState ws = CONNECTING \/ readyState ws = OPEN ->
  next_socket (after (createSocket c)) = S (next_socket c) ->
  forallb closes_nothing between = true ->
  let c1 := after (createSocket c) in
  let c2 := run between c1 in
  let c3 := step (SocketCloses (ws_id ws)) c2 in
  reconnect (realtime c1) = false
  /\ find_socket (ws_id ws) c1 = Some (set_readyState CLOSING ws)
  /\ reconnect (realtime c2) = false
  /\ find_socket (ws_id ws) c2 = Some (set_readyState CLOSING ws)
  /\ find_socket (ws_id ws) c3 = Some (set_readyState CLOSED ws)
  /\ timers c3 = timers c2
  /\ console c3 = console c2
  /\ reconnect (realtime c3) = true.
Proof.
  intros c Hs Hst Hnew Hbetween c1 c2 c3.
  assert (Htidy : sockets_tidy c)
    by apply run_sockets_tidy, fresh_sockets_tidy.
  assert (Hsettled : detached_settled c)
    by (apply run_settled; constructor).
  assert (Htidy1 : sockets_tidy c1) by now apply createSocket_tidy.
  assert (Hsettled1 : detached_settled c1) by now apply createSocket_settled.
  destruct (createSocket_replaces c ws Hs Hst Hnew) as [Hr1 Hd1].
  fold c1 in Hr1, Hd1.
  set (w := set_readyState CLOSING ws) in *.
  assert (Hin1 : In w (detached c1))
    by (rewrite Hd1; apply in_app_iff; right; now left).
  destruct (run_keeps_replaced between w Hbetween c1 Hsettled1 Hr1 Hin1)
    as [Hr2 Hin2].
  fold c2 in Hr2, Hin2.
  assert (Htidy2 : sockets_tidy c2) by now apply run_sockets_tidy.
  destruct (close_of_replaced c2 w Htidy2 Hin2 eq_refl Hr2)
    as (Hf3 & Ht3 & Hc3 & Hr3).
  change (ws_id w) with (ws_id ws) in *.
  split; [exact Hr1 |].
  split; [exact (proj1 (find_detached c1 w Htidy1 Hin1)) |].
  split; [exact Hr2 |].
  split; [exact (proj1 (find_detached c2 w Htidy2 Hin2)) |].
  split; [exact Hf3 |]. now repeat split.
Qed.

(** The theorem at a client whose open socket is replaced after a second
    subscription; a third subscription and the opening of the new socket
    come before the close of the old one. *)
Lemma replaced_socket_closes_silently_witness :
  let c := run [Subscribe (One "files") 1; TimerFires 1; SocketOpens 0;
                Subscribe (One "account") 2]
               (fresh "wss://host/v1" "p" Absent true) in
  let c1 := after (createSocket c) in
  let c2 := run [SocketOpens 1; Subscribe (One "teams") 3] c1 in
  let c3 := step (SocketCloses 0) c2 in
  reconnect (realtime c2) = false
  /\ timers c3 = timers c2
  /\ reconnect (realtime c3) = true.
Proof.
  intros c c1 c2 c3.
  destruct (replaced_socket_closes_silently
              "wss://host/v1" "p" Absent true
              [Subscribe (One "files") 1; TimerFires 1; SocketOpens 0;
               Subscribe (One "account") 2]
              [SocketOpens 1; Subscribe (One "teams") 3]
              {| ws_id := 0;
                 ws_url := "wss://host/v1/realtime?project=p&channels%5B%5D=files";
                 readyState := OPEN; ws_sent := [] |})
    as (_ & _ & Hr2 & _ & _ & Ht & _ & Hr3);
    [vm_compute; reflexivity | right; reflexivity | vm_compute; reflexivity
    | reflexivity |].
  split; [exact Hr2 |]. split; [exact Ht | exact Hr3].
Defined.

(** ** The attempt counter and the last message *)

Lemma dispatch_reconnectAttempts (d : ResponseData) (chs : list string)
  (c : Client) :
  reconnectAttempts (realtime (dispatch d chs c))
  = reconnectAttempts (realtime c).
Proof.
  unfold dispatch. generalize (subscriptions (realtime c)) as subs.
  intro subs. revert c.
  induction subs as [| kv subs IH]; intro c; simpl; [reflexivity |].
  rewrite IH. unfold notify. destruct (interested chs (snd kv)); reflexivity.
Qed.

Lemma step_reconnectAttempts (e : Input) (c : Client) (n : nat) :
  reconnectAttempts (realtime c) = n ->
  reconnectAttempts (realtime (step e c))
  = if enabled e c then
      match e with
      | SocketOpens _ => 0
      | TimerFires id =>
          match find (fun t => timer_id t =? id) (timers c) with
          | Some t =>
              match timer_task t with
              | ReconnectTask => S n
              | _ => n
              end
          | None => n
          end
      | _ => n
      end
    else n.
Proof.
  intros <-. unfold step. destruct (enabled e c); [| reflexivity].
  destruct e as [chs cb | k | id | id | id f | id].
  - simpl. unfold subscribe, connect, clearTimeout, setTimeout. simpl.
    destruct (timeout (realtime c)); reflexivity.
  - unfold occur.
    destruct (nth_error (closures c) k) as [cl |]; [| reflexivity].
    unfold unsubscribe. rewrite cleanUp_filters.
    unfold connect, clearTimeout, setTimeout. simpl.
    destruct (timeout (realtime c)); reflexivity.
  - simpl. destruct (find _ (timers c)) as [t |]; [| reflexivity].
    destruct (timer_task t); simpl;
      rewrite ?createSocket_reconnectAttempts; reflexivity.
  - reflexivity.
  - unfold occur, onMessage. destruct f as [| message]; simpl;
      [reflexivity |].
    destruct (type message); simpl; try reflexivity.
    + destruct (data_channels (data message)) as [chs |]; [| reflexivity].
      match goal with |- context [negb ?b] => destruct b end; simpl;
        [| reflexivity].
      now rewrite dispatch_reconnectAttempts.
    + destruct (parse_cookie (cookieFallback c)) as [cookie |];
        [| reflexivity].
      destruct (session_of cookie (project c)) as [s |]; [| reflexivity].
      destruct (truthy s); [| reflexivity].
      destruct (has_data (data message)); [| reflexivity].
      destruct (no_user (data message)); [| reflexivity].
      unfold send. simpl.
      destruct (socket (realtime c)) as [ws |]; [| reflexivity].
      destruct (readyState ws); reflexivity.
  - simpl.
    destruct (update_socket_frame id (set_readyState CLOSED) c)
      as (_ & _ & _ & Ha & _).
    rewrite <- Ha.
    generalize (update_socket id (set_readyState CLOSED) c) as closed.
    intro closed. onClose_cases closed; reflexivity.
Qed.

Lemma run_reconnectAttempts (es : list Input) :
  forall c,
    reconnectAttempts (realtime (run es c))
    = attempts_since_open es c (reconnectAttempts (realtime c)).
Proof.
  induction es as [| e es IH]; intro c; simpl; [reflexivity |].
  rewrite IH. f_equal. now apply step_reconnectAttempts.
Qed.

(** X7: [reconnectAttempts] is the number of reconnect timers that fired
    since a socket last opened; nothing else changes it. *)
Theorem reconnectAttempts_counts_since_open
  (endpoint proj : string) (item : StoredItem) (parses : bool)
  (es : list Input) :
  reconnectAttempts (realtime (run es (fresh endpoint proj item parses)))
  = attempts_since_open es (fresh endpoint proj item parses) 0.
Proof. apply (run_reconnectAttempts es (fresh endpoint proj item parses)). Qed.

(** X8: [lastMessage] is the message of the latest frame that was
    delivered and parsed, whatever its kind and whatever the handler did
    with it; it is [undefined] until one is. *)
Theorem lastMessage_is_latest_parsed
  (endpoint proj : string) (item : StoredItem) (parses : bool)
  (es : list Input) :
  lastMessage (realtime (run es (fresh endpoint proj item parses)))
  = latest_parsed es (fresh endpoint proj item parses) None.
Proof. apply lastMessage_latest. Qed.

(** ** Timers that survive (un)subscribing *)

Lemma subscribe_timers (chs : ChannelsArg) (callback : Callback) (c : Client) :
  timers (occur (Subscribe chs callback) c) = timers (connect c).
Proof.
  simpl. unfold subscribe, connect, clearTimeout, setTimeout. simpl.
  destruct (timeout (realtime c)); reflexivity.
Qed.

Lemma unsubscribe_timers (cl : Closure) (c : Client) :
  timers (unsubscribe cl c) = timers (connect c).
Proof.
  unfold unsubscribe. rewrite cleanUp_filters.
  unfold connect, clearTimeout, setTimeout. simpl.
  destruct (timeout (realtime c)); reflexivity.
Qed.

Lemma connect_keeps_others (c : Client) :
  timers_tidy c ->
  filter (fun t => negb (is_connect t)) (timers (connect c))
  = filter (fun t => negb (is_connect t)) (timers c).
Proof.
  intro H. destruct (connect_timers c H) as (-> & _).
  rewrite filter_app. simpl. rewrite app_nil_r.
  apply filter_all. intros t Hin. now apply filter_In in Hin.
Qed.

(** X9: subscribing or invoking an unsubscribe closure retracts nothing
    that is already scheduled: the pending reconnect timers and the
    pending callback invocations, also those for the subscription being
    removed, are the same after the call as before. *)
Theorem scheduled_work_survives
  (endpoint proj : string) (item : StoredItem) (parses : bool)
  (es : list Input) :
  let c := run es (fresh endpoint proj item parses) in
  (forall chs callback,
     filter (fun t => negb (is_connect t))
            (timers (step (Subscribe chs callback) c))
     = filter (fun t => negb (is_connect t)) (timers c))
  /\ (forall k,
        filter (fun t => negb (is_connect t)) (timers (step (Unsubscribe k) c))
        = filter (fun t => negb (is_connect t)) (timers c)).
Proof.
  intro c.
  assert (H : timers_tidy c) by (apply run_tidy, fresh_tidy).
  split.
  - intros chs callback.
    change (step (Subscribe chs callback) c)
      with (occur (Subscribe chs callback) c).
    rewrite subscribe_timers. now apply connect_keeps_others.
  - intro k. unfold step. destruct (enabled (Unsubscribe k) c); [| reflexivity].
    unfold occur. destruct (nth_error (closures c) k) as [cl |];
      [| reflexivity].
    rewrite unsubscribe_timers. now apply connect_keeps_others.
Qed.

(** * Properties of the rest of the client *)

(** ** Objects *)

Section ObjectFacts.
Context {V : Type}.
Implicit Types (o : JsObject.t V) (k : string) (v : V).

Lemma get_absent k o : JsObject.has k o = false -> JsObject.get k o = None.
Proof.
  induction o as [| [k' v'] o IH]; simpl; [reflexivity |].
  destruct (String.eqb k' k); simpl; [discriminate | exact IH].
Qed.

Lemma get_overwrite_same k v o :
  JsObject.has k o = true -> JsObject.get k (JsObject.overwrite k v o) = Some v.
Proof.
  induction o as [| [k' v'] o IH]; simpl; [discriminate |].
  destruct (String.eqb k' k) eqn:E; simpl.
  - now rewrite String.eqb_refl.
  - now rewrite E.
Qed.

Lemma get_overwrite_other k k' v o :
  k' <> k -> JsObject.get k' (JsObject.overwrite k v o) = JsObject.get k' o.
Proof.
  intro Hne. induction o as [| [k0 v0] o IH]; simpl; [reflexivity |].
  destruct (String.eqb_spec k0 k) as [-> | H0]; simpl.
  - apply String.eqb_neq in Hne. rewrite String.eqb_sym in Hne.
    now rewrite Hne.
  - now rewrite IH.
Qed.

Lemma get_insert_same n k v o :
  JsObject.has k o = false ->
  JsObject.get k (JsObject.insert_index n k v o) = Some v.
Proof.
  induction o as [| [k' v'] o IH]; simpl.
  - now rewrite String.eqb_refl.
  - destruct (String.eqb k' k) eqn:E; simpl; [discriminate |]. intro H.
    destruct (JsObject.array_index k') as [m |];
      [destruct (m <? n)%N |]; simpl;
      rewrite ?String.eqb_refl, ?E; auto.
Qed.

Lemma get_insert_other n k k' v o :
  k' <> k ->
  JsObject.get k' (JsObject.insert_index n k v o) = JsObject.get k' o.
Proof.
  intro Hne. apply String.eqb_neq in Hne. rewrite String.eqb_sym in Hne.
  induction o as [| [k0 v0] o IH]; simpl.
  - now rewrite Hne.
  - destruct (JsObject.array_index k0) as [m |];
      [destruct (m <? n)%N |]; simpl; rewrite ?Hne, ?IH; reflexivity.
Qed.

Lemma get_append_same k v o :
  JsObject.has k o = false -> JsObject.get k (o ++ [(k, v)]) = Some v.
Proof.
  induction o as [| [k' v'] o IH]; simpl.
  - now rewrite String.eqb_refl.
  - destruct (String.eqb k' k); simpl; [discriminate | exact IH].
Qed.

Lemma get_append_other k k' v o :
  k' <> k -> JsObject.get k' (o ++ [(k, v)]) = JsObject.get k' o.
Proof.
  intro Hne. apply String.eqb_neq in Hne. rewrite String.eqb_sym in Hne.
  induction o as [| [k0 v0] o IH]; simpl.
  - now rewrite Hne.
  - now rewrite IH.
Qed.

(** Reading back what was written, and what was not touched. *)
Lemma get_set_same k v o : JsObject.get k (JsObject.set k v o) = Some v.
Proof.
  unfold JsObject.set. destruct (JsObject.has k o) eqn:E.
  - now apply get_overwrite_same.
  - destruct (JsObject.array_index k).
    + now apply get_insert_same.
    + now apply get_append_same.
Qed.

Lemma get_set_other k k' v o :
  k' <> k -> JsObject.get k' (JsObject.set k v o) = JsObject.get k' o.
Proof.
  intro Hne. unfold JsObject.set. destruct (JsObject.has k o).
  - now apply get_overwrite_other.
  - destruct (JsObject.array_index k).
    + now apply get_insert_other.
    + now apply get_append_other.
Qed.

End ObjectFacts.

(** ** The setters *)

Lemma replace_nonempty (pattern replacement s : string) :
  s <> "" -> replacement <> "" -> replace pattern replacement s <> "".
Proof.
  intros Hs Hr Habs. destruct s as [| a s]; [contradiction |].
  cbn [replace] in Habs.
  destruct (String.prefix pattern (String a s)); [| discriminate Habs].
  destruct replacement; [contradiction | discriminate Habs].
Qed.

Lemma derived_nonempty (e : string) : e <> "" -> Settings.derived e <> "".
Proof.
  intro H. unfold Settings.derived.
  apply replace_nonempty; [| discriminate].
  apply replace_nonempty; [assumption | discriminate].
Qed.

Lemma or_else_nonempty (a b : string) : a <> "" -> Settings.or_else a b = a.
Proof. destruct a; [contradiction | reflexivity]. Qed.

Lemma chain_keeps_realtime (calls : list Settings.Setter) :
  forall s,
    Settings.endpointRealtime (Settings.config s) <> "" ->
    forallb (fun call => negb (Settings.sets_realtime call)) calls = true ->
    Settings.endpointRealtime (Settings.config (Settings.chain calls s))
    = Settings.endpointRealtime (Settings.config s).
Proof.
  induction calls as [| call calls IH]; intros s Hs Hc; simpl in *;
    [reflexivity |].
  apply andb_true_iff in Hc. destruct Hc as [Hcall Hcalls].
  assert (Hstep : Settings.endpointRealtime
                    (Settings.config (Settings.apply call s))
                  = Settings.endpointRealtime (Settings.config s)).
  { destruct call; simpl in *; try reflexivity; try discriminate.
    now apply or_else_nonempty. }
  unfold Settings.chain in IH. rewrite IH; rewrite ?Hstep; auto.
Qed.

(** X10: the realtime endpoint is derived once.  After a first
    [setEndpoint] with a non-empty endpoint, later calls of [setEndpoint]
    (and of the project, JWT and locale setters) leave the realtime
    endpoint at what the first endpoint gave; only [setEndpointRealtime]
    moves it. *)
Theorem realtime_endpoint_sticks (e : string) (later : list Settings.Setter) :
  e <> "" ->
  forallb (fun call => negb (Settings.sets_realtime call)) later = true ->
  Settings.endpointRealtime
    (Settings.config
       (Settings.chain (Settings.SetEndpoint e :: later) Settings.initial))
  = Settings.derived e.
Proof.
  intros He Hlater. simpl.
  fold (Settings.chain later (Settings.setEndpoint e Settings.initial)).
  rewrite chain_keeps_realtime; [reflexivity | | assumption].
  simpl. now apply derived_nonempty.
Qed.

(** The theorem at two chained [setEndpoint] calls. *)
Lemma realtime_endpoint_sticks_witness :
  Settings.endpointRealtime
    (Settings.config
       (Settings.chain
          [Settings.SetEndpoint "https://a.example/v1";
           Settings.SetProject "p";
           Settings.SetEndpoint "http://b.example/v1"]
          Settings.initial))
  = "wss://a.example/v1".
Proof.
  apply (realtime_endpoint_sticks "https://a.example/v1"
           [Settings.SetProject "p";
            Settings.SetEndpoint "http://b.example/v1"]);
    [discriminate | reflexivity].
Defined.

Lemma replace_absent (pattern replacement s : string) :
  Settings.occurs_in pattern s = false -> replace pattern replacement s = s.
Proof.
  induction s as [| a s IH]; simpl; intro H;
    apply orb_false_iff in H; destruct H as [Hp Hs]; rewrite Hp.
  - reflexivity.
  - now rewrite IH.
Qed.

Lemma prefix_app (p rest : string) : String.prefix p (p ++ rest) = true.
Proof.
  induction p as [| a p IH]; simpl; [now destruct rest |].
  destruct (ascii_dec a a); [exact IH | contradiction].
Qed.

Lemma drop_app (p rest : string) : drop (String.length p) (p ++ rest) = rest.
Proof. induction p as [| a p IH]; simpl; [reflexivity | exact IH]. Qed.

Lemma replace_at_head (p replacement rest : string) :
  replace p replacement (p ++ rest) = (replacement ++ rest)%string.
Proof.
  assert (H : forall s, replace p replacement s
                        = if String.prefix p s
                          then (replacement ++ drop (String.length p) s)%string
                          else match s with
                               | EmptyString => EmptyString
                               | String a r => String a (replace p replacement r)
                               end)
    by (intros []; reflexivity).
  now rewrite H, prefix_app, drop_app.
Qed.

(** X11: with no realtime endpoint set yet, [setEndpoint] turns a leading
    [https://] into [wss://] and a leading [http://] into [ws://], and an
    endpoint with neither scheme in it is taken as it is (the rest is
    assumed free of both scheme texts, which [replace] would rewrite
    too). *)
Theorem setEndpoint_derives_scheme (rest : string) (s : Settings.t) :
  Settings.endpointRealtime (Settings.config s) = "" ->
  Settings.occurs_in "http://" rest = false ->
  Settings.occurs_in "https://" rest = false ->
  let realtime_of e :=
    Settings.endpointRealtime (Settings.config (Settings.setEndpoint e s)) in
  realtime_of ("https://" ++ rest)%string = ("wss://" ++ rest)%string
  /\ realtime_of ("http://" ++ rest)%string = ("ws://" ++ rest)%string
  /\ realtime_of rest = rest.
Proof.
  intros Hs H1 H2 realtime_of.
  assert (Hd : forall e, realtime_of e = Settings.derived e)
    by (intro e; subst realtime_of; simpl; now rewrite Hs).
  rewrite !Hd. unfold Settings.derived. split; [| split].
  - rewrite replace_at_head. cbn. now rewrite replace_absent.
  - assert (Hin : replace "https://" "wss://" ("http://" ++ rest)
                  = ("http://" ++ rest)%string).
    { cbn. now rewrite replace_absent. }
    rewrite Hin. apply replace_at_head.
  - rewrite (replace_absent "https://") by assumption.
    now apply replace_absent.
Qed.

(** The theorem at the host of the default endpoint. *)
Lemma setEndpoint_derives_scheme_witness :
  let realtime_of e :=
    Settings.endpointRealtime
      (Settings.config (Settings.setEndpoint e Settings.initial)) in
  realtime_of "https://HOSTNAME/v1" = "wss://HOSTNAME/v1"
  /\ realtime_of "http://HOSTNAME/v1" = "ws://HOSTNAME/v1"
  /\ realtime_of "HOSTNAME/v1" = "HOSTNAME/v1".
Proof.
  apply (setEndpoint_derives_scheme "HOSTNAME/v1" Settings.initial);
    reflexivity.
Defined.

Lemma apply_in_sync (call : Settings.Setter) (s : Settings.t) :
  headers_in_sync s -> headers_in_sync (Settings.apply call s).
Proof.
  unfold headers_in_sync.
  intros (H1 & H2 & H3 & H4 & H5 & H6 & H7 & H8).
  destruct call; simpl; auto 10;
    rewrite ?get_set_same, ?get_set_other by discriminate;
    repeat split; auto; now right.
Qed.

(** X12: after any chain of setter calls on a new client, each of the
    headers [X-Appwrite-Project], [X-Appwrite-JWT] and [X-Appwrite-Locale]
    is absent with its configuration value still empty, or holds exactly
    that value; and the five headers the client starts with still hold
    their initial values. *)
Theorem headers_follow_config (calls : list Settings.Setter) :
  let s := Settings.chain calls Settings.initial in
  Settings.in_sync (JsObject.get "X-Appwrite-Project" (Settings.headers s))
                   (Settings.project (Settings.config s))
  /\ Settings.in_sync (JsObject.get "X-Appwrite-JWT" (Settings.headers s))
                      (Settings.jwt (Settings.config s))
  /\ Settings.in_sync (JsObject.get "X-Appwrite-Locale" (Settings.headers s))
                      (Settings.locale (Settings.config s))
  /\ JsObject.get "x-sdk-name" (Settings.headers s) = Some "Web"
  /\ JsObject.get "x-sdk-platform" (Settings.headers s) = Some "client"
  /\ JsObject.get "x-sdk-language" (Settings.headers s) = Some "web"
  /\ JsObject.get "x-sdk-version" (Settings.headers s) = Some "13.0.0"
  /\ JsObject.get "X-Appwrite-Response-Format" (Settings.headers s)
     = Some "1.4.0".
Proof.
  change (headers_in_sync (Settings.chain calls Settings.initial)).
  assert (H0 : headers_in_sync Settings.initial).
  { unfold headers_in_sync. simpl. repeat split; now left. }
  revert H0. generalize Settings.initial as s.
  induction calls as [| call calls IH]; intros s H; simpl; [assumption |].
  apply IH, apply_in_sync, H.
Qed.

(** ** [call] *)

Section ObjectAssign.
Context {V : Type}.
Implicit Types (o : JsObject.t V) (k : string) (v : V).

Lemma has_keys k o : JsObject.has k o = true <-> In k (JsObject.keys o).
Proof.
  unfold JsObject.has, JsObject.keys. rewrite existsb_exists, in_map_iff.
  split; intros [kv [H1 H2]]; exists kv.
  - apply String.eqb_eq in H2. tauto.
  - rewrite String.eqb_eq. tauto.
Qed.

Lemma get_not_key k o : ~ In k (JsObject.keys o) -> JsObject.get k o = None.
Proof.
  intro H. apply get_absent. destruct (JsObject.has k o) eqn:E; [| reflexivity].
  apply has_keys in E. contradiction.
Qed.

(** [Object.assign] read by name: the source's value where it has one,
    the target's otherwise. *)
Lemma get_assign k (source : JsObject.t V) :
  NoDup (JsObject.keys source) ->
  forall target,
    JsObject.get k (JsObject.assign target source)
    = match JsObject.get k source with
      | Some v => Some v
      | None => JsObject.get k target
      end.
Proof.
  unfold JsObject.assign.
  induction source as [| [k1 v1] source IH]; intros Hnd target; simpl;
    [reflexivity |].
  inversion Hnd as [| ? ? Hk1 Hrest]; subst.
  rewrite IH by assumption.
  destruct (String.eqb_spec k1 k) as [-> | Hne].
  - rewrite get_not_key by assumption. apply get_set_same.
  - destruct (JsObject.get k source); [reflexivity |].
    apply get_set_other. congruence.
Qed.

End ObjectAssign.

Section CallFacts.
Context {D L : Type}.
Variable toUpperCase : string -> string.
Variable type_error : string.

#[local] Abbreviation Request := (@Http.Request L).
#[local] Abbreviation Outcome := (@Http.Outcome D).
#[local] Abbreviation call := (@Http.call D L toUpperCase type_error).
#[local] Abbreviation attempt := (@Http.attempt D L type_error).

Lemma attempt_sent (answer : Request -> Outcome) (stored : option string)
  (q : Request) :
  Http.sent (attempt answer stored q) = Some q.
Proof.
  unfold Http.attempt. destruct (answer q) as [r | e]; [| reflexivity].
  destruct (Http.handleReponse type_error r stored) as [[d s] | e];
    reflexivity.
Qed.

(** A call makes no request and resolves to [undefined], or makes the one
    request of one of its three branches, with the merged headers. *)
Lemma call_cases (method url : string) (headers : JsObject.t string)
  (params : list (string * Service.value L))
  (client_headers : JsObject.t string) (stored : option string)
  (answer : Request -> Outcome) :
  call method url headers params client_headers stored answer
  = {| Http.sent := None; Http.storage := stored;
       Http.settled := Http.Resolved None |}
  \/ exists q,
       call method url headers params client_headers stored answer
       = attempt answer stored q
       /\ Http.url q = url
       /\ Http.request_headers q
          = Http.merged_headers client_headers headers stored.
Proof.
  unfold Http.call.
  destruct (String.eqb (toUpperCase method) "GET");
    [right; eexists; repeat split |].
  destruct (JsObject.get "content-type" _) as [ct |]; [| now left].
  destruct (String.eqb ct "application/json");
    [right; eexists; repeat split |].
  destruct (String.eqb ct "multipart/form-data");
    [right; eexists; repeat split | now left].
Qed.

(** X13: [call] looks at the method only to tell GET from the rest.  Two
    methods other than GET give the same result, any request made for
    them goes through [un.post], and when the merged [content-type] is
    neither [application/json] nor [multipart/form-data] no request is
    made: the promise resolves to [undefined] and the storage is left
    alone. *)
Theorem call_ignores_other_methods
  (method1 method2 url : string) (headers : JsObject.t string)
  (params : list (string * Service.value L))
  (client_headers : JsObject.t string) (stored : option string)
  (answer : Request -> Outcome) :
  toUpperCase method1 <> "GET" ->
  toUpperCase method2 <> "GET" ->
  let result :=
    call method1 url headers params client_headers stored answer in
  result = call method2 url headers params client_headers stored answer
  /\ (forall q, Http.sent result = Some q -> Http.verb q = Http.un_post)
  /\ ((forall content_type,
         JsObject.get "content-type"
           (Http.merged_headers client_headers headers stored)
         = Some content_type ->
         content_type <> "application/json"
         /\ content_type <> "multipart/form-data") ->
      result = {| Http.sent := None; Http.storage := stored;
                  Http.settled := Http.Resolved None |}).
Proof.
  intros H1 H2 result. subst result. unfold Http.call.
  apply String.eqb_neq in H1, H2. rewrite H1, H2.
  split; [reflexivity |].
  destruct (JsObject.get "content-type" _) as [ct |].
  - destruct (String.eqb_spec ct "application/json") as [-> | Hj].
    + split.
      * intros q Hq. rewrite attempt_sent in Hq.
        now inversion Hq.
      * intro H. destruct (H _ eq_refl) as [Habs _]. now contradiction Habs.
    + destruct (String.eqb_spec ct "multipart/form-data") as [-> | Hm].
      * split.
        -- intros q Hq. rewrite attempt_sent in Hq. now inversion Hq.
        -- intro H. destruct (H _ eq_refl) as [_ Habs].
           now contradiction Habs.
      * split; [discriminate | reflexivity].
  - split; [discriminate | reflexivity].
Qed.

(** X14: the promise [call] returns is rejected with an
    [AppwriteException] and nothing else.  An error of another kind from
    the transport is wrapped with its message, code 0 and empty type and
    response; a response without headers is such an error, raised by
    [handleReponse], and leaves the storage alone. *)
Theorem call_rejects_with_AppwriteException
  (method url : string) (headers : JsObject.t string)
  (params : list (string * Service.value L))
  (client_headers : JsObject.t string) (stored : option string)
  (answer : Request -> Outcome) :
  let result :=
    call method url headers params client_headers stored answer in
  (forall e, Http.settled result = Http.Rejected e ->
             exists message code type response,
               e = Http.AppwriteException message code type response)
  /\ (forall q message,
        Http.sent result = Some q ->
        answer q = Http.Fails (Http.OtherError message) ->
        Http.settled result
        = Http.Rejected (Http.AppwriteException message 0 "" ""))
  /\ (forall q r,
        Http.sent result = Some q ->
        answer q = Http.Responds r ->
        Http.headers r = None ->
        Http.settled result
        = Http.Rejected (Http.AppwriteException type_error 0 "" "")
        /\ Http.storage result = stored).
Proof.
  intro result. subst result.
  destruct (call_cases method url headers params client_headers stored answer)
    as [-> | (q0 & -> & _)].
  - repeat split; simpl; intros; discriminate.
  - rewrite attempt_sent. unfold Http.attempt, Http.handleReponse.
    split; [| split].
    + intros e.
      destruct (answer q0) as [r | [m c t rs | m]]; simpl.
      * destruct (Http.headers r) as [h |]; simpl.
        -- destruct (JsObject.get "X-Fallback-Cookies" h) as [[| a s] |];
             discriminate.
        -- intro H. inversion H. unfold Http.exception. eauto.
      * intro H. inversion H. eauto.
      * intro H. inversion H. unfold Http.exception. eauto.
    + intros q m Hq Hans. inversion Hq; subst. now rewrite Hans.
    + intros q r Hq Hans Hh. inversion Hq; subst. rewrite Hans, Hh.
      now split.
Qed.

(** X15: the headers of a request.  Read by name, the caller's header
    wins over the client's, except for [X-Fallback-Cookies], which always
    carries the stored cookie (the empty string when none is stored); and
    every request [call] makes carries exactly these headers. *)
Theorem request_headers_precedence
  (method url : string) (headers : JsObject.t string)
  (params : list (string * Service.value L))
  (client_headers : JsObject.t string) (stored : option string)
  (answer : Request -> Outcome) :
  NoDup (JsObject.keys headers) ->
  NoDup (JsObject.keys client_headers) ->
  let merged := Http.merged_headers client_headers headers stored in
  (forall k,
     JsObject.get k merged
     = if String.eqb k "X-Fallback-Cookies"
       then Some (Http.stored_cookie stored)
       else match JsObject.get k headers with
            | Some v => Some v
            | None => JsObject.get k client_headers
            end)
  /\ (forall q,
        Http.sent (call method url headers params client_headers stored answer)
        = Some q ->
        Http.request_headers q = merged).
Proof.
  intros Hh Hc merged. split.
  - intro k. subst merged. unfold Http.merged_headers.
    destruct (String.eqb_spec k "X-Fallback-Cookies") as [-> | Hne].
    + apply get_set_same.
    + rewrite get_set_other by assumption.
      rewrite !get_assign by assumption. simpl.
      destruct (JsObject.get k headers); [reflexivity |].
      now destruct (JsObject.get k client_headers).
  - intros q Hq.
    destruct (call_cases method url headers params client_headers stored
                answer) as [Hn | (q0 & Hc0 & _ & Hm)].
    + rewrite Hn in Hq. discriminate.
    + rewrite Hc0, attempt_sent in Hq. now inversion Hq; subst.
Qed.

(** X16: the fallback cookie travels.  When a call's response carries a
    non-empty [X-Fallback-Cookies] header, that value is stored, and the
    request of the next call carries it in its own [X-Fallback-Cookies]
    header. *)
Theorem fallback_cookie_round_trip
  (method1 url1 method2 url2 : string) (headers1 headers2 : JsObject.t string)
  (params1 params2 : list (string * Service.value L))
  (client_headers : JsObject.t string) (stored : option string)
  (answer1 answer2 : Request -> Outcome) (q1 q2 : Request) (cookie : string) :
  let first :=
    call method1 url1 headers1 params1 client_headers stored answer1 in
  let second :=
    call method2 url2 headers2 params2 client_headers (Http.storage first)
         answer2 in
  Http.sent first = Some q1 ->
  Http.cookie_of (answer1 q1) = Some cookie ->
  Http.sent second = Some q2 ->
  Http.storage first = Some cookie
  /\ JsObject.get "X-Fallback-Cookies" (Http.request_headers q2) = Some cookie.
Proof.
  intros first second H1 Hcookie H2.
  assert (Hs : Http.storage first = Some cookie).
  { subst first.
    destruct (call_cases method1 url1 headers1 params1 client_headers stored
                answer1) as [Hn | (q & Hc & _)].
    - rewrite Hn in H1. discriminate.
    - rewrite Hc in *. rewrite attempt_sent in H1. inversion H1; subst.
      unfold Http.attempt, Http.handleReponse. unfold Http.cookie_of in Hcookie.
      destruct (answer1 q1) as [r | e]; [| discriminate].
      destruct (Http.headers r) as [h |]; [| discriminate].
      destruct (JsObject.get "X-Fallback-Cookies" h) as [[| a s] |];
        try discriminate.
      now inversion Hcookie. }
  split; [assumption |].
  subst second.
  destruct (call_cases method2 url2 headers2 params2 client_headers
              (Http.storage first) answer2) as [Hn | (q & Hc & _ & Hm)].
  - rewrite Hn in H2. discriminate.
  - rewrite Hc, attempt_sent in H2. inversion H2; subst.
    rewrite Hm, Hs. unfold Http.merged_headers. apply get_set_same.
Qed.

End CallFacts.

(** ** Chunked upload *)

Ltac chunk_arith :=
  unfold Upload.slice_stop, Upload.chunk_end, Upload.chunk_start,
    Upload.totalCounters in *;
  change Upload.CHUNK_SIZE with 5242880%N in *;
  repeat match goal with
         | H : context [(?a mod ?b =? 0)%N] |- _ =>
             destruct (N.eqb_spec (a mod b) 0)
         | |- context [(?a mod ?b =? 0)%N] =>
             destruct (N.eqb_spec (a mod b) 0)
         | |- context [(?a <? ?b)%N] => destruct (N.ltb_spec a b)
         end;
  zify; Z.to_euclidean_division_equations; lia.




(** X18: the [content-range] header of a round the loop runs names the
    chunk's first byte, an end and the size.  The end is the chunk's
    last byte for every chunk but the last; for the last chunk it is the
    last byte only when the size is a multiple of [CHUNK_SIZE], and the
    size itself, one past the last byte, otherwise.  Sizes are those for
    which the numbers of the source are exact. *)
Theorem content_range_end (size counter : N) :
  Upload.exact size = true ->
  (Upload.CHUNK_SIZE < size)%N ->
  (counter < Upload.totalCounters size)%N ->
  Upload.content_range counter size
  = Some ("bytes " ++ decimal (Upload.chunk_start counter) ++ "-"
          ++ decimal (if (counter + 1 <? Upload.totalCounters size)%N
                         || (size mod Upload.CHUNK_SIZE =? 0)%N
                      then (Upload.slice_stop counter size - 1)%N
                      else size)
          ++ "/" ++ decimal size)%string.
Proof.
  intros Hexact Hsize H. unfold Upload.content_range, Upload.in_loop.
  rewrite Hexact.
  apply N.ltb_lt in Hsize, H. rewrite Hsize, H. simpl.
  apply N.ltb_lt in Hsize, H.
  replace (Upload.chunk_end counter size)
    with (if (counter + 1 <? Upload.totalCounters size)%N
             || (size mod Upload.CHUNK_SIZE =? 0)%N
          then (Upload.slice_stop counter size - 1)%N
          else size); [reflexivity |].
  destruct (counter + 1 <? Upload.totalCounters size)%N eqn:E1; simpl.
  - apply N.ltb_lt in E1. chunk_arith.
  - apply N.ltb_ge in E1.
    destruct (size mod Upload.CHUNK_SIZE =? 0)%N eqn:E2.
    + apply N.eqb_eq in E2. chunk_arith.
    + apply N.eqb_neq in E2. chunk_arith.
Qed.

(** The theorem at the third and last chunk of a file of 12 000 000
    bytes: the header's end is the size. *)
Lemma content_range_end_witness :
  Upload.content_range 2 12000000
  = Some "bytes 10485760-12000000/12000000".
Proof.
  refine (eq_trans (content_range_end 12000000 2 _ _ _) _);
    vm_compute; reflexivity.
Defined.

(** ** [call] at concrete requests *)

(** The theorem at [post] and [delete] with a JSON content type, over a
    network that is down. *)
Lemma call_ignores_other_methods_witness :
  let offline (_ : @Http.Request string) : @Http.Outcome nat :=
    Http.Fails (Http.OtherError "offline") in
  Http.call ascii_toUpperCase "TypeError" "post" "https://h/v1/account"
    [("content-type", "application/json")] [] [] None offline
  = Http.call ascii_toUpperCase "TypeError" "delete" "https://h/v1/account"
      [("content-type", "application/json")] [] [] None offline.
Proof.
  intro offline.
  apply (call_ignores_other_methods ascii_toUpperCase "TypeError"
           "post" "delete" "https://h/v1/account"
           [("content-type", "application/json")] [] [] None offline);
    vm_compute; discriminate.
Defined.

(** The theorem at a call that passes its own content type to a client
    that has a project header. *)
Lemma request_headers_precedence_witness :
  JsObject.get "content-type"
    (Http.merged_headers
       [("content-type", "text/plain"); ("X-Appwrite-Project", "p")]
       [("content-type", "application/json")] (Some "c"))
  = Some "application/json".
Proof.
  refine (eq_trans
            (proj1 (request_headers_precedence (D:=nat) (L:=string)
                      ascii_toUpperCase "TypeError" "get" "https://h/v1/x"
                      [("content-type", "application/json")] []
                      [("content-type", "text/plain");
                       ("X-Appwrite-Project", "p")]
                      (Some "c")
                      (fun _ => Http.Fails (Http.OtherError "offline"))
                      _ _) "content-type") _).
  - repeat constructor; simpl; intuition discriminate.
  - repeat constructor; simpl; intuition discriminate.
  - reflexivity.
Defined.

(** The theorem at a login whose response carries a cookie, followed by
    a read. *)
Lemma fallback_cookie_round_trip_witness :
  let login (_ : @Http.Request string) : @Http.Outcome nat :=
    Http.Responds
      {| Http.data := 1;
         Http.headers := Some [("X-Fallback-Cookies", "a_session_p=s")] |} in
  let read (_ : @Http.Request string) : @Http.Outcome nat :=
    Http.Responds {| Http.data := 2; Http.headers := Some [] |} in
  let first :=
    Http.call ascii_toUpperCase "TypeError" "post" "https://h/v1/sessions"
      [("content-type", "application/json")] [] [] None login in
  let second :=
    Http.call ascii_toUpperCase "TypeError" "get" "https://h/v1/account"
      [] [] [] (Http.storage first) read in
  exists q2,
    Http.sent second = Some q2
    /\ JsObject.get "X-Fallback-Cookies" (Http.request_headers q2)
       = Some "a_session_p=s".
Proof.
  intros login read first second.
  destruct (Http.sent first) as [q1 |] eqn:E1; [| discriminate E1].
  destruct (Http.sent second) as [q2 |] eqn:E2; [| discriminate E2].
  exists q2. split; [reflexivity |].
  apply (fallback_cookie_round_trip ascii_toUpperCase "TypeError"
           "post" "https://h/v1/sessions" "get" "https://h/v1/account"
           [("content-type", "application/json")] [] [] [] [] None
           login read q1 q2 "a_session_p=s");
    [exact E1 | reflexivity | exact E2].
Defined.

(** ** [urlAppendQueryParams] *)

Lemma uri_no_amp (a : ascii) (rest : string) :
  occurs "&" (encodeURIComponent (String a rest))
  = occurs "&" (encodeURIComponent rest).
Proof. each_byte a; reflexivity. Qed.

Lemma uri_no_eq (a : ascii) (rest : string) :
  occurs "=" (encodeURIComponent (String a rest))
  = occurs "=" (encodeURIComponent rest).
Proof. each_byte a; reflexivity. Qed.

Lemma uri_clean (s : string) :
  occurs "&" (encodeURIComponent s) = false
  /\ occurs "=" (encodeURIComponent s) = false.
Proof.
  induction s as [| a s [IH1 IH2]]; [now split |].
  now rewrite uri_no_amp, uri_no_eq.
Qed.

Lemma decode_uri_byte (a : ascii) (rest : string) :
  URLSearchParams.decode (encodeURIComponent (String a rest))
  = String a (URLSearchParams.decode (encodeURIComponent rest)).
Proof. each_byte a; reflexivity. Qed.

(** The query parser undoes [encodeURIComponent]. *)
Lemma decode_uri (s : string) :
  URLSearchParams.decode (encodeURIComponent s) = s.
Proof.
  induction s as [| a s IH]; [reflexivity |].
  now rewrite decode_uri_byte, IH.
Qed.

Section ObjectKeys.
Context {V : Type}.
Implicit Types (o : JsObject.t V) (k : string) (v : V).

Lemma keys_overwrite k v o :
  JsObject.keys (JsObject.overwrite k v o) = JsObject.keys o.
Proof.
  unfold JsObject.keys, JsObject.overwrite. rewrite map_map.
  apply map_ext. intros [k' v']. simpl.
  now destruct (String.eqb_spec k' k).
Qed.

Lemma keys_insert_index n k v o :
  Permutation (k :: JsObject.keys o)
              (JsObject.keys (JsObject.insert_index n k v o)).
Proof.
  induction o as [| [k' v'] o IH]; simpl; [reflexivity |].
  destruct (JsObject.array_index k') as [m |]; [| reflexivity].
  destruct (m <? n)%N; [| reflexivity].
  simpl. rewrite <- IH. apply perm_swap.
Qed.

(** Writing a property keeps the names distinct. *)
Lemma set_keeps_names_distinct k v o :
  NoDup (JsObject.keys o) -> NoDup (JsObject.keys (JsObject.set k v o)).
Proof.
  intro H. unfold JsObject.set.
  destruct (JsObject.has k o) eqn:E.
  - now rewrite keys_overwrite.
  - assert (Hk : ~ In k (JsObject.keys o)).
    { intro Hin. apply has_keys in Hin. congruence. }
    assert (Hc : NoDup (k :: JsObject.keys o)) by now constructor.
    destruct (JsObject.array_index k) as [n |].
    + exact (Permutation_NoDup (keys_insert_index n k v o) Hc).
    + unfold JsObject.keys. rewrite map_app. simpl.
      exact (Permutation_NoDup (Permutation_cons_append _ _) Hc).
Qed.

Lemma assign_keeps_names_distinct (source target : JsObject.t V) :
  NoDup (JsObject.keys target) ->
  NoDup (JsObject.keys (JsObject.assign target source)).
Proof.
  unfold JsObject.assign. revert target.
  induction source as [| [k v] source IH]; intros target H; simpl;
    [assumption |].
  apply IH. now apply set_keeps_names_distinct.
Qed.

Lemma get_entry k v o :
  NoDup (JsObject.keys o) -> In (k, v) o -> JsObject.get k o = Some v.
Proof.
  induction o as [| [k' v'] o IH]; simpl; [tauto |].
  intros Hnd [Heq | Hin].
  - inversion Heq; subst. now rewrite String.eqb_refl.
  - inversion Hnd as [| ? ? Hk' Hrest]; subst.
    destruct (String.eqb_spec k' k) as [-> | _].
    + contradict Hk'. unfold JsObject.keys.
      change k with (fst (k, v)). now apply in_map.
    + now apply IH.
Qed.

End ObjectKeys.

Section UrlAppendFacts.
Context {L : Type}.
Variable to_text : L -> string.

Lemma entry_text_shape (kv : string * L) :
  occurs "&" (entry_text to_text kv) = false
  /\ URLSearchParams.is_empty (entry_text to_text kv) = false
  /\ URLSearchParams.cut_at "=" (entry_text to_text kv)
     = (encodeURIComponent (fst kv), encodeURIComponent (to_text (snd kv))).
Proof.
  unfold entry_text.
  destruct (uri_clean (fst kv)) as [Hn1 Hn2].
  destruct (uri_clean (to_text (snd kv))) as [Hv1 Hv2].
  change ("=" ++ encodeURIComponent (to_text (snd kv)))%string
    with (String "=" (encodeURIComponent (to_text (snd kv)))).
  split; [| split].
  - rewrite occurs_app. simpl. now rewrite Hn1, Hv1.
  - destruct (encodeURIComponent (fst kv)); reflexivity.
  - now apply cut_at_app.
Qed.

Lemma parse_entries (o : JsObject.t L) :
  URLSearchParams.parse (String.concat "&" (map (entry_text to_text) o))
  = map (fun kv => (fst kv, to_text (snd kv))) o.
Proof.
  unfold URLSearchParams.parse.
  destruct o as [| kv o]; [reflexivity |].
  rewrite split_on_concat.
  - generalize (kv :: o) as l. induction l as [| [k v] l IH]; [reflexivity |].
    cbn [map filter].
    destruct (entry_text_shape (k, v)) as (_ & -> & Hc).
    cbn [negb map]. rewrite Hc, IH. cbn [fst snd].
    now rewrite !decode_uri.
  - discriminate.
  - apply Forall_map, Forall_forall. intros x _. apply entry_text_shape.
Qed.

(** X19: [urlAppendQueryParams] appends a question mark and a query,
    also when there are no parameters.  A server that parses the query
    reads the flattened parameters back: the same names with the text of
    the same values, in the order of [Object.keys]; no name or value is
    cut or merged by a [&], [=], [+] or [%] in it. *)
Theorem query_reads_back (url : string)
  (params : list (string * Service.value L)) :
  (exists query,
     urlAppendQueryParams to_text url params = (url ++ "?" ++ query)%string
     /\ URLSearchParams.parse query
        = map (fun kv => (fst kv, to_text (snd kv)))
              (JsObject.assign JsObject.empty (Service.flatten params)))
  /\ urlAppendQueryParams to_text url [] = (url ++ "?")%string.
Proof.
  split; [| reflexivity].
  exists (queryString to_text params). split; [reflexivity |].
  unfold queryString.
  set (searchParams := JsObject.assign JsObject.empty (Service.flatten params)).
  assert (Hnd : NoDup (JsObject.keys searchParams)).
  { apply assign_keeps_names_distinct. constructor. }
  replace (map (key_value_text to_text searchParams)
             (JsObject.keys searchParams))
    with (map (entry_text to_text) searchParams); [apply parse_entries |].
  unfold JsObject.keys. rewrite map_map. apply map_ext_in.
  intros [k v] Hin. unfold key_value_text, entry_text. simpl.
  now rewrite (get_entry k v searchParams Hnd Hin).
Qed.

End UrlAppendFacts.

(** ** [Service.flatten] *)

Section FlattenFacts.
Context {L : Type}.
Implicit Types (v : Service.value L) (out : JsObject.t L) (k : string).

Lemma value_induction (P : Service.value L -> Prop) :
  (forall l, P (Service.Leaf l)) ->
  (forall items, Forall P items -> P (Service.Arr items)) ->
  forall v, P v.
Proof.
  intros HLeaf HArr. fix IH 1. intros [l | items].
  - apply HLeaf.
  - apply HArr. induction items as [| x items IHitems]; constructor.
    + apply IH.
    + exact IHitems.
Qed.

Lemma flatten_array (finalKey : string) (items : list (Service.value L)) out :
  Service.flatten_value finalKey (Service.Arr items) out
  = JsObject.assign out
      (Service.flatten_items finalKey items 0 JsObject.empty).
Proof.
  simpl. f_equal. generalize 0 (@JsObject.empty L).
  induction items as [| x items IH]; intros i o; [reflexivity |].
  simpl. apply IH.
Qed.

Lemma writes_of_array (finalKey : string) (items : list (Service.value L)) :
  writes_of finalKey (Service.Arr items) = writes_of_items finalKey items 0.
Proof.
  simpl. generalize 0.
  induction items as [| x items IH]; intro i; [reflexivity |].
  simpl. now rewrite IH.
Qed.

Lemma last_written_app k (earlier later : list (string * L)) :
  last_written k (earlier ++ later)
  = match last_written k later with
    | Some x => Some x
    | None => last_written k earlier
    end.
Proof.
  unfold last_written. rewrite rev_app_distr.
  induction (rev later) as [| [k' x] ws IH]; simpl; [reflexivity |].
  now destruct (String.eqb k' k).
Qed.

(** One round of the loop keeps the names distinct, and leaves under
    each name the last value it wrote there, or what was there. *)
Lemma flatten_value_spec v :
  forall (finalKey : string) out,
    NoDup (JsObject.keys out) ->
    NoDup (JsObject.keys (Service.flatten_value finalKey v out))
    /\ forall k,
         JsObject.get k (Service.flatten_value finalKey v out)
         = match last_written k (writes_of finalKey v) with
           | Some x => Some x
           | None => JsObject.get k out
           end.
Proof.
  induction v as [l | items IH] using value_induction; intros finalKey out Hout.
  - split; [now apply set_keeps_names_distinct |].
    intro k. cbn [Service.flatten_value writes_of].
    unfold last_written. simpl.
    destruct (String.eqb_spec finalKey k) as [-> | Hne].
    + apply get_set_same.
    + apply get_set_other. congruence.
  - rewrite flatten_array, writes_of_array.
    assert (Hitems :
              forall i o,
                NoDup (JsObject.keys o) ->
                NoDup (JsObject.keys (Service.flatten_items finalKey items i o))
                /\ forall k,
                     JsObject.get k (Service.flatten_items finalKey items i o)
                     = match last_written k
                               (writes_of_items finalKey items i) with
                       | Some x => Some x
                       | None => JsObject.get k o
                       end).
    { induction IH as [| x items Hx _ IHitems]; intros i o Ho.
      - now split.
      - cbn [Service.flatten_items writes_of_items].
        destruct (Hx (Service.final_key finalKey (decimal (N.of_nat i))) o Ho)
          as [Hnd Hget].
        destruct (IHitems (S i) _ Hnd) as [Hnd' Hget'].
        split; [exact Hnd' |].
        intro k. rewrite Hget', Hget, last_written_app.
        now destruct (last_written k (writes_of_items finalKey items (S i))). }
    destruct (Hitems 0 JsObject.empty (NoDup_nil _)) as [Hnd Hget].
    split; [now apply assign_keeps_names_distinct |].
    intro k. rewrite get_assign by exact Hnd. rewrite Hget. simpl.
    now destruct (last_written k (writes_of_items finalKey items 0)).
Qed.

(** X20: what [Service.flatten] returns, read by name.  Every value that
    is not an array is written under its name, an element of an array
    under [name[index]], at any depth; the result holds under each name
    the last value written there and has no other name, and no name
    twice. *)
Theorem flatten_keeps_last_write (data : list (string * Service.value L)) :
  NoDup (JsObject.keys (Service.flatten data))
  /\ forall k,
       JsObject.get k (Service.flatten data) = last_written k (writes data).
Proof.
  unfold Service.flatten, writes.
  assert (H : forall out,
             NoDup (JsObject.keys out) ->
             NoDup (JsObject.keys
                      (fold_left
                         (fun output kv =>
                            Service.flatten_value
                              (Service.final_key "" (fst kv)) (snd kv) output)
                         data out))
             /\ forall k,
                  JsObject.get k
                    (fold_left
                       (fun output kv =>
                          Service.flatten_value
                            (Service.final_key "" (fst kv)) (snd kv) output)
                       data out)
                  = match last_written k
                            (flat_map
                               (fun kv =>
                                  writes_of (Service.final_key "" (fst kv))
                                            (snd kv)) data) with
                    | Some x => Some x
                    | None => JsObject.get k out
                    end).
  { induction data as [| [name v] data IH]; intros out Hout.
    - now split.
    - cbn [fold_left flat_map fst snd].
      destruct (flatten_value_spec v (Service.final_key "" name) out Hout)
        as [Hnd Hget].
      destruct (IH _ Hnd) as [Hnd' Hget'].
      split; [exact Hnd' |].
      intro k. rewrite Hget', Hget, last_written_app.
      now destruct (last_written k (flat_map _ data)). }
  destruct (H JsObject.empty (NoDup_nil _)) as [Hnd Hget].
  split; [exact Hnd |].
  intro k. rewrite Hget.
  now destruct (last_written k (flat_map _ data)).
Qed.

End FlattenFacts.

(** ** The caller's content type *)

(** X21: for a method other than GET, the content type the caller passes
    decides the request, whatever content type the client's own headers
    name: [application/json] sends the parameters as [data],
    [multipart/form-data] sends them as [formData], both through
    [un.post] with the merged headers, and any other content type sends
    nothing. *)
Theorem content_type_decides_body {D L : Type}
  (toUpperCase : string -> string) (type_error : string)
  (method url content_type : string) (headers : JsObject.t string)
  (params : list (string * Service.value L))
  (client_headers : JsObject.t string) (stored : option string)
  (answer : @Http.Request L -> @Http.Outcome D) :
  NoDup (JsObject.keys headers) ->
  toUpperCase method <> "GET" ->
  JsObject.get "content-type" headers = Some content_type ->
  Http.sent
    (Http.call toUpperCase type_error method url headers params
               client_headers stored answer)
  = let merged := Http.merged_headers client_headers headers stored in
    if String.eqb content_type "application/json" then
      Some {| Http.verb := Http.un_post; Http.url := url;
              Http.request_headers := merged;
              Http.body := Http.with_data params |}
    else if String.eqb content_type "multipart/form-data" then
      Some {| Http.verb := Http.un_post; Http.url := url;
              Http.request_headers := merged;
              Http.body := Http.with_formData params |}
    else None.
Proof.
  intros Hnd Hmethod Hct. unfold Http.call.
  apply String.eqb_neq in Hmethod. rewrite Hmethod.
  assert (Hmerged :
            JsObject.get "content-type"
              (Http.merged_headers client_headers headers stored)
            = Some content_type).
  { unfold Http.merged_headers.
    rewrite get_set_other by discriminate.
    rewrite get_assign by exact Hnd. now rewrite Hct. }
  rewrite Hmerged. cbv zeta.
  destruct (String.eqb content_type "application/json");
    [apply attempt_sent |].
  destruct (String.eqb content_type "multipart/form-data");
    [apply attempt_sent | reflexivity].
Qed.

(** The theorem at the request of one chunk of an upload, on a client
    whose own headers name another content type. *)
Lemma content_type_decides_body_witness :
  let answer (_ : @Http.Request string) : @Http.Outcome nat :=
    Http.Fails (Http.OtherError "offline") in
  Http.sent
    (Http.call ascii_toUpperCase "TypeError" "post"
       "https://h/v1/storage/buckets/b/files"
       [("content-type", "multipart/form-data");
        ("content-range", "bytes 0-5242879/12000000")]
       [("fileId", Service.Leaf "f")]
       [("content-type", "application/json")] None answer)
  = Some {| Http.verb := Http.un_post;
            Http.url := "https://h/v1/storage/buckets/b/files";
            Http.request_headers :=
              [("content-type", "multipart/form-data");
               ("content-range", "bytes 0-5242879/12000000");
               ("X-Fallback-Cookies", "")];
            Http.body := Http.with_formData [("fileId", Service.Leaf "f")] |}.
Proof.
  intro answer.
  refine (eq_trans
            (content_type_decides_body ascii_toUpperCase "TypeError" "post"
               "https://h/v1/storage/buckets/b/files" "multipart/form-data"
               [("content-type", "multipart/form-data");
                ("content-range", "bytes 0-5242879/12000000")]
               [("fileId", Service.Leaf "f")]
               [("content-type", "application/json")] None answer _ _ _) _).
  - repeat constructor; simpl; intuition discriminate.
  - vm_compute. discriminate.
  - reflexivity.
  - reflexivity.
Defined.
